(** * GraphRAG agent: retrieval fusion and answer construction

    A shallow embedding of [app/graphrag_agent.py] (class [GraphRAGAgent])
    together with the properties of its retrieval, context assembly,
    synthesis and ingestion steps.

    Conventions of the embedding.
    - A Python [str] is a [string]; a character is a code point below 256.
      Upper-casing leaves that range for two characters, so its result is
      a list of code points.
    - A Python [dict] with string keys is a [gmap string _]; a [set] of
      strings is a [gset string].
    - A Python [float] is a binary64 primitive float.
    - The three services the agent talks to (vector index, property graph,
      generative model) live in an explicit [World]; every call to one of
      them is appended to a log, and an exception is a value of the error
      monad [M]. *)

From Stdlib Require Import ZArith List Ascii String.
From Stdlib Require Import Floats.PrimFloat.
From stdpp Require Import gmap strings list fin_maps pretty.

Local Open Scope string_scope.
Local Open Scope list_scope.
Local Open Scope nat_scope.
Set Warnings "-abstract-large-number,-register-all".

(** ** Python strings *)

Module PyStr.

(** [str.isspace] on one character: the code points below 256 that Python
    treats as whitespace (used by [strip] and [split] without argument). *)
Definition isspace (c : ascii) : bool :=
  let n := nat_of_ascii c in
  ((9 <=? n)%nat && (n <=? 13)%nat)
  || ((28 <=? n)%nat && (n <=? 32)%nat)
  || (n =? 133)%nat || (n =? 160)%nat.

(** [str.lower] on one character: A-Z, and the upper-case letters of the
    Latin-1 block (all of U+00C0..U+00DE but the multiplication sign). *)
Definition lower_char (c : ascii) : ascii :=
  let n := nat_of_ascii c in
  if ((65 <=? n)%nat && (n <=? 90)%nat)
     || ((192 <=? n)%nat && (n <=? 222)%nat && negb (n =? 215)%nat)
  then ascii_of_nat (n + 32) else c.

Fixpoint lower (s : string) : string :=
  match s with
  | EmptyString => EmptyString
  | String c s' => String (lower_char c) (lower s')
  end.

(** A [str] as the list of its code points, for text that can hold code
    points beyond U+00FF. *)
Definition wide : Type := list N.

Definition widen (s : string) : wide :=
  List.map N_of_ascii (list_ascii_of_string s).

(** The [string] of a text whose code points are all below 256. *)
Fixpoint narrow (t : wide) : option string :=
  match t with
  | [] => Some EmptyString
  | c :: t' =>
      if (c <? 256)%N
      then match narrow t' with
           | Some s => Some (String (ascii_of_N c) s)
           | None => None
           end
      else None
  end.

(** [str.upper] on one character: a-z and the lower-case letters of the
    Latin-1 block (all of U+00E0..U+00FE but the division sign) move down
    by 32; the sharp s becomes two letters; the micro sign becomes the
    Greek capital mu, U+039C, and y-diaeresis becomes U+0178. *)
Definition upper_char (c : ascii) : wide :=
  let n := N_of_ascii c in
  if ((97 <=? n)%N && (n <=? 122)%N)
     || ((224 <=? n)%N && (n <=? 254)%N && negb (n =? 247)%N)
  then [ (n - 32)%N ]
  else if (n =? 223)%N then [ 83%N; 83%N ]
  else if (n =? 181)%N then [ 924%N ]
  else if (n =? 255)%N then [ 376%N ]
  else [ n ].

Fixpoint upper (s : string) : wide :=
  match s with
  | EmptyString => []
  | String c s' => upper_char c ++ upper s'
  end.

(** [t.replace(old, new)] for one-character [old] and [new]. *)
Definition replace_code (old new : N) (t : wide) : wide :=
  List.map (fun c => if (c =? old)%N then new else c) t.

(** [s[:n]] *)
Fixpoint take (n : nat) (s : string) : string :=
  match n, s with
  | S n', String c s' => String c (take n' s')
  | _, _ => EmptyString
  end.

(** [s[n:]] *)
Fixpoint drop (n : nat) (s : string) : string :=
  match n, s with
  | S n', String _ s' => drop n' s'
  | _, _ => s
  end.

(** [s.startswith(p)] *)
Fixpoint startswith (p s : string) : bool :=
  match p, s with
  | EmptyString, _ => true
  | String a p', String b s' => Ascii.eqb a b && startswith p' s'
  | String _ _, EmptyString => false
  end.

(** [s.replace(old, new)] for a non-empty [old]: scan from the left, and
    at every position where [old] starts emit [new] and jump over it.
    [fuel] bounds the number of positions visited. *)
Fixpoint replace_from (fuel : nat) (old new s : string) : string :=
  match fuel, s with
  | S fuel', String c s' =>
      if startswith old s
      then new +:+ replace_from fuel' old new (drop (String.length old) s)
      else String c (replace_from fuel' old new s')
  | _, _ => s
  end.

Definition replace (old new s : string) : string :=
  replace_from (String.length s) old new s.

(** [x in s] for strings: [x] occurs as a substring of [s]. *)
Fixpoint contains (s x : string) : bool :=
  startswith x s ||
  match s with
  | EmptyString => false
  | String _ s' => contains s' x
  end.

Fixpoint lstrip (s : string) : string :=
  match s with
  | String c s' => if isspace c then lstrip s' else s
  | EmptyString => EmptyString
  end.

Fixpoint rev_onto (s acc : string) : string :=
  match s with
  | EmptyString => acc
  | String c s' => rev_onto s' (String c acc)
  end.

Definition rev (s : string) : string := rev_onto s EmptyString.

Definition rstrip (s : string) : string := rev (lstrip (rev s)).

(** [s.strip()] *)
Definition strip (s : string) : string := rstrip (lstrip s).

(** [s.split()]: the maximal runs of non-whitespace characters, from left
    to right. [cur] is the run being read, most recent character first. *)
Fixpoint split_from (cur : string) (s : string) : list string :=
  match s with
  | EmptyString =>
      match cur with EmptyString => [] | _ => [rev cur] end
  | String c s' =>
      if isspace c
      then match cur with
           | EmptyString => split_from EmptyString s'
           | _ => rev cur :: split_from EmptyString s'
           end
      else split_from (String c cur) s'
  end.

Definition split (s : string) : list string := split_from EmptyString s.

(** [sep.join(parts)] *)
Fixpoint join (sep : string) (parts : list string) : string :=
  match parts with
  | [] => EmptyString
  | [p] => p
  | p :: ps => p +:+ sep +:+ join sep ps
  end.

(** Every character of [s] satisfies [p]. *)
Fixpoint all_chars (p : ascii -> bool) (s : string) : bool :=
  match s with
  | EmptyString => true
  | String c s' => p c && all_chars p s'
  end.

(** A string is truthy when it is not empty. *)
Definition truthy (s : string) : bool :=
  match s with EmptyString => false | _ => true end.

End PyStr.

(** ** Keyword extraction ([_extract_keywords]) *)

Definition stopwords : gset string :=
  list_to_set
    [ "what"; "who"; "where"; "when"; "why"; "how"; "is"; "are"; "was";
      "were"; "the"; "a"; "an"; "and"; "or"; "but"; "in"; "on"; "at";
      "to"; "for"; "of"; "with"; "by"; "about"; "tell"; "me"; "show";
      "give"; "explain"; "describe"; "company"; "companies"; "stock";
      "quel"; "quelle"; "quels"; "quelles"; "est"; "sont"; "le"; "la";
      "les"; "un"; "une"; "des"; "du"; "de"; "et"; "ou"; "mais"; "dans";
      "sur"; "pour"; "avec"; "par"; "entreprise"; "entreprises" ].

Definition is_keyword (w : string) : bool :=
  bool_decide (w ∉ stopwords) && (2 <? String.length w)%nat.

Definition _extract_keywords (query : string) : list string :=
  let words :=
    PyStr.split (PyStr.replace "," "" (PyStr.replace "?" "" (PyStr.lower query))) in
  List.filter is_keyword words.


(** ** Python values *)

(** Numbers: an [int] or a [float]. *)
Inductive pynum :=
| NInt (z : Z)
| NFloat (f : float).

(** The scalar values a graph property can hold. *)
Inductive pyval :=
| VStr (s : string)
| VNum (n : pynum)
| VBool (b : bool).

(** A value read from JSON, and a value that goes through [jsonify]; a
    dict keeps the order of its keys. *)
Inductive json :=
| JNull
| JBool (b : bool)
| JInt (z : Z)
| JFloat (f : float)
| JStr (s : string)
| JList (items : list json)
| JDict (fields : list (string * json)).

(** Truth value of a float: everything but the two zeros is true. *)
Definition float_truthy (f : float) : bool := negb (PrimFloat.eqb f 0%float).

Definition num_truthy (n : pynum) : bool :=
  match n with
  | NInt z => negb (z =? 0)%Z
  | NFloat f => float_truthy f
  end.

Definition val_truthy (v : pyval) : bool :=
  match v with
  | VStr s => PyStr.truthy s
  | VNum n => num_truthy n
  | VBool b => b
  end.

(** Truth value of [d.get(k)]: an absent key gives [None], which is false. *)
Definition opt_truthy (o : option pyval) : bool :=
  match o with Some v => val_truthy v | None => false end.

Definition num_eqb (a b : pynum) : bool :=
  match a, b with
  | NInt x, NInt y => (x =? y)%Z
  | NFloat x, NFloat y => PrimFloat.eqb x y
  | _, _ => false
  end.

(** Equality of two property values of the same kind. *)
Definition pyval_eqb (a b : pyval) : bool :=
  match a, b with
  | VStr x, VStr y => String.eqb x y
  | VNum x, VNum y => num_eqb x y
  | VBool x, VBool y => Bool.eqb x y
  | _, _ => false
  end.

(** ** Data model *)

(** Metadata of an indexed passage: ticker, section, source, url, path, year. *)
Abbreviation Meta := (gmap string string).
Abbreviation Props := (gmap string pyval).

(** What [VectorStoreAgent.search] returns: a dict of three lists in the
    same order; [None] is an absent key. *)
Record SearchResult := {
  documents : option (list (option string));
  metadatas : option (list Meta);
  distances : option (list (option float)) }.

(** A vector evidence item, a dict with the keys below; [None] is an absent
    key. *)
Record Evidence := {
  ev_content : option string;
  ev_metadata : option Meta;
  ev_relevance : option pynum;
  ev_source_type : option string }.

(** A graph evidence item. *)
Record Entity := {
  en_type : option string;
  en_data : option Props;
  en_source_type : option string }.

(** One row of the one-hop query: [relation], [target_type], [target_name]. *)
Record PathRow := {
  row_relation : string;
  row_target_type : option string;
  row_target_name : option pyval }.

Record GraphPath := {
  gp_source : pyval;
  gp_relation : string;
  gp_target_type : option string;
  gp_target : option pyval }.

Record Citation := {
  cit_source : string;
  cit_section : string;
  cit_url : string;
  cit_relevance : pynum }.

Record Sources := {
  vector_results : nat;
  graph_entities : nat }.

Record AnswerResult := {
  ar_question : string;
  ar_answer : string;
  ar_citations : list Citation;
  ar_graph_paths : list GraphPath;
  ar_sources : Sources }.

(** Input of the ingestion path: the output of entity extraction. *)
Record EntityRec := {
  er_name : option string;
  er_type : option string }.

(** The label of a relation is whatever the extraction model wrote under
    the key: a string, [null], a number. *)
Record RelationRec := {
  rr_source : option string;
  rr_target : option string;
  rr_relation : option json }.

Record Extraction := {
  ex_source : option string;
  ex_entities : option (list EntityRec);
  ex_relations : option (list RelationRec) }.

Inductive IngestStats :=
| IngestError (msg : string)
| IngestCounts (entities_added relations_added : nat).

(** ** The property graph and the four queries run against it *)

Record Node := {
  n_labels : list string;
  n_props : Props }.

(** A directed relationship between two nodes, given by their positions in
    the node list. *)
Record Edge := {
  e_src : nat;
  e_type : string;
  e_dst : nat;
  e_props : Props }.

Record Graph := {
  g_nodes : list Node;
  g_edges : list Edge }.

Module Cypher.

Definition has_label (l : string) (n : Node) : bool :=
  existsb (String.eqb l) (n_labels n).

(** The pattern [{k: v}]. *)
Definition prop_is (k : string) (v : pyval) (n : Node) : bool :=
  match n_props n !! k with
  | Some v' => pyval_eqb v' v
  | None => false
  end.

(** [toLower(c.field) CONTAINS toLower($keyword)]; a missing property is
    null and the test is not true. *)
Definition field_contains (field keyword : string) (n : Node) : bool :=
  match n_props n !! field with
  | Some (VStr s) => PyStr.contains (PyStr.lower s) (PyStr.lower keyword)
  | _ => false
  end.

Definition company_matches (keyword : string) (n : Node) : bool :=
  has_label "Company" n
  && (field_contains "name" keyword n
      || field_contains "ticker" keyword n
      || field_contains "sector" keyword n
      || field_contains "industry" keyword n).

(** [MATCH (c:Company) WHERE ... RETURN c LIMIT 3] *)
Definition probe (keyword : string) (g : Graph) : list Props :=
  take 3 (n_props <$> List.filter (company_matches keyword) (g_nodes g)).

(** Positions of the nodes that satisfy [p]. *)
Fixpoint positions_from (i : nat) (p : Node -> bool) (ns : list Node) : list nat :=
  match ns with
  | [] => []
  | n :: ns' =>
      if p n then i :: positions_from (S i) p ns' else positions_from (S i) p ns'
  end.

Definition positions (p : Node -> bool) (g : Graph) : list nat :=
  positions_from 0 p (g_nodes g).

Definition row_of (g : Graph) (e : Edge) : PathRow :=
  let target := g_nodes g !! e_dst e in
  {| row_relation := e_type e;
     row_target_type := target ≫= (fun n => head (n_labels n));
     row_target_name := target ≫= (fun n => n_props n !! "name") |}.

Definition out_rows (g : Graph) (i : nat) : list PathRow :=
  row_of g <$> List.filter (fun e => (e_src e =? i)%nat) (g_edges g).

(** [MATCH path = (c:Company {ticker: $ticker})-[r]->(target)
     RETURN type(r), labels(target)[0], target.name LIMIT 10] *)
Definition paths (ticker : pyval) (g : Graph) : list PathRow :=
  take 10
    (flat_map (out_rows g)
       (positions (fun n => has_label "Company" n && prop_is "ticker" ticker n) g)).

(** A label or relationship type is spliced into the text of the query.
    When it is a plain identifier (letters of a-z and A-Z, digits and
    underscores, not starting with a digit) the text is the upsert below;
    what any other text means is for the server to say. *)
Definition ident_start (c : ascii) : bool :=
  let n := nat_of_ascii c in
  ((65 <=? n)%nat && (n <=? 90)%nat) || ((97 <=? n)%nat && (n <=? 122)%nat)
  || (n =? 95)%nat.

Definition ident_part (c : ascii) : bool :=
  let n := nat_of_ascii c in
  ident_start c || ((48 <=? n)%nat && (n <=? 57)%nat).

Definition name_ok (s : string) : bool :=
  match s with
  | EmptyString => false
  | String c s' => ident_start c && PyStr.all_chars ident_part s'
  end.

(** The relationship type as a plain identifier, when it is one. *)
Definition plain_name (t : PyStr.wide) : option string :=
  match PyStr.narrow t with
  | Some s => if name_ok s then Some s else None
  | None => None
  end.

Definition node_matches (label name : string) (n : Node) : bool :=
  has_label label n && prop_is "name" (VStr name) n.

(** [SET e.source = $source, e.updated_at = datetime()] *)
Definition stamp_node (source : string) (now : Z) (n : Node) : Node :=
  {| n_labels := n_labels n;
     n_props := <["updated_at" := VNum (NInt now)]>
                  (<["source" := VStr source]> (n_props n)) |}.

(** [MERGE (e:label {name: $name}) SET e.source = $source,
    e.updated_at = datetime()]: the nodes that match are kept, a node is
    created only when none matches, and all of them are stamped. *)
Definition merge_node (label name source : string) (now : Z) (g : Graph) : Graph :=
  let nodes :=
    if existsb (node_matches label name) (g_nodes g) then g_nodes g
    else (g_nodes g ++ [ {| n_labels := [label];
                            n_props := {[ "name" := VStr name ]} |} ]) in
  {| g_nodes := (fun n => if node_matches label name n
                          then stamp_node source now n else n) <$> nodes;
     g_edges := g_edges g |}.

Definition edge_matches (i : nat) (reltype : string) (j : nat) (e : Edge) : bool :=
  (e_src e =? i)%nat && String.eqb (e_type e) reltype && (e_dst e =? j)%nat.

(** [SET r.updated_at = datetime()] *)
Definition stamp_edge (now : Z) (e : Edge) : Edge :=
  {| e_src := e_src e; e_type := e_type e; e_dst := e_dst e;
     e_props := <["updated_at" := VNum (NInt now)]> (e_props e) |}.

(** [MERGE (s)-[r:reltype]->(t) SET r.updated_at = datetime()] for one
    pair of bound end points. *)
Definition merge_edge_between (reltype : string) (now : Z)
    (es : list Edge) (ij : nat * nat) : list Edge :=
  let es' :=
    if existsb (edge_matches ij.1 reltype ij.2) es then es
    else (es ++ [ {| e_src := ij.1; e_type := reltype; e_dst := ij.2;
                     e_props := ∅ |} ]) in
  (fun e => if edge_matches ij.1 reltype ij.2 e then stamp_edge now e else e) <$> es'.

(** [MATCH (s {name: $source}) MATCH (t {name: $target})
     MERGE (s)-[r:reltype]->(t) SET r.updated_at = datetime()]: every
    pair of a node named [source] and a node named [target], whatever
    their labels. *)
Definition merge_edge (reltype source target : string) (now : Z) (g : Graph) : Graph :=
  let pairs :=
    list_prod (positions (prop_is "name" (VStr source)) g)
              (positions (prop_is "name" (VStr target)) g) in
  {| g_nodes := g_nodes g;
     g_edges := fold_left (merge_edge_between reltype now) pairs (g_edges g) |}.

End Cypher.

(** ** The world: services, faults and the call log *)

Inductive exn := Exn (msg : string).

(** [str(e)] *)
Definition exn_str (e : exn) : string := match e with Exn msg => msg end.

(** [type(v).__name__] of a value read from JSON. *)
Definition json_type_name (v : json) : string :=
  match v with
  | JNull => "NoneType"
  | JBool _ => "bool"
  | JInt _ => "int"
  | JFloat _ => "float"
  | JStr _ => "str"
  | JList _ => "list"
  | JDict _ => "dict"
  end.

(** The [AttributeError] of [v.upper()] on a value that is not a string. *)
Definition no_upper (v : json) : exn :=
  Exn ("'" +:+ json_type_name v +:+ "' object has no attribute 'upper'").

(** A call that leaves the agent. *)
Inductive Call :=
| CallSearch (query : string) (n_results : Z)
| CallSession
| CallProbe (keyword : string)
| CallPaths (ticker : pyval)
| CallMergeNode (label name source : string)
| CallMergeEdge (reltype : PyStr.wide) (source target : string)
| CallGenerate (model prompt : string).

(** [w_fault k = Some msg]: the call number [k] (counted from 0 over the
    whole log) raises an exception with message [msg]. [w_clock] is what
    [datetime()] reads. [w_foreign c now g] is what the server makes of an
    upsert whose label or relationship type is not a plain identifier:
    [None] when it rejects the text of the query, the graph it leaves
    when it runs it. *)
Record World := {
  w_graph : Graph;
  w_clock : Z;
  w_search : string -> Z -> SearchResult;
  w_generate : string -> string -> string;
  w_foreign : Call -> Z -> Graph -> option Graph;
  w_fault : nat -> option string;
  w_log : list Call }.

Inductive outcome (A : Type) :=
| Ok (a : A)
| Raise (e : exn).
Arguments Ok {A} a.
Arguments Raise {A} e.

(** State and exceptions. *)
Definition M (A : Type) : Type := World -> outcome A * World.

#[global] Instance M_ret : MRet M := fun A a w => (Ok a, w).

#[global] Instance M_bind : MBind M := fun A B k m w =>
  match m w with
  | (Ok a, w') => k a w'
  | (Raise e, w') => (Raise e, w')
  end.

Definition raise {A} (e : exn) : M A := fun w => (Raise e, w).

(** [try: m except Exception as e: h e] *)
Definition try_except {A} (m : M A) (h : exn -> M A) : M A := fun w =>
  match m w with
  | (Ok a, w') => (Ok a, w')
  | (Raise e, w') => h e w'
  end.

Definition reads {A} (f : World -> A) : M A := fun w => (Ok (f w), w).

Definition with_graph (g : Graph) (w : World) : World :=
  {| w_graph := g; w_clock := w_clock w; w_search := w_search w;
     w_generate := w_generate w; w_foreign := w_foreign w;
     w_fault := w_fault w; w_log := w_log w |}.

Definition set_graph (g : Graph) : M unit := fun w => (Ok tt, with_graph g w).

(** Log the call, let the clock advance, and fail if a fault is due. *)
Definition call (c : Call) : M unit := fun w =>
  let w' := {| w_graph := w_graph w; w_clock := (w_clock w + 1)%Z;
               w_search := w_search w; w_generate := w_generate w;
               w_foreign := w_foreign w;
               w_fault := w_fault w; w_log := (w_log w ++ [c]) |} in
  match w_fault w (length (w_log w)) with
  | Some msg => (Raise (Exn msg), w')
  | None => (Ok tt, w')
  end.

(** Code that touches no service can raise too. *)
#[global] Instance outcome_ret : MRet outcome := fun A a => Ok a.

#[global] Instance outcome_bind : MBind outcome := fun A B k o =>
  match o with
  | Ok a => k a
  | Raise e => Raise e
  end.

(** The outcome of a step that leaves the world alone. *)
Definition lift {A} (o : outcome A) : M A := fun w => (o, w).

(** [for x in xs: s = body x s] *)
Fixpoint for_each {A S} (body : A -> S -> M S) (xs : list A) (s : S) : M S :=
  match xs with
  | [] => mret s
  | x :: xs' => s' ← body x s; for_each body xs' s'
  end.

(** *** The services *)

(** [self.vector_store.search(query=..., n_results=...)] *)
Definition vector_store_search (query : string) (n_results : Z) : M SearchResult :=
  call (CallSearch query n_results);;
  reads (fun w => w_search w query n_results).

(** [self.driver.session()] *)
Definition driver_session : M unit := call CallSession.

Definition session_run_probe (keyword : string) : M (list Props) :=
  call (CallProbe keyword);;
  reads (fun w => Cypher.probe keyword (w_graph w)).

Definition session_run_paths (ticker : pyval) : M (list PathRow) :=
  call (CallPaths ticker);;
  reads (fun w => Cypher.paths ticker (w_graph w)).

(** A query whose text the model does not interpret: the server rejects
    it or leaves the graph it says. *)
Definition foreign (c : Call) : M unit := fun w =>
  match w_foreign w c (w_clock w) (w_graph w) with
  | Some g => (Ok tt, with_graph g w)
  | None => (Raise (Exn "CypherSyntaxError"), w)
  end.

Definition session_run_merge_node (label name source : string) : M unit :=
  call (CallMergeNode label name source);;
  if Cypher.name_ok label
  then w ← reads id;
       set_graph (Cypher.merge_node label name source (w_clock w) (w_graph w))
  else foreign (CallMergeNode label name source).

Definition session_run_merge_edge (reltype : PyStr.wide) (source target : string)
    : M unit :=
  call (CallMergeEdge reltype source target);;
  match Cypher.plain_name reltype with
  | Some t =>
      w ← reads id;
      set_graph (Cypher.merge_edge t source target (w_clock w) (w_graph w))
  | None => foreign (CallMergeEdge reltype source target)
  end.

(** [ollama.generate(model=..., prompt=...)['response']] *)
Definition ollama_generate (model prompt : string) : M string :=
  call (CallGenerate model prompt);;
  reads (fun w => w_generate w model prompt).

(** ** The agent *)

(** [driver] is false when the connection could not be set up. *)
Record GraphRAGAgent := {
  llm_model : string;
  driver : bool }.

Definition nl : string := String (ascii_of_nat 10) EmptyString.
Definition dq : string := String (ascii_of_nat 34) EmptyString.

(** *** [_vector_search] *)

Fixpoint zip3 {A B C} (xs : list A) (ys : list B) (zs : list C) : list (A * B * C) :=
  match xs, ys, zs with
  | x :: xs', y :: ys', z :: zs' => (x, y, z) :: zip3 xs' ys' zs'
  | _, _, _ => []
  end.

(** [doc[:2000] if doc else ""] *)
Definition content_of (doc : option string) : string :=
  match doc with
  | Some d => if PyStr.truthy d then PyStr.take 2000 d else ""
  | None => ""
  end.

(** [1 - dist if dist else 0] *)
Definition relevance_of (dist : option float) : pynum :=
  match dist with
  | Some d => if float_truthy d then NFloat (PrimFloat.sub 1%float d) else NInt 0
  | None => NInt 0
  end.

Definition hit_to_evidence (hit : option string * Meta * option float) : Evidence :=
  let '(doc, meta, dist) := hit in
  {| ev_content := Some (content_of doc);
     ev_metadata := Some meta;
     ev_relevance := Some (relevance_of dist);
     ev_source_type := Some "vector" |}.

Definition _vector_search (query : string) (n_results : Z) : M (list Evidence) :=
  try_except
    (results ← vector_store_search query n_results;
     mret (fold_left (fun contexts hit => (contexts ++ [hit_to_evidence hit]))
             (zip3 (default [] (documents results))
                   (default [] (metadatas results))
                   (default [] (distances results)))
             []))
    (fun _ => mret []).

(** *** [_graph_search] *)

Definition mk_entity (company : Props) : Entity :=
  {| en_type := Some "Company";
     en_data := Some company;
     en_source_type := Some "graph" |}.

Definition mk_path (ticker : pyval) (record : PathRow) : GraphPath :=
  {| gp_source := ticker;
     gp_relation := row_relation record;
     gp_target_type := row_target_type record;
     gp_target := row_target_name record |}.

(** The loop over the keywords; [entities] is the running list. *)
Fixpoint probe_keywords (keywords : list string) (entities : list Entity)
    : M (list Entity) :=
  match keywords with
  | [] => mret entities
  | keyword :: rest =>
      result ← session_run_probe keyword;
      probe_keywords rest
        (fold_left (fun acc company => (acc ++ [mk_entity company]))
           result entities)
  end.

(** [entities[0].get("data", {}).get("ticker")] *)
Definition first_ticker (entities : list Entity) : option pyval :=
  match entities with
  | [] => None
  | e0 :: _ => default ∅ (en_data e0) !! "ticker"
  end.

(** The one-hop expansion, guarded by [if entities:] and [if ticker:]. *)
Definition expand_first (entities : list Entity) : M (list GraphPath) :=
  match entities with
  | [] => mret []
  | _ :: _ =>
      match first_ticker entities with
      | Some ticker =>
          if val_truthy ticker
          then path_result ← session_run_paths ticker;
               mret (fold_left (fun paths record => (paths ++ [mk_path ticker record]))
                       path_result [])
          else mret []
      | None => mret []
      end
  end.

(** The body of the [try] block. *)
Definition graph_search_body (query : string) : M (list Entity * list GraphPath) :=
  driver_session;;
  entities ← probe_keywords (take 5 (_extract_keywords query)) [];
  paths ← expand_first entities;
  mret (entities, paths).

Definition _graph_search (self : GraphRAGAgent) (query : string)
    : M (list Entity * list GraphPath) :=
  if negb (driver self) then mret ([], [])
  else try_except (graph_search_body query) (fun _ => mret ([], [])).

(** *** [add_entities_to_graph] *)

Definition add_entity (source : string) (entity : EntityRec) (added_entities : nat)
    : M nat :=
  let entity_type := default "Entity" (er_type entity) in
  let entity_name := default "" (er_name entity) in
  if negb (PyStr.truthy entity_name) then mret added_entities
  else try_except
         (session_run_merge_node entity_type entity_name source;;
          mret (S added_entities))
         (fun _ => mret added_entities).

(** [v.upper()]: only a string has the method. *)
Definition str_upper (v : json) : M PyStr.wide :=
  match v with
  | JStr s => mret (PyStr.upper s)
  | _ => raise (no_upper v)
  end.

Definition add_relation (rel : RelationRec) (added_relations : nat) : M nat :=
  let source_name := default "" (rr_source rel) in
  let target_name := default "" (rr_target rel) in
  let relation_type := default (JStr "RELATED_TO") (rr_relation rel) in
  if negb (PyStr.truthy source_name) || negb (PyStr.truthy target_name)
  then mret added_relations
  else
    relation_type ← str_upper relation_type;
    let relation_type := PyStr.replace_code 32 95 relation_type in
    try_except
      (session_run_merge_edge relation_type source_name target_name;;
       mret (S added_relations))
      (fun _ => mret added_relations).

Definition add_extraction (result : Extraction) (added : nat * nat) : M (nat * nat) :=
  let source := default "unknown" (ex_source result) in
  added_entities ← for_each (add_entity source) (default [] (ex_entities result)) added.1;
  added_relations ← for_each add_relation (default [] (ex_relations result)) added.2;
  mret (added_entities, added_relations).

Definition not_connected : string :=
  "Neo4j non connect" +:+ String (ascii_of_nat 233) EmptyString.

Definition add_entities_to_graph (self : GraphRAGAgent)
    (extraction_results : list Extraction) : M IngestStats :=
  if negb (driver self) then mret (IngestError not_connected)
  else
    driver_session;;
    added ← for_each add_extraction extraction_results (0, 0);
    mret (IngestCounts added.1 added.2).

(** *** Context assembly, synthesis and the top-level operation *)

Section Synthesis.

(** Three builtins of the host language are taken as given:
    [round(x, 3)] on a float, [str(x)] on a float, and
    [format(x, ",.0f")] on a number. *)
Variable round3 : float -> float.
Variable str_of_float : float -> string.
Variable format_money : pynum -> string.

(** [str(v)], as an f-string renders a value. *)
Definition str_of (v : pyval) : string :=
  match v with
  | VStr s => s
  | VNum (NInt z) => pretty z
  | VNum (NFloat f) => str_of_float f
  | VBool true => "True"
  | VBool false => "False"
  end.

(** [str(data.get(k, dflt))] *)
Definition get_str (data : Props) (k dflt : string) : string :=
  match data !! k with
  | Some v => str_of v
  | None => dflt
  end.

Definition DOCUMENT_HEADER : string := "=== DOCUMENT CONTEXT ===".

Definition GRAPH_HEADER : string :=
  nl +:+ nl +:+ "=== KNOWLEDGE GRAPH CONTEXT ===".

(** The two parts appended for the [i]-th item of the vector context. *)
Definition vector_item_parts (i : nat) (ctx : Evidence) : list string :=
  let meta := default ∅ (ev_metadata ctx) in
  let source := default (default "unknown" (meta !! "section")) (meta !! "ticker") in
  [ nl +:+ "[Source " +:+ pretty i +:+ ": " +:+ source +:+ "]";
    PyStr.take 1500 (default "" (ev_content ctx)) ].

(** [for i, ctx in enumerate(vector_context, i0)] *)
Fixpoint vector_loop (i : nat) (vector_context : list Evidence)
    (parts : list string) : list string :=
  match vector_context with
  | [] => parts
  | ctx :: rest => vector_loop (S i) rest (parts ++ vector_item_parts i ctx)
  end.

(** [type(v).__name__] *)
Definition type_name (v : pyval) : string :=
  match v with
  | VStr _ => "str"
  | VNum (NInt _) => "int"
  | VNum (NFloat _) => "float"
  | VBool _ => "bool"
  end.

(** [v[:n]]: a string is cut, any other value raises [TypeError]. *)
Definition slice_to (n : nat) (v : pyval) : outcome string :=
  match v with
  | VStr s => Ok (PyStr.take n s)
  | _ => Raise (Exn ("'" +:+ type_name v +:+ "' object is not subscriptable"))
  end.

(** [f"{v:,.0f}"]: a number is formatted, a bool as the int it is, and a
    string raises [ValueError]. *)
Definition money (v : pyval) : outcome string :=
  match v with
  | VNum n => Ok (format_money n)
  | VBool b => Ok (format_money (NInt (if b then 1 else 0)))
  | VStr _ => Raise (Exn "Unknown format code 'f' for object of type 'str'")
  end.

(** [if data.get(k): parts.append(f"{label}{render(data.get(k))}")]: what
    the statement appends. *)
Definition optional_part (data : Props) (k label : string)
    (render : pyval -> outcome string) : outcome (list string) :=
  match data !! k with
  | Some v =>
      if val_truthy v
      then text ← render v; mret [ label +:+ text ]
      else mret []
  | None => mret []
  end.

(** The parts appended for one graph entity. *)
Definition entity_parts (entity : Entity) : outcome (list string) :=
  let data := default ∅ (en_data entity) in
  match en_type entity with
  | Some ty =>
      if String.eqb ty "Company"
      then
        let head :=
          [ nl +:+ "Company: " +:+ get_str data "name" "N/A";
            "  Ticker: " +:+ get_str data "ticker" "N/A";
            "  Sector: " +:+ get_str data "sector" "N/A";
            "  Industry: " +:+ get_str data "industry" "N/A" ] in
        description ← optional_part data "description" "  Description: "
                        (slice_to 500);
        market_cap ← optional_part data "market_cap" "  Market Cap: $" money;
        revenue ← optional_part data "revenue" "  Revenue: $" money;
        mret (head ++ description ++ market_cap ++ revenue)
      else mret []
  | None => mret []
  end.

(** [for entity in graph_context[:5]] *)
Fixpoint entity_loop (graph_context : list Entity) (parts : list string)
    : outcome (list string) :=
  match graph_context with
  | [] => mret parts
  | entity :: rest =>
      added ← entity_parts entity;
      entity_loop rest (parts ++ added)
  end.

Definition build_parts (vector_context : list Evidence)
    (graph_context : list Entity) : outcome (list string) :=
  let parts := [] in
  let parts :=
    match vector_context with
    | [] => parts
    | _ :: _ => vector_loop 1 vector_context (parts ++ [DOCUMENT_HEADER])
    end in
  match graph_context with
  | [] => mret parts
  | _ :: _ => entity_loop (take 5 graph_context) (parts ++ [GRAPH_HEADER])
  end.

Definition _build_context (vector_context : list Evidence)
    (graph_context : list Entity) : outcome string :=
  parts ← build_parts vector_context graph_context;
  mret (PyStr.join nl parts).

Definition REFUSAL : string :=
  "I don't have enough information to answer this question. Please ingest some documents first.".

Definition make_prompt (question context : string) : string :=
  "You are a helpful assistant answering questions based on the provided context." +:+ nl
  +:+ "Use ONLY the information from the context below to answer. If the context doesn't contain" +:+ nl
  +:+ "enough information, say so clearly." +:+ nl
  +:+ nl
  +:+ "CONTEXT:" +:+ nl
  +:+ PyStr.take 6000 context +:+ nl
  +:+ nl
  +:+ "QUESTION: " +:+ question +:+ nl
  +:+ nl
  +:+ "Instructions:" +:+ nl
  +:+ "1. Answer the question directly and concisely" +:+ nl
  +:+ "2. Reference specific sources when possible (e.g., " +:+ dq
  +:+ "According to [Source 1]..." +:+ dq +:+ ")" +:+ nl
  +:+ "3. If multiple sources agree, mention that" +:+ nl
  +:+ "4. If you're uncertain, express that uncertainty" +:+ nl
  +:+ "5. Keep the answer focused and relevant" +:+ nl
  +:+ nl
  +:+ "ANSWER:".

(** [round(x, 3)]: an int is returned as it is. *)
Definition py_round3 (x : pynum) : pynum :=
  match x with
  | NInt z => NInt z
  | NFloat f => NFloat (round3 f)
  end.

Definition mk_citation (meta : Meta) (ctx : Evidence) : Citation :=
  {| cit_source := default "Unknown" (meta !! "ticker");
     cit_section := default "document" (meta !! "section");
     cit_url := default "" (meta !! "url");
     cit_relevance := py_round3 (default (NInt 0) (ev_relevance ctx)) |}.

(** A dict is truthy when it is not empty. *)
Definition meta_truthy (meta : Meta) : bool := bool_decide (meta ≠ ∅).

(** One turn of the citation loop. *)
Definition cite_step (citations : list Citation) (ctx : Evidence) : list Citation :=
  let meta := default ∅ (ev_metadata ctx) in
  if meta_truthy meta then (citations ++ [mk_citation meta ctx])
  else citations.

Definition _generate_answer (self : GraphRAGAgent) (question context : string)
    (vector_results : list Evidence) : M (string * list Citation) :=
  if negb (PyStr.truthy (PyStr.strip context)) then mret (REFUSAL, [])
  else
    let prompt := make_prompt question context in
    try_except
      (response ← ollama_generate (llm_model self) prompt;
       let answer := PyStr.strip response in
       let citations := fold_left cite_step vector_results [] in
       mret (answer, citations))
      (fun e => mret ("Error generating answer: " +:+ exn_str e, [])).

Definition answer (self : GraphRAGAgent) (question : string)
    (n_vector_results : Z) (include_graph : bool) : M AnswerResult :=
  vector_context ← _vector_search question n_vector_results;
  graph ← (if include_graph && driver self
           then _graph_search self question
           else mret ([], []));
  full_context ← lift (_build_context vector_context graph.1);
  generated ← _generate_answer self question full_context vector_context;
  mret {| ar_question := question;
          ar_answer := generated.1;
          ar_citations := generated.2;
          ar_graph_paths := graph.2;
          ar_sources := {| vector_results := length vector_context;
                           graph_entities := length graph.1 |} |}.

End Synthesis.

(** ** Reference formulations *)

(** Delete every character of [s] that occurs in [cs]. *)
Fixpoint delete_chars (cs : list ascii) (s : string) : string :=
  match s with
  | EmptyString => EmptyString
  | String a s' =>
      if existsb (Ascii.eqb a) cs then delete_chars cs s'
      else String a (delete_chars cs s')
  end.

(** The tokens of a question: lowercase, delete the question marks and the
    commas, split on whitespace. *)
Definition tokens (question : string) : list string :=
  PyStr.split (delete_chars ["?"%char; ","%char] (PyStr.lower question)).

(** Keyword extraction as the specification words it: the tokens that are
    not stopwords and are longer than two characters. *)
Definition extract_keywords_spec (question : string) : list string :=
  filter (fun w => (w ∉ stopwords) ∧ (2 < String.length w)) (tokens question).

(** The calls made between two states of the world. *)
Definition new_calls (w w' : World) : list Call :=
  drop (length (w_log w)) (w_log w').

(** A fault was due for one of the calls made between [w] and [w']. *)
Definition faulted (w w' : World) : Prop :=
  ∃ k, length (w_log w) ≤ k < length (w_log w') ∧ w_fault w k ≠ None.

(** No call made from [w] on ever fails. *)
Definition fault_free (w : World) : Prop :=
  ∀ k, length (w_log w) ≤ k → w_fault w k = None.

(** The world after the calls [calls] have been logged. *)
Definition advance (calls : list Call) (w : World) : World :=
  {| w_graph := w_graph w;
     w_clock := (w_clock w + Z.of_nat (length calls))%Z;
     w_search := w_search w;
     w_generate := w_generate w;
     w_foreign := w_foreign w;
     w_fault := w_fault w;
     w_log := w_log w ++ calls |}.

(** [performs m w calls a]: run from [w], the computation [m] makes the
    calls [calls] in this order and returns [a], unless a fault is due for
    one of them; it then stops at the first such call and raises its
    exception. Nothing but the log and the clock changes. *)
Definition performs {A} (m : M A) (w : World) (calls : list Call) (a : A) : Prop :=
  ((∀ k, k < length calls → w_fault w (length (w_log w) + k) = None)
   ∧ m w = (Ok a, advance calls w))
  ∨ (∃ k msg,
       k < length calls
       ∧ w_fault w (length (w_log w) + k) = Some msg
       ∧ (∀ j, j < k → w_fault w (length (w_log w) + j) = None)
       ∧ m w = (Raise (Exn msg), advance (take (S k) calls) w)).

(** The entities the keyword probes of a question match in a graph: for
    each of the first five keywords, in order, at most three companies. *)
Definition matched_entities (g : Graph) (question : string) : list Entity :=
  flat_map (fun keyword => mk_entity <$> Cypher.probe keyword g)
    (take 5 (_extract_keywords question)).

(** The primary key of an entity: its ticker, when it has one that is not
    empty. *)
Definition ticker_of (e : Entity) : option pyval :=
  match default ∅ (en_data e) !! "ticker" with
  | Some ticker => if val_truthy ticker then Some ticker else None
  | None => None
  end.

(** The primary key of the anchor, the first of the matched entities. *)
Definition anchor_key (entities : list Entity) : option pyval :=
  head entities ≫= ticker_of.

(** The one-hop queries graph search issues for a list of matched entities. *)
Definition anchor_calls (entities : list Entity) : list Call :=
  match anchor_key entities with
  | Some ticker => [CallPaths ticker]
  | None => []
  end.

(** The paths graph search returns for a list of matched entities. *)
Definition anchor_paths (g : Graph) (entities : list Entity) : list GraphPath :=
  match anchor_key entities with
  | Some ticker => mk_path ticker <$> Cypher.paths ticker g
  | None => []
  end.

Definition is_paths_call (c : Call) : bool :=
  match c with CallPaths _ => true | _ => false end.

Definition is_generate_call (c : Call) : bool :=
  match c with CallGenerate _ _ => true | _ => false end.


(** The number of nodes with label [label] whose name is [name]. *)
Definition count_nodes (label name : string) (g : Graph) : nat :=
  length (List.filter (Cypher.node_matches label name) (g_nodes g)).

(** The calls of a whole graph search, when nothing fails. *)
Definition search_calls (g : Graph) (question : string) : list Call :=
  CallSession
    :: (CallProbe <$> take 5 (_extract_keywords question))
    ++ anchor_calls (matched_entities g question).

(** The metadata of an evidence item, [{}] when the key is absent. *)
Definition metadata_of (ctx : Evidence) : Meta := default ∅ (ev_metadata ctx).

(** The citation list as the specification words it: one citation for each
    evidence item whose metadata is not empty, in the order of the
    evidence. *)
Definition citations_spec (round3 : float -> float)
    (vector_results : list Evidence) : list Citation :=
  (fun ctx =>
     {| cit_source := default "Unknown" (metadata_of ctx !! "ticker");
        cit_section := default "document" (metadata_of ctx !! "section");
        cit_url := default "" (metadata_of ctx !! "url");
        cit_relevance :=
          match default (NInt 0) (ev_relevance ctx) with
          | NInt z => NInt z
          | NFloat f => NFloat (round3 f)
          end |})
  <$> filter (fun ctx => metadata_of ctx ≠ ∅) vector_results.

(** The characters below U+0100 that have an upper case of their own, each
    with the code points of that upper case: a-z, the micro sign, the
    sharp s, and the lower-case letters of U+00E0..U+00FF. *)
Definition upper_table : list (N * list N) :=
  [ (97, [65]); (98, [66]); (99, [67]); (100, [68]); (101, [69]); (102, [70]);
    (103, [71]); (104, [72]); (105, [73]); (106, [74]); (107, [75]);
    (108, [76]); (109, [77]); (110, [78]); (111, [79]); (112, [80]);
    (113, [81]); (114, [82]); (115, [83]); (116, [84]); (117, [85]);
    (118, [86]); (119, [87]); (120, [88]); (121, [89]); (122, [90]);
    (181, [924]); (223, [83; 83]);
    (224, [192]); (225, [193]); (226, [194]); (227, [195]); (228, [196]);
    (229, [197]); (230, [198]); (231, [199]); (232, [200]); (233, [201]);
    (234, [202]); (235, [203]); (236, [204]); (237, [205]); (238, [206]);
    (239, [207]); (240, [208]); (241, [209]); (242, [210]); (243, [211]);
    (244, [212]); (245, [213]); (246, [214]); (248, [216]); (249, [217]);
    (250, [218]); (251, [219]); (252, [220]); (253, [221]); (254, [222]);
    (255, [376]) ]%N.

(** The upper case of one code point, read off the table; a code point
    that is not in the table is its own upper case. *)
Definition upper_of (c : N) : list N :=
  match List.find (fun entry => (entry.1 =? c)%N) upper_table with
  | Some entry => entry.2
  | None => [c]
  end.

(** A label as the specification normalises it: every character in upper
    case, every space turned into an underscore. *)
Definition normalized (label : string) : PyStr.wide :=
  flat_map (fun c => if (c =? 32)%N then [95%N] else upper_of c)
    (PyStr.widen label).

(** The relationship type of a relation record as the specification words
    it: RELATED_TO when the label is absent, else the label normalised. *)
Definition relation_type_spec (rel : RelationRec) : PyStr.wide :=
  match rr_relation rel with
  | None => PyStr.widen "RELATED_TO"
  | Some (JStr label) => normalized label
  | Some _ => []
  end.

(** The label of the record is a string, or there is none. *)
Definition string_label (rel : RelationRec) : bool :=
  match rr_relation rel with
  | Some (JStr _) | None => true
  | Some _ => false
  end.

(** A relation record with a non-empty source name and target name. *)
Definition named_relation (rel : RelationRec) : bool :=
  PyStr.truthy (default "" (rr_source rel))
  && PyStr.truthy (default "" (rr_target rel)).


(** An entity record with a non-empty name. *)
Definition named_entity (entity : EntityRec) : bool :=
  PyStr.truthy (default "" (er_name entity)).



Definition is_plain (t : PyStr.wide) : bool :=
  match Cypher.plain_name t with Some _ => true | None => false end.

(** An entity record with a name whose label is a plain identifier. *)
Definition plain_entity (entity : EntityRec) : bool :=
  named_entity entity && Cypher.name_ok (default "Entity" (er_type entity)).

(** A relation record with both end points whose label is a string, or
    absent, and gives a relationship type that is a plain identifier. *)
Definition plain_relation (rel : RelationRec) : bool :=
  named_relation rel && string_label rel && is_plain (relation_type_spec rel).

(** The numbers of such records in a batch. *)
Definition plain_entities (extraction_results : list Extraction) : nat :=
  length (flat_map (fun result =>
                      List.filter plain_entity (default [] (ex_entities result)))
            extraction_results).

Definition plain_relations (extraction_results : list Extraction) : nat :=
  length (flat_map (fun result =>
                      List.filter plain_relation (default [] (ex_relations result)))
            extraction_results).

(** Every relation record that reaches the upsert has a label that is a
    string, or none. *)
Definition relation_ok (rel : RelationRec) : bool :=
  negb (named_relation rel) || string_label rel.

Definition extraction_ok (result : Extraction) : bool :=
  forallb relation_ok (default [] (ex_relations result)).

Definition string_labels (extraction_results : list Extraction) : bool :=
  forallb extraction_ok extraction_results.

(** Every record that reaches an upsert does so with a plain identifier. *)
Definition plain_extraction (result : Extraction) : bool :=
  forallb (fun entity => negb (named_entity entity) || plain_entity entity)
    (default [] (ex_entities result))
  && forallb (fun rel => negb (named_relation rel) || plain_relation rel)
       (default [] (ex_relations result)).

Definition plain_batch (extraction_results : list Extraction) : bool :=
  forallb plain_extraction extraction_results.

(** A node without its last-updated marker. *)
Definition without_stamp (n : Node) : Node :=
  {| n_labels := n_labels n; n_props := delete "updated_at" (n_props n) |}.

(** A batch made of one entity. *)
Definition one_entity (source : option string) (name label : string) : list Extraction :=
  [ {| ex_source := source;
       ex_entities := Some [ {| er_name := Some name; er_type := Some label |} ];
       ex_relations := None |} ].

(** A batch made of one relation. *)
Definition one_relation (source target : string) (label : option string)
    : list Extraction :=
  [ {| ex_source := None;
       ex_entities := None;
       ex_relations := Some [ {| rr_source := Some source;
                                 rr_target := Some target;
                                 rr_relation := JStr <$> label |} ] |} ].

(** Every node named [source] has an edge of type [reltype] to every node
    named [target]. *)
Definition connected (reltype source target : string) (g : Graph) : Prop :=
  ∀ i j,
    i ∈ Cypher.positions (Cypher.prop_is "name" (VStr source)) g →
    j ∈ Cypher.positions (Cypher.prop_is "name" (VStr target)) g →
    existsb (Cypher.edge_matches i reltype j) (g_edges g) = true.


(** ** Sample data *)

Module Scenario.

Definition agent : GraphRAGAgent := {| llm_model := "llama3.2"; driver := true |}.

Definition apple : Node :=
  {| n_labels := ["Company"];
     n_props := {[ "name" := VStr "Apple Inc"; "ticker" := VStr "AAPL";
                   "sector" := VStr "Technology" ]} |}.

(** A company written by the ingestion path: a name and no ticker. *)
Definition apple_supplier : Node :=
  {| n_labels := ["Company"];
     n_props := {[ "name" := VStr "Apple Supplier Co"; "source" := VStr "report.pdf" ]} |}.

Definition technology : Node :=
  {| n_labels := ["Sector"];
     n_props := {[ "name" := VStr "Technology" ]} |}.

(** A second company that a question about Apple matches. *)
Definition pineapple : Node :=
  {| n_labels := ["Company"];
     n_props := {[ "name" := VStr "Pineapple Foods"; "ticker" := VStr "PINE" ]} |}.

Definition food : Node :=
  {| n_labels := ["Sector"];
     n_props := {[ "name" := VStr "Food" ]} |}.

(** A company whose description is a number. *)
Definition apple_numbered : Node :=
  {| n_labels := ["Company"];
     n_props := {[ "name" := VStr "Apple Inc"; "description" := VNum (NInt 5) ]} |}.

Definition graph : Graph :=
  {| g_nodes := [apple; technology];
     g_edges := [ {| e_src := 0; e_type := "OPERATES_IN"; e_dst := 1; e_props := ∅ |} ] |}.

Definition graph_two_matches : Graph :=
  {| g_nodes := [apple; pineapple; technology; food];
     g_edges := [ {| e_src := 0; e_type := "OPERATES_IN"; e_dst := 2; e_props := ∅ |};
                  {| e_src := 1; e_type := "SELLS"; e_dst := 3; e_props := ∅ |} ] |}.

Definition graph_numbered : Graph :=
  {| g_nodes := [apple_numbered]; g_edges := [] |}.

Definition graph_supplier_first : Graph :=
  {| g_nodes := [apple_supplier; apple; technology];
     g_edges := [ {| e_src := 1; e_type := "OPERATES_IN"; e_dst := 2; e_props := ∅ |} ] |}.

Definition hits : SearchResult :=
  {| documents := Some [Some "Risk factors of the company."; Some "Supply chain."];
     metadatas := Some [ {[ "ticker" := "META"; "section" := "risk_factors" ]};
                         {[ "ticker" := "META" ]} ];
     distances := Some [Some 0.125%float; Some 0.5%float] |}.

(** A store whose best hit is an exact match. *)
Definition exact_hit : SearchResult :=
  {| documents := Some [Some "Risk factors of the company."];
     metadatas := Some [ {[ "ticker" := "META" ]} ];
     distances := Some [Some 0%float] |}.

Definition world (g : Graph) (found : SearchResult) (fault : nat -> option string)
    : World :=
  {| w_graph := g;
     w_clock := 0;
     w_search := fun _ _ => found;
     w_generate := fun _ _ => "Meta faces regulatory risk [Source 1].";
     w_foreign := fun _ _ _ => None;
     w_fault := fault;
     w_log := [] |}.

Definition no_fault : nat -> option string := fun _ => None.

(** The call number [k] fails. *)
Definition fault_at (k : nat) : nat -> option string :=
  fun i => if (i =? k)%nat then Some "ServiceUnavailable" else None.

Definition evidence : list Evidence :=
  [ {| ev_content := Some "Risk factors of the company.";
       ev_metadata := Some {[ "ticker" := "META" ]};
       ev_relevance := Some (NFloat 0.875%float);
       ev_source_type := Some "vector" |} ].

Definition acme : EntityRec :=
  {| er_name := Some "Acme"; er_type := Some "Organization" |}.

Definition acme_batch : list Extraction :=
  [ {| ex_source := Some "report.pdf";
       ex_entities := Some [acme];
       ex_relations := None |} ].

(** One entity with a plain label, one whose label holds a space, and one
    relation with a label in two words. *)
Definition mixed_batch : list Extraction :=
  [ {| ex_source := Some "report.pdf";
       ex_entities :=
         Some [ acme;
                {| er_name := Some "Bolt"; er_type := Some "Public Company" |} ];
       ex_relations :=
         Some [ {| rr_source := Some "Acme"; rr_target := Some "Apple Inc";
                   rr_relation := Some (JStr "supplies to") |} ] |} ].


End Scenario.

(** ** Formulations for the rest of the agent *)

(** The evidence a search result converts to, hit by hit. *)
Definition found_evidence (w : World) (query : string) (n_results : Z)
    : list Evidence :=
  hit_to_evidence
  <$> zip3 (default [] (documents (w_search w query n_results)))
           (default [] (metadatas (w_search w query n_results)))
           (default [] (distances (w_search w query n_results))).

(** A description that can be cut: a string, or a value that is false. *)
Definition description_ok (data : Props) : bool :=
  match data !! "description" with
  | Some (VStr _) => true
  | Some v => negb (val_truthy v)
  | None => true
  end.

(** An amount that can be formatted: anything but a non-empty string. *)
Definition amount_ok (data : Props) (k : string) : bool :=
  match data !! k with
  | Some (VStr s) => negb (PyStr.truthy s)
  | _ => true
  end.

(** The properties of a company that context assembly can render. *)
Definition renders (data : Props) : bool :=
  description_ok data && amount_ok data "market_cap" && amount_ok data "revenue".

Definition entity_renders (e : Entity) : bool :=
  match en_type e with
  | Some "Company" => renders (default ∅ (en_data e))
  | _ => true
  end.

(** The first entity of the five that reach the context that cannot be
    rendered, if there is one. *)
Definition first_unrendered (graph_context : list Entity) : option Entity :=
  List.find (fun e => negb (entity_renders e)) (take 5 graph_context).

(** The parts of the document zone and of the graph zone of the context. *)
Definition vector_zone (vector_context : list Evidence) : list string :=
  match vector_context with
  | [] => []
  | _ :: _ => DOCUMENT_HEADER :: vector_loop 1 vector_context []
  end.

Definition graph_zone (str_of_float : float -> string)
    (format_money : pynum -> string) (graph_context : list Entity)
    : outcome (list string) :=
  match graph_context with
  | [] => Ok []
  | _ :: _ =>
      match entity_loop str_of_float format_money (take 5 graph_context) [] with
      | Ok rest => Ok (GRAPH_HEADER :: rest)
      | Raise e => Raise e
      end
  end.

Definition is_probe_call (c : Call) : bool :=
  match c with CallProbe _ => true | _ => false end.

(** The calls that reach the graph store. *)
Definition is_graph_call (c : Call) : bool :=
  match c with
  | CallSession | CallProbe _ | CallPaths _
  | CallMergeNode _ _ _ | CallMergeEdge _ _ _ => true
  | _ => false
  end.

(** The calls that read from the graph store. *)
Definition is_read_call (c : Call) : bool :=
  match c with
  | CallSession | CallProbe _ | CallPaths _ => true
  | _ => false
  end.

(** The calls that write to the graph store. *)
Definition is_write_call (c : Call) : bool :=
  match c with
  | CallMergeNode _ _ _ | CallMergeEdge _ _ _ => true
  | _ => false
  end.

(** What identifies a node and an edge, whatever their other properties. *)
Definition node_key (n : Node) : list string * option pyval :=
  (n_labels n, n_props n !! "name").

Definition edge_key (e : Edge) : nat * string * nat :=
  (e_src e, e_type e, e_dst e).

(** [g'] has all the nodes and edges of [g], at the same positions. *)
Definition extends (g g' : Graph) : Prop :=
  (node_key <$> g_nodes g) `prefix_of` (node_key <$> g_nodes g')
  ∧ (edge_key <$> g_edges g) `prefix_of` (edge_key <$> g_edges g').

(** A character that is neither a question mark nor a comma. *)
Definition plain_char (c : ascii) : bool :=
  negb (existsb (Ascii.eqb c) ["?"%char; ","%char]).

(** A character that [lower] leaves as it is. *)
Definition lower_fixed (c : ascii) : bool := Ascii.eqb (PyStr.lower_char c) c.

Definition not_space (c : ascii) : bool := negb (PyStr.isspace c).

(** A computation that, whatever fails, only extends the graph. *)
Definition grows {A} (m : M A) : Prop :=
  ∀ w, extends (w_graph w) (w_graph (m w).2).

(** The number of records of a batch that have a name, and of relations
    that have both end points. *)
Definition named_entities (extraction_results : list Extraction) : nat :=
  length (flat_map (fun result =>
                      List.filter named_entity (default [] (ex_entities result)))
            extraction_results).

Definition named_relations (extraction_results : list Extraction) : nat :=
  length (flat_map (fun result =>
                      List.filter named_relation (default [] (ex_relations result)))
            extraction_results).

(** ** The HTTP layer ([app/api.py]) *)

(** [clean_nan]: dicts and lists are rebuilt, a float that is a NaN or an
    infinity becomes [None], anything else is returned as it is. *)
Fixpoint clean_nan (data : json) : json :=
  match data with
  | JDict fields =>
      JDict (List.map (fun '(key, value) => (key, clean_nan value)) fields)
  | JList items => JList (List.map clean_nan items)
  | JFloat f =>
      if PrimFloat.is_nan f || PrimFloat.is_infinity f then JNull else JFloat f
  | _ => data
  end.

(** No float of the value is a NaN or an infinity. *)
Fixpoint finite_json (data : json) : bool :=
  match data with
  | JDict fields => forallb (fun '(_, value) => finite_json value) fields
  | JList items => forallb finite_json items
  | JFloat f => negb (PrimFloat.is_nan f || PrimFloat.is_infinity f)
  | _ => true
  end.









Section Api.

Variable round3 : float -> float.
Variable str_of_float : float -> string.
Variable format_money : pynum -> string.

(** The agent the endpoints share. *)
Variable graphrag_agent : GraphRAGAgent.


End Api.

(** ** Reading the reply of the extraction model
    ([app/entity_extraction_agent.py]) *)

(** No character of [s] is [c]. *)
Definition lacks (c : ascii) (s : string) : bool :=
  PyStr.all_chars (fun a => negb (Ascii.eqb a c)) s.

(** The suffix of [s] that starts at the first [c]. *)
Fixpoint from_first (c : ascii) (s : string) : option string :=
  match s with
  | EmptyString => None
  | String a s' => if Ascii.eqb a c then Some s else from_first c s'
  end.

(** The prefix of [s] that ends at the last [c]. *)
Definition upto_last (c : ascii) (s : string) : option string :=
  PyStr.rev <$> from_first c (PyStr.rev s).

(** [re.search(r'\{[\s\S]*\}', text)]: the leftmost, longest match runs
    from the first opening brace to the last closing brace after it. *)
Definition brace_block (text : string) : option string :=
  from_first "{" text ≫= upto_last "}".

Definition EMPTY_EXTRACTION : json :=
  JDict [ ("entities", JList []); ("relations", JList []) ].

Section ParseJson.

(** [json.loads]; [None] stands for [JSONDecodeError]. *)
Variable json_loads : string -> option json.

Definition _parse_json_response (text : string) : json :=
  match json_loads text with
  | Some value => value
  | None =>
      match brace_block text with
      | Some block =>
          match json_loads block with
          | Some value => value
          | None => EMPTY_EXTRACTION
          end
      | None => EMPTY_EXTRACTION
      end
  end.

End ParseJson.

(** ** Strings *)

Lemma str_length_take n s :
  String.length (PyStr.take n s) = Nat.min n (String.length s).
Proof.
  revert s; induction n as [|n IH]; intros [|c s]; simpl; auto.
Qed.

Lemma append_cons c s t : String c s +:+ t = String c (s +:+ t).
Proof. reflexivity. Qed.

Lemma append_empty_l s : "" +:+ s = s.
Proof. reflexivity. Qed.

Lemma append_assoc s t u : (s +:+ t) +:+ u = s +:+ (t +:+ u).
Proof.
  induction s as [|c s IH]; [done |]. by rewrite !append_cons, IH.
Qed.

Lemma str_take_drop n s : PyStr.take n s +:+ PyStr.drop n s = s.
Proof.
  revert s; induction n as [|n IH]; intros [|c s]; simpl; auto.
  by rewrite append_cons, IH.
Qed.

Lemma str_take_take n m s :
  PyStr.take n (PyStr.take m s) = PyStr.take (Nat.min n m) s.
Proof.
  revert m s; induction n as [|n IH]; intros [|m] [|c s]; simpl; auto.
  by rewrite IH.
Qed.

Lemma str_take_all n s : String.length s ≤ n → PyStr.take n s = s.
Proof.
  revert s; induction n as [|n IH]; intros [|c s]; simpl; intros H; auto; try lia.
  rewrite IH; [done | lia].
Qed.

Lemma lstrip_blank s :
  PyStr.all_chars PyStr.isspace s = true → PyStr.lstrip s = "".
Proof.
  induction s as [|c s IH]; simpl; [done |].
  intros [Hc Hs]%andb_true_iff. rewrite Hc. auto.
Qed.

Lemma lstrip_empty_inv s :
  PyStr.lstrip s = "" → PyStr.all_chars PyStr.isspace s = true.
Proof.
  induction s as [|c s IH]; simpl; [done |].
  destruct (PyStr.isspace c); [auto | discriminate].
Qed.

Lemma length_rev_onto s acc :
  String.length (PyStr.rev_onto s acc) = String.length s + String.length acc.
Proof.
  revert acc; induction s as [|c s IH]; intros acc; simpl; [done |].
  rewrite IH. simpl. lia.
Qed.

Lemma all_chars_rev_onto p s acc :
  PyStr.all_chars p (PyStr.rev_onto s acc)
  = PyStr.all_chars p s && PyStr.all_chars p acc.
Proof.
  revert acc; induction s as [|c s IH]; intros acc; simpl; [done |].
  rewrite IH. simpl. destruct (p c), (PyStr.all_chars p s); simpl; auto.
Qed.

Lemma length_zero_empty s : String.length s = 0 → s = "".
Proof. by destruct s. Qed.

(** [not context.strip()] holds exactly for the strings made of whitespace. *)
Lemma strip_blank_iff s :
  PyStr.strip s = "" ↔ PyStr.all_chars PyStr.isspace s = true.
Proof.
  unfold PyStr.strip, PyStr.rstrip, PyStr.rev. split.
  - intros H. apply lstrip_empty_inv.
    apply (f_equal String.length) in H. rewrite length_rev_onto in H. simpl in H.
    assert (Hl : PyStr.lstrip (PyStr.rev_onto (PyStr.lstrip s) "") = "")
      by (apply length_zero_empty; lia).
    apply lstrip_empty_inv in Hl. rewrite all_chars_rev_onto in Hl.
    apply andb_true_iff in Hl as [Hl _]. clear H.
    induction s as [|c s IH]; simpl in *; [done |].
    destruct (PyStr.isspace c) eqn:Hc; [auto |].
    simpl in Hl. rewrite Hc in Hl. discriminate.
  - intros H. by rewrite (lstrip_blank _ H).
Qed.

Lemma rev_onto_nonempty s acc : acc ≠ "" → PyStr.rev_onto s acc ≠ "".
Proof.
  revert acc; induction s as [|c s IH]; intros acc Hacc; simpl; [done |].
  by apply IH.
Qed.

(** The tokens of [split] are not empty and hold no whitespace. *)
Lemma split_from_tokens cur s w :
  PyStr.all_chars (fun c => negb (PyStr.isspace c)) cur = true →
  w ∈ PyStr.split_from cur s →
  w ≠ "" ∧ PyStr.all_chars (fun c => negb (PyStr.isspace c)) w = true.
Proof.
  assert (Hrev : ∀ cur, cur ≠ "" →
            PyStr.all_chars (fun c => negb (PyStr.isspace c)) cur = true →
            PyStr.rev cur ≠ ""
            ∧ PyStr.all_chars (fun c => negb (PyStr.isspace c)) (PyStr.rev cur)
              = true).
  { intros [|a cur'] Hne Hall; [done |]. split.
    - unfold PyStr.rev. simpl. by apply rev_onto_nonempty.
    - unfold PyStr.rev. by rewrite all_chars_rev_onto, Hall. }
  revert cur; induction s as [|c s IH]; intros cur Hcur Hin; simpl in Hin.
  - destruct cur as [|a cur']; [by apply elem_of_nil in Hin |].
    apply list_elem_of_singleton in Hin as ->. by apply Hrev.
  - destruct (PyStr.isspace c) eqn:Hc.
    + destruct cur as [|a cur']; [by apply (IH "") |].
      apply elem_of_cons in Hin as [-> | Hin]; [by apply Hrev | by apply (IH "")].
    + apply (IH (String c cur)); [| done]. simpl. by rewrite Hc, Hcur.
Qed.

Lemma split_tokens s w :
  w ∈ PyStr.split s →
  w ≠ "" ∧ PyStr.all_chars (fun c => negb (PyStr.isspace c)) w = true.
Proof. by apply split_from_tokens. Qed.

Lemma replace_from_delete c fuel s :
  String.length s ≤ fuel →
  PyStr.replace_from fuel (String c "") "" s = delete_chars [c] s.
Proof.
  revert s; induction fuel as [|fuel IH]; intros [|a s]; simpl; intros H;
    try done; try lia.
  rewrite orb_false_r, andb_true_r, Ascii.eqb_sym.
  destruct (Ascii.eqb a c); simpl; rewrite IH by lia; done.
Qed.

Lemma replace_char_delete c s :
  PyStr.replace (String c "") "" s = delete_chars [c] s.
Proof. unfold PyStr.replace. by apply replace_from_delete. Qed.

Lemma delete_chars_twice c d s :
  delete_chars [d] (delete_chars [c] s) = delete_chars [c; d] s.
Proof.
  induction s as [|a s IH]; simpl; [done |].
  rewrite !orb_false_r.
  destruct (Ascii.eqb a c) eqn:Hc; simpl; [done |].
  rewrite orb_false_r. destruct (Ascii.eqb a d); simpl; by rewrite ?IH.
Qed.

Lemma is_keyword_spec w :
  is_keyword w = true ↔ (w ∉ stopwords) ∧ (2 < String.length w).
Proof.
  unfold is_keyword. rewrite andb_true_iff, bool_decide_eq_true, Nat.ltb_lt. done.
Qed.

Lemma filter_bool_prop {A} (f : A → bool) (P : A → Prop) `{!∀ x, Decision (P x)}
    (l : list A) :
  (∀ x, f x = true ↔ P x) → List.filter f l = filter P l.
Proof.
  intros Hfp. induction l as [|x l IH]; simpl; [done |].
  rewrite filter_cons. destruct (f x) eqn:Hf.
  - rewrite decide_True by (by apply Hfp). by rewrite IH.
  - rewrite decide_False; [done |]. intros HP. apply Hfp in HP. congruence.
Qed.

(** C6. Keyword extraction is the function the specification describes:
    lowercase the question, delete every question mark and comma, split on
    whitespace, and keep, in order and with repetitions, exactly the tokens
    that are not stopwords and are longer than two characters; the question
    about Apple's main risks gives the three keywords of the example. *)
Theorem extract_keywords_correct :
  (∀ question, _extract_keywords question = extract_keywords_spec question)
  ∧ (∀ question w,
       w ∈ _extract_keywords question
       ↔ (w ∈ tokens question) ∧ (w ∉ stopwords) ∧ (2 < String.length w))
  ∧ (∀ question, _extract_keywords question `sublist_of` tokens question)
  ∧ _extract_keywords "What are Apple's main risks?" = ["apple's"; "main"; "risks"]
  ∧ _extract_keywords "Apple apple APPLE" = ["apple"; "apple"; "apple"].
Proof.
  assert (Heq : ∀ q, _extract_keywords q = extract_keywords_spec q).
  { intros q. unfold _extract_keywords, extract_keywords_spec, tokens.
    rewrite !replace_char_delete, delete_chars_twice.
    apply filter_bool_prop, is_keyword_spec. }
  split; [exact Heq |]. split; [| split; [| split]].
  - intros q w. rewrite Heq. unfold extract_keywords_spec.
    rewrite list_elem_of_filter. tauto.
  - intros q. rewrite Heq. apply sublist_filter.
  - vm_compute. reflexivity.
  - vm_compute. reflexivity.
Qed.

(** ** Running a computation against the world *)

Lemma advance_nil w : advance [] w = w.
Proof.
  destruct w; unfold advance; simpl. f_equal; [lia | apply app_nil_r].
Qed.

Lemma advance_app l1 l2 w : advance l2 (advance l1 w) = advance (l1 ++ l2) w.
Proof.
  unfold advance; simpl. f_equal.
  - rewrite length_app. lia.
  - by rewrite app_assoc.
Qed.

Lemma new_calls_advance l w : new_calls w (advance l w) = l.
Proof. unfold new_calls, advance; simpl. by rewrite drop_app_length. Qed.

Lemma call_ok c w :
  w_fault w (length (w_log w)) = None → call c w = (Ok tt, advance [c] w).
Proof. intros H. unfold call. by rewrite H. Qed.

Lemma call_log c w :
  w_log (call c w).2 = w_log w ++ [c] ∧ w_fault (call c w).2 = w_fault w.
Proof. unfold call. by destruct (w_fault w (length (w_log w))). Qed.

Lemma bind_ok {A B} (m : M A) (f : A → M B) w a w' :
  m w = (Ok a, w') → (m ≫= f) w = f a w'.
Proof. intros H. unfold mbind, M_bind. by rewrite H. Qed.

Lemma bind_raise {A B} (m : M A) (f : A → M B) w e w' :
  m w = (Raise e, w') → (m ≫= f) w = (Raise e, w').
Proof. intros H. unfold mbind, M_bind. by rewrite H. Qed.

Lemma try_ok {A} (m : M A) h w a w' :
  m w = (Ok a, w') → try_except m h w = (Ok a, w').
Proof. intros H. unfold try_except. by rewrite H. Qed.


Ltac run_monad :=
  cbv beta iota delta [mbind M_bind mret M_ret try_except reads set_graph raise].

Lemma bind_returns {A B} (m : M A) (f : A → M B) w a w1 r :
  m w = (Ok a, w1) → f a w1 = r → (m ≫= f) w = r.
Proof. intros Hm <-. by apply bind_ok. Qed.

Lemma performs_ret {A} (a : A) w : performs (mret a) w [] a.
Proof.
  left. split; [simpl; intros; lia |].
  by rewrite advance_nil.
Qed.

Lemma performs_reads {A} (f : World → A) w : performs (reads f) w [] (f w).
Proof.
  left. split; [simpl; intros; lia |].
  by rewrite advance_nil.
Qed.

Lemma performs_call c w : performs (call c) w [c] tt.
Proof.
  unfold performs, call.
  destruct (w_fault w (length (w_log w))) as [msg|] eqn:Hf.
  - right. exists 0, msg. rewrite Nat.add_0_r.
    repeat split; [simpl; lia | done | intros; lia].
  - left. split; [| done].
    intros k Hk. simpl in Hk. by replace k with 0 by lia; rewrite Nat.add_0_r.
Qed.

Lemma performs_bind {A B} (m : M A) (f : A → M B) w l1 l2 a b :
  performs m w l1 a →
  performs (f a) (advance l1 w) l2 b →
  performs (m ≫= f) w (l1 ++ l2) b.
Proof.
  unfold performs at 1 3. unfold mbind, M_bind.
  intros [[Hn1 ->] | (k & msg & Hk & Hf & Hb & ->)] H2.
  - destruct H2 as [[Hn2 ->] | (k & msg & Hk & Hf & Hb & ->)]; simpl in *;
      rewrite ?length_app in *.
    + left. split; [| by rewrite advance_app].
      intros k Hk.
      destruct (decide (k < length l1)) as [Hlt|Hge]; [by apply Hn1 |].
      specialize (Hn2 (k - length l1) ltac:(lia)).
      by replace (length (w_log w) + length l1 + (k - length l1))
        with (length (w_log w) + k) in Hn2 by lia.
    + right. exists (length l1 + k), msg.
      split; [lia |]. split; [by rewrite Nat.add_assoc |]. split.
      * intros j Hj.
        destruct (decide (j < length l1)) as [Hlt|Hge]; [by apply Hn1 |].
        specialize (Hb (j - length l1) ltac:(lia)).
        by replace (length (w_log w) + length l1 + (j - length l1))
          with (length (w_log w) + j) in Hb by lia.
      * rewrite advance_app. do 2 f_equal.
        replace (S (length l1 + k)) with (length l1 + S k) by lia.
        by rewrite take_app_add.
  - right. exists k, msg. rewrite length_app.
    split; [lia |]. split; [done |]. split; [done |].
    do 2 f_equal. rewrite take_app_le by lia. done.
Qed.

Lemma performs_seq {A B} (m : M A) (n : M B) w l1 l2 a b :
  performs m w l1 a →
  performs n (advance l1 w) l2 b →
  performs (m ;; n) w (l1 ++ l2) b.
Proof. intros. by eapply (performs_bind m (fun _ => n)). Qed.

(** What a run that [performs] leaves behind. *)
Lemma performs_inv {A} (m : M A) w calls a :
  performs m w calls a →
  ∃ made,
    (m w).2 = advance made w
    ∧ made `prefix_of` calls
    ∧ (((m w).1 = Ok a ∧ made = calls ∧ ¬ faulted w (advance made w))
       ∨ ((∃ e, (m w).1 = Raise e) ∧ faulted w (advance made w))).
Proof.
  intros [[Hn ->] | (k & msg & Hk & Hf & Hb & ->)]; simpl.
  - exists calls. split; [done |]. split; [done |]. left.
    split; [done |]. split; [done |].
    intros (k & [Hk1 Hk2] & Hne). simpl in Hk2. rewrite length_app in Hk2.
    apply Hne. specialize (Hn (k - length (w_log w)) ltac:(lia)).
    by replace (length (w_log w) + (k - length (w_log w))) with k in Hn by lia.
  - exists (take (S k) calls). split; [done |].
    split; [apply prefix_take |]. right. split; [by eexists |].
    exists (length (w_log w) + k). simpl. rewrite length_app, length_take.
    split; [lia | by rewrite Hf].
Qed.

Lemma performs_eq {A} (m : M A) w l l' a a' :
  performs m w l a → l = l' → a = a' → performs m w l' a'.
Proof. by intros H <- <-. Qed.

Lemma performs_call_reads {A} c (f : World → A) w :
  performs (call c;; reads f) w [c] (f (advance [c] w)).
Proof.
  apply (performs_seq _ _ w [c] [] tt); [apply performs_call | apply performs_reads].
Qed.

Lemma fold_left_snoc_map {A B} (f : A → B) (l : list A) (acc : list B) :
  fold_left (fun acc x => acc ++ [f x]) l acc = acc ++ (f <$> l).
Proof.
  revert acc; induction l as [|x l IH]; intros acc; simpl.
  - by rewrite app_nil_r.
  - rewrite IH, <- app_assoc. done.
Qed.

(** ** Graph search *)

Lemma session_run_probe_performs keyword w :
  performs (session_run_probe keyword) w [CallProbe keyword]
    (Cypher.probe keyword (w_graph w)).
Proof. apply (performs_call_reads _ (fun w => Cypher.probe keyword (w_graph w))). Qed.

Lemma session_run_paths_performs ticker w :
  performs (session_run_paths ticker) w [CallPaths ticker]
    (Cypher.paths ticker (w_graph w)).
Proof. apply (performs_call_reads _ (fun w => Cypher.paths ticker (w_graph w))). Qed.

Lemma probe_keywords_performs keywords entities w :
  performs (probe_keywords keywords entities) w (CallProbe <$> keywords)
    (entities
     ++ flat_map (fun keyword => mk_entity <$> Cypher.probe keyword (w_graph w))
          keywords).
Proof.
  revert entities w; induction keywords as [|keyword rest IH]; intros entities w.
  - simpl. rewrite app_nil_r. apply performs_ret.
  - simpl probe_keywords.
    eapply performs_eq.
    + eapply performs_bind; [apply session_run_probe_performs | apply IH].
    + done.
    + simpl. by rewrite fold_left_snoc_map, <- app_assoc.
Qed.

Lemma expand_first_performs entities w :
  performs (expand_first entities) w (anchor_calls entities)
    (anchor_paths (w_graph w) entities).
Proof.
  unfold expand_first, anchor_calls, anchor_paths, anchor_key.
  destruct entities as [|e0 rest]; [apply performs_ret |].
  cbn [head mbind option_bind]. unfold first_ticker, ticker_of.
  destruct (default ∅ (en_data e0) !! "ticker") as [ticker|];
    [| apply performs_ret].
  destruct (val_truthy ticker); [| apply performs_ret].
  eapply performs_eq.
  - eapply performs_bind; [apply session_run_paths_performs | apply performs_ret].
  - done.
  - simpl. by rewrite fold_left_snoc_map.
Qed.

Lemma graph_search_body_performs query w :
  performs (graph_search_body query) w (search_calls (w_graph w) query)
    (matched_entities (w_graph w) query,
     anchor_paths (w_graph w) (matched_entities (w_graph w) query)).
Proof.
  unfold graph_search_body, search_calls.
  apply (performs_seq _ _ w [CallSession] _ tt); [apply performs_call |].
  eapply performs_bind; [apply (probe_keywords_performs _ []) |].
  eapply performs_eq.
  - eapply performs_bind; [apply expand_first_performs | apply performs_ret].
  - by rewrite app_nil_r.
  - done.
Qed.

Lemma paths_call_in_search_calls g question t :
  CallPaths t ∈ search_calls g question →
  anchor_key (matched_entities g question) = Some t.
Proof.
  unfold search_calls, anchor_calls.
  rewrite elem_of_cons, elem_of_app, list_elem_of_fmap.
  intros [? | [(kw & ? & _) | H]]; try discriminate.
  destruct (anchor_key _); [| by apply elem_of_nil in H].
  apply list_elem_of_singleton in H. congruence.
Qed.

Lemma filter_paths_search_calls g question :
  List.filter is_paths_call (search_calls g question)
  = anchor_calls (matched_entities g question).
Proof.
  unfold search_calls. simpl. rewrite List.filter_app.
  assert (Hp : ∀ kws, List.filter is_paths_call (CallProbe <$> kws) = []).
  { induction kws; simpl; auto. }
  rewrite Hp. simpl. unfold anchor_calls.
  by destruct (anchor_key _).
Qed.

Lemma filter_prefix_length {A} (p : A → bool) (l1 l2 : list A) :
  l1 `prefix_of` l2 → length (List.filter p l1) ≤ length (List.filter p l2).
Proof.
  intros [k ->]. rewrite List.filter_app, length_app. lia.
Qed.

Lemma length_anchor_paths g entities : length (anchor_paths g entities) ≤ 10.
Proof.
  unfold anchor_paths. destruct (anchor_key entities); simpl; [| lia].
  rewrite length_fmap. unfold Cypher.paths. rewrite length_take. lia.
Qed.

Lemma anchor_key_nil : anchor_key [] = None.
Proof. reflexivity. Qed.

(** What one call of [_graph_search] amounts to, with a live connection. *)
Lemma graph_search_run self query w :
  driver self = true →
  ∃ made,
    (_graph_search self query w).2 = advance made w
    ∧ made `prefix_of` search_calls (w_graph w) query
    ∧ (((_graph_search self query w).1
        = Ok (matched_entities (w_graph w) query,
              anchor_paths (w_graph w) (matched_entities (w_graph w) query))
        ∧ made = search_calls (w_graph w) query
        ∧ ¬ faulted w (advance made w))
       ∨ ((_graph_search self query w).1 = Ok ([], [])
          ∧ faulted w (advance made w))).
Proof.
  intros Hd. unfold _graph_search, try_except. rewrite Hd. simpl.
  destruct (performs_inv _ _ _ _ (graph_search_body_performs query w))
    as (made & Hw & Hpre & Hcase).
  exists made. destruct (graph_search_body query w) as [[a|e] w'] eqn:Hrun;
    simpl in *; subst w'.
  - split; [done |]. split; [done |].
    destruct Hcase as [(Ha & -> & Hnf) | [[e He] _]]; [| discriminate].
    left. by inversion Ha.
  - split; [done |]. split; [done |].
    destruct Hcase as [(Ha & _) | [_ Hf]]; [discriminate |]. by right.
Qed.

Lemma fault_free_not_faulted w w' : fault_free w → ¬ faulted w w'.
Proof. intros Hff (k & [Hk _] & Hne). by apply Hne, Hff. Qed.

Lemma anchor_key_first entities t :
  anchor_key entities = Some t
  ↔ ∃ e0 rest,
      entities = e0 :: rest
      ∧ default ∅ (en_data e0) !! "ticker" = Some t
      ∧ val_truthy t = true.
Proof.
  unfold anchor_key, ticker_of. split.
  - destruct entities as [|e0 rest]; [done |]. cbn [head mbind option_bind].
    destruct (default ∅ (en_data e0) !! "ticker") as [t'|] eqn:Ht; [| done].
    destruct (val_truthy t') eqn:Htruthy; [| done].
    intros [= ->]. by exists e0, rest.
  - intros (e0 & rest & -> & Ht & Htruthy). cbn [head mbind option_bind].
    by rewrite Ht, Htruthy.
Qed.

(** C4. Graph search expands a single anchor. The only one-hop query it
    ever issues is the one for the primary key (the ticker) of the first
    entity the keyword probes match, and it issues it at most once; every
    path it returns is a row of that query and starts from that key, there
    are at most ten of them, and there is none when no entity matches.
    With a live connection and no store failure, when the first matched
    entity has a ticker the query for it is the one-hop query issued and
    its rows are what is returned, whatever entities were matched after
    the first. *)
Theorem graph_search_single_anchor self query w :
  let matched := matched_entities (w_graph w) query in
  let r := _graph_search self query w in
  (∀ t, CallPaths t ∈ new_calls w r.2 →
     ∃ e0 rest,
       matched = e0 :: rest
       ∧ default ∅ (en_data e0) !! "ticker" = Some t
       ∧ val_truthy t = true)
  ∧ length (List.filter is_paths_call (new_calls w r.2)) ≤ 1
  ∧ (∃ entities paths,
       r.1 = Ok (entities, paths)
       ∧ length paths ≤ 10
       ∧ (∀ p, p ∈ paths →
            ∃ e0 rest row,
              matched = e0 :: rest
              ∧ default ∅ (en_data e0) !! "ticker" = Some (gp_source p)
              ∧ row ∈ Cypher.paths (gp_source p) (w_graph w)
              ∧ p = mk_path (gp_source p) row)
       ∧ (matched = [] → paths = []))
  ∧ (driver self = true → fault_free w →
     ∀ e0 rest t,
       matched = e0 :: rest →
       default ∅ (en_data e0) !! "ticker" = Some t →
       val_truthy t = true →
       r.1 = Ok (e0 :: rest, mk_path t <$> Cypher.paths t (w_graph w))
       ∧ List.filter is_paths_call (new_calls w r.2) = [CallPaths t]).
Proof.
  intros matched r. subst r.
  destruct (driver self) eqn:Hd.
  2:{ unfold _graph_search. rewrite Hd. simpl.
      unfold new_calls. rewrite drop_all. simpl.
      split; [intros t H; by apply elem_of_nil in H |].
      split; [lia |]. split; [| done].
      exists [], []. split; [done |]. split; [simpl; lia |].
      split; [intros p H; by apply elem_of_nil in H | done]. }
  destruct (graph_search_run self query w Hd) as (made & Hw & Hpre & Hcase).
  rewrite Hw, new_calls_advance.
  assert (Hone : length (List.filter is_paths_call made) ≤ 1).
  { etrans; [by apply filter_prefix_length |].
    rewrite filter_paths_search_calls. unfold anchor_calls.
    destruct (anchor_key _); simpl; lia. }
  split.
  { intros t Ht. apply anchor_key_first, paths_call_in_search_calls.
    destruct Hpre as [k ->]. apply elem_of_app. by left. }
  split; [done |].
  destruct Hcase as [(Hr & -> & Hnf) | [Hr Hf]].
  - split.
    + eexists _, _. split; [exact Hr |].
      split; [apply length_anchor_paths |]. split.
      * unfold anchor_paths. fold matched. intros p Hp.
        destruct (anchor_key matched) as [t|] eqn:Hkey;
          [| by apply elem_of_nil in Hp].
        apply list_elem_of_fmap in Hp as (row & -> & Hrow).
        apply anchor_key_first in Hkey as (e0 & rest & Hm & Ht & _).
        by exists e0, rest, row.
      * fold matched. intros ->. done.
    + intros _ _ e0 rest t Hm Ht Htruthy.
      assert (Hkey : anchor_key matched = Some t)
        by (apply anchor_key_first; by exists e0, rest).
      rewrite Hr, filter_paths_search_calls. fold matched.
      unfold anchor_paths, anchor_calls. by rewrite Hkey, Hm.
  - split.
    + exists [], []. split; [done |]. split; [simpl; lia |].
      split; [intros p H; by apply elem_of_nil in H | done].
    + intros _ Hff. by apply (fault_free_not_faulted _ _ Hff) in Hf.
Qed.

(** C5. Graph search never lets an exception out, and whenever a graph
    store operation fails during the search it returns the empty entity
    list and the empty path list, whatever the probes matched before. *)
Theorem graph_search_swallows_errors self query w :
  let r := _graph_search self query w in
  (∃ entities paths, r.1 = Ok (entities, paths))
  ∧ (faulted w r.2 → r.1 = Ok ([], [])).
Proof.
  intros r. subst r.
  destruct (driver self) eqn:Hd.
  2:{ unfold _graph_search. rewrite Hd. simpl. split; [by exists [], [] | done]. }
  destruct (graph_search_run self query w Hd) as (made & Hw & _ & Hcase).
  rewrite Hw.
  destruct Hcase as [(Hr & _ & Hnf) | [Hr Hf]]; rewrite Hr.
  - split; [by eexists _, _ | done].
  - split; [by exists [], [] | done].
Qed.

(** C9. When the first entity the probes match has no ticker, or an empty
    one, graph search issues no one-hop query at all and returns no path,
    whatever the entities matched after it. *)
Theorem no_expansion_without_ticker self query w e0 rest :
  matched_entities (w_graph w) query = e0 :: rest →
  opt_truthy (default ∅ (en_data e0) !! "ticker") = false →
  let r := _graph_search self query w in
  (∃ entities, r.1 = Ok (entities, []))
  ∧ List.filter is_paths_call (new_calls w r.2) = [].
Proof.
  intros Hm Hfalsy r.
  assert (Hkey : anchor_key (matched_entities (w_graph w) query) = None).
  { rewrite Hm. unfold anchor_key, ticker_of. cbn [head mbind option_bind].
    destruct (default ∅ (en_data e0) !! "ticker") as [t|]; [| done].
    simpl in Hfalsy. by rewrite Hfalsy. }
  subst r. destruct (driver self) eqn:Hd.
  2:{ unfold _graph_search. rewrite Hd. simpl.
      unfold new_calls. rewrite drop_all. split; [by exists [] | done]. }
  destruct (graph_search_run self query w Hd) as (made & Hw & Hpre & Hcase).
  rewrite Hw, new_calls_advance. split.
  - destruct Hcase as [(Hr & _) | [Hr _]]; rewrite Hr.
    + eexists. unfold anchor_paths. by rewrite Hkey.
    + by exists [].
  - pose proof (filter_prefix_length is_paths_call _ _ Hpre) as Hlen.
    rewrite filter_paths_search_calls in Hlen. unfold anchor_calls in Hlen.
    rewrite Hkey in Hlen. simpl in Hlen.
    destruct (List.filter is_paths_call made); [done | simpl in Hlen; lia].
Qed.

(** ** Vector search *)

Lemma relevance_of_present d :
  float_truthy d = true →
  relevance_of (Some d) = NFloat (PrimFloat.sub 1%float d).
Proof. intros H. unfold relevance_of. by rewrite H. Qed.

Lemma relevance_of_absent : relevance_of None = NInt 0.
Proof. reflexivity. Qed.

(** The score is not clamped: a distance above one gives a negative score. *)
Lemma relevance_not_clamped :
  relevance_of (Some 1.5%float) = NFloat (-0.5)%float.
Proof. reflexivity. Qed.

Lemma content_of_take doc :
  PyStr.take 1500 (content_of doc) = PyStr.take 1500 (default "" doc).
Proof.
  destruct doc as [[|c d]|]; simpl default; unfold content_of; try done.
  simpl PyStr.truthy. cbv iota. by rewrite str_take_take.
Qed.

(** C3. A hit whose distance is zero, an exact match, is present in the
    result of the store and yet gets the relevance 0 of a hit without
    distance, where one minus its distance is 1. *)
Theorem zero_distance_relevance :
  relevance_of (Some 0%float) = NInt 0
  ∧ PrimFloat.sub 1%float 0%float = 1%float
  ∧ (_vector_search "What are Meta's main risks?" 5
       (Scenario.world Scenario.graph Scenario.exact_hit Scenario.no_fault)).1
    = Ok [ {| ev_content := Some "Risk factors of the company.";
              ev_metadata := Some {[ "ticker" := "META" ]};
              ev_relevance := Some (NInt 0);
              ev_source_type := Some "vector" |} ].
Proof. repeat split; vm_compute; reflexivity. Qed.

(** ** Synthesis *)

Section SynthesisProperties.

Variable round3 : float -> float.
Variable str_of_float : float -> string.
Variable format_money : pynum -> string.

Lemma cite_loop vector_results citations :
  fold_left (cite_step round3) vector_results citations
  = citations ++ citations_spec round3 vector_results.
Proof.
  unfold citations_spec.
  revert citations; induction vector_results as [|ctx rest IH]; intros citations.
  - simpl. by rewrite app_nil_r.
  - simpl fold_left. rewrite IH, filter_cons. unfold cite_step, meta_truthy.
    fold (metadata_of ctx). destruct (decide (metadata_of ctx ≠ ∅)) as [Hne|He].
    + rewrite bool_decide_eq_true_2 by done. by rewrite <- app_assoc.
    + rewrite bool_decide_eq_false_2 by done. done.
Qed.

(** C2. When the context is empty or made of whitespace only, the
    synthesizer returns the fixed refusal message and no citation, and
    leaves the world as it found it: no call is logged, so the
    generative model is not invoked. *)
Theorem blank_context_refused self question context vector_results w :
  PyStr.all_chars PyStr.isspace context = true →
  let r := _generate_answer round3 self question context vector_results w in
  r.1 = Ok (REFUSAL, [])
  ∧ r.2 = w
  ∧ List.filter is_generate_call (new_calls w r.2) = [].
Proof.
  intros Hblank. apply strip_blank_iff in Hblank.
  unfold _generate_answer. rewrite Hblank. simpl.
  unfold new_calls. by rewrite drop_all.
Qed.

Lemma vector_search_no_hits query n_results w :
  default [] (documents (w_search w query n_results)) = [] →
  _vector_search query n_results w
  = (Ok [], advance [CallSearch query n_results] w).
Proof.
  intros Hnone. unfold _vector_search, vector_store_search. run_monad.
  unfold call. destruct (w_fault w (length (w_log w))); [done |].
  cbv beta iota. cbn [w_search]. by rewrite Hnone.
Qed.

(** With no vector hit and the graph left out, the whole pipeline ends in
    the refusal: the only call made is the vector search. *)
Lemma answer_refuses_without_evidence self question n_results w :
  default [] (documents (w_search w question n_results)) = [] →
  answer round3 str_of_float format_money self question n_results false w
  = (Ok {| ar_question := question;
           ar_answer := REFUSAL;
           ar_citations := [];
           ar_graph_paths := [];
           ar_sources := {| vector_results := 0; graph_entities := 0 |} |},
     advance [CallSearch question n_results] w).
Proof.
  intros Hnone. unfold answer.
  eapply bind_returns; [by apply vector_search_no_hits |].
  reflexivity.
Qed.

(** C1, amended. When the context is not blank and the call to the
    generative model succeeds, the citation list has exactly one citation
    for each evidence item whose metadata is not empty, in the order of
    the evidence, carrying the ticker or "Unknown", the section, the url
    and the relevance rounded to three decimals; when the context is
    blank or the call fails, the citation list is empty. *)
Theorem citations_follow_evidence self question context vector_results w :
  let r := _generate_answer round3 self question context vector_results w in
  (PyStr.strip context ≠ "" → w_fault w (length (w_log w)) = None →
   r.1 = Ok (PyStr.strip (w_generate w (llm_model self)
                            (make_prompt question context)),
             citations_spec round3 vector_results))
  ∧ length (citations_spec round3 vector_results)
    = length (filter (fun ctx => metadata_of ctx ≠ ∅) vector_results)
  ∧ (PyStr.strip context = "" ∨ w_fault w (length (w_log w)) ≠ None →
     ∃ text, r.1 = Ok (text, [])).
Proof.
  intros r. subst r. unfold _generate_answer.
  split; [| split].
  - intros Hctx Hok.
    destruct (PyStr.strip context) eqn:Hs; [done |]. simpl.
    unfold try_except, ollama_generate, mbind, M_bind, call, reads.
    rewrite Hok. simpl. by rewrite cite_loop.
  - unfold citations_spec. by rewrite length_fmap.
  - intros [Hs | Hf].
    + rewrite Hs. simpl. by eexists.
    + destruct (PyStr.strip context); simpl; [by eexists |].
      unfold try_except, ollama_generate, mbind, M_bind, call, reads.
      destruct (w_fault w (length (w_log w))); [| done]. simpl. by eexists.
Qed.

(** *** Context assembly *)

Lemma vector_loop_app i vector_context parts :
  vector_loop i vector_context parts
  = parts ++ vector_loop i vector_context [].
Proof.
  revert i parts; induction vector_context as [|ctx rest IH]; intros i parts.
  - simpl. by rewrite app_nil_r.
  - simpl. rewrite IH, (IH _ (vector_item_parts i ctx)), app_assoc. done.
Qed.

Lemma vector_loop_lookup i k vector_context ctx :
  vector_context !! k = Some ctx →
  vector_loop i vector_context [] !! (2 * k + 1)
  = Some (PyStr.take 1500 (default "" (ev_content ctx))).
Proof.
  revert i k; induction vector_context as [|c rest IH]; intros i k Hk;
    [done |].
  simpl vector_loop. rewrite vector_loop_app.
  destruct k as [|k]; simpl in Hk.
  - inversion Hk; subst. done.
  - replace (2 * S k + 1) with (2 + (2 * k + 1)) by lia.
    simpl. by apply IH.
Qed.

Lemma length_vector_loop i vector_context :
  length (vector_loop i vector_context []) = 2 * length vector_context.
Proof.
  revert i; induction vector_context as [|c rest IH]; intros i; [done |].
  simpl vector_loop. rewrite vector_loop_app, length_app, IH. simpl. lia.
Qed.

Lemma entity_loop_app (entities : list Entity) parts :
  entity_loop str_of_float format_money entities parts
  = match entity_loop str_of_float format_money entities [] with
    | Ok rest => Ok (parts ++ rest)
    | Raise e => Raise e
    end.
Proof.
  revert parts; induction entities as [|e rest IH]; intros parts.
  - simpl. by rewrite app_nil_r.
  - cbn [entity_loop]. unfold mbind, outcome_bind.
    destruct (entity_parts str_of_float format_money e) as [added|err]; [| done].
    cbn beta iota. rewrite IH, (IH ([] ++ added)). cbn [app].
    destruct (entity_loop str_of_float format_money rest []) as [more|err];
      [| done].
    by rewrite app_assoc.
Qed.

(** The parts of the context, zone by zone. *)
Lemma build_parts_zones vector_context graph_context :
  build_parts str_of_float format_money vector_context graph_context
  = match graph_zone str_of_float format_money graph_context with
    | Ok graph => Ok (vector_zone vector_context ++ graph)
    | Raise e => Raise e
    end.
Proof.
  unfold build_parts, graph_zone, vector_zone.
  destruct vector_context as [|c vc], graph_context as [|e gc]; try done.
  - rewrite entity_loop_app. by destruct (entity_loop _ _ _ []).
  - cbn [mret outcome_ret]. by rewrite vector_loop_app, app_nil_r.
  - rewrite entity_loop_app, vector_loop_app.
    destruct (entity_loop _ _ _ []); [| done]. cbn [app].
    by rewrite <- !app_assoc.
Qed.

Lemma build_parts_lookup vector_context graph_context parts k ctx :
  vector_context !! k = Some ctx →
  build_parts str_of_float format_money vector_context graph_context = Ok parts →
  parts !! (2 * k + 2) = Some (PyStr.take 1500 (default "" (ev_content ctx))).
Proof.
  intros Hk. rewrite build_parts_zones.
  destruct (graph_zone _ _ graph_context) as [graph|e]; [| done].
  intros [= <-]. unfold vector_zone.
  destruct vector_context as [|c rest] eqn:Hvc; [done |]. rewrite <- Hvc in *.
  rewrite lookup_app_l.
  - replace (2 * k + 2) with (S (2 * k + 1)) by lia. simpl.
    by apply vector_loop_lookup.
  - apply lookup_lt_Some in Hk. cbn [length]. rewrite length_vector_loop. lia.
Qed.

Lemma join_app sep (l1 l2 : list string) :
  l1 ≠ [] → l2 ≠ [] →
  PyStr.join sep (l1 ++ l2) = PyStr.join sep l1 +:+ sep +:+ PyStr.join sep l2.
Proof.
  intros H1 H2. induction l1 as [|a [|b l1] IH]; [done | |].
  - destruct l2; [done |]. done.
  - change (PyStr.join sep ((a :: b :: l1) ++ l2))
      with (a +:+ sep +:+ PyStr.join sep ((b :: l1) ++ l2)).
    rewrite IH by done.
    change (PyStr.join sep (a :: b :: l1))
      with (a +:+ sep +:+ PyStr.join sep (b :: l1)).
    by rewrite !append_assoc.
Qed.

Lemma optional_part_ok data k label render :
  (∀ v, data !! k = Some v → val_truthy v = true → ∃ text, render v = Ok text) →
  ∃ added, optional_part data k label render = Ok added.
Proof.
  intros Hrender. unfold optional_part.
  destruct (data !! k) as [v|]; [| by eexists].
  destruct (val_truthy v) eqn:Hv; [| by eexists].
  destruct (Hrender v eq_refl Hv) as [text ->]. by eexists.
Qed.

Lemma optional_part_raises data k label render e :
  optional_part data k label render = Raise e →
  ∃ v, data !! k = Some v ∧ val_truthy v = true ∧ render v = Raise e.
Proof.
  unfold optional_part. destruct (data !! k) as [v|]; [| done].
  destruct (val_truthy v) eqn:Hv; [| done].
  destruct (render v) as [text|e'] eqn:Hr; [done |]. intros [= <-]. by exists v.
Qed.

(** An entity is rendered exactly when its description, if it has one, can
    be cut and its amounts, if it has them, can be formatted. *)
Lemma entity_parts_renders entity :
  entity_renders entity = true
  ↔ ∃ added, entity_parts str_of_float format_money entity = Ok added.
Proof.
  unfold entity_renders, entity_parts.
  destruct (en_type entity) as [ty|]; [| split; [by eexists | done]].
  destruct (String.eqb_spec ty "Company") as [-> | Hne].
  2:{ split; [by eexists |]. intros _.
      destruct ty as [|a ty]; [done |].
      repeat (match goal with
              | |- context [match ?x with _ => _ end] => destruct x; try done
              end). }
  set (data := default ∅ (en_data entity)).
  unfold renders, description_ok, amount_ok. split.
  - intros [[Hd Hm]%andb_true_iff Hr]%andb_true_iff.
    destruct (optional_part_ok data "description" "  Description: " (slice_to 500))
      as [d ->].
    { intros v Hv Htruthy. rewrite Hv in Hd.
      destruct v as [text| |]; [by eexists | |];
        rewrite Htruthy in Hd; done. }
    destruct (optional_part_ok data "market_cap" "  Market Cap: $"
                (money format_money)) as [m ->].
    { intros v Hv Htruthy. rewrite Hv in Hm.
      destruct v as [text| |]; [| by eexists | by eexists].
      simpl in Htruthy. rewrite Htruthy in Hm. done. }
    destruct (optional_part_ok data "revenue" "  Revenue: $"
                (money format_money)) as [r ->].
    { intros v Hv Htruthy. rewrite Hv in Hr.
      destruct v as [text| |]; [| by eexists | by eexists].
      simpl in Htruthy. rewrite Htruthy in Hr. done. }
    by eexists.
  - intros [added Hadded]. cbn [mbind outcome_bind] in Hadded.
    destruct (optional_part data "description" _ _) as [d|e] eqn:Hd;
      [| discriminate].
    destruct (optional_part data "market_cap" _ _) as [m|e] eqn:Hm;
      [| discriminate].
    destruct (optional_part data "revenue" _ _) as [r|e] eqn:Hr;
      [| discriminate].
    clear Hadded. unfold optional_part in Hd, Hm, Hr.
    destruct (data !! "description") as [[text|n|b]|]; simpl in *;
      destruct (data !! "market_cap") as [[text'|n'|b']|]; simpl in *;
      destruct (data !! "revenue") as [[text''|n''|b'']|]; simpl in *;
      repeat match goal with
             | H : context [if ?c then _ else _] |- _ =>
                 destruct c eqn:?; simpl in *; try discriminate
             end; done.
Qed.

Lemma entity_loop_renders entities :
  Forall (fun e => entity_renders e = true) entities
  ↔ ∃ rest, entity_loop str_of_float format_money entities [] = Ok rest.
Proof.
  induction entities as [|e rest IH].
  - split; [by eexists | constructor].
  - cbn [entity_loop]. unfold mbind, outcome_bind. split.
    + intros [He Hrest]%Forall_cons.
      apply entity_parts_renders in He as [added ->]. cbn beta iota.
      apply IH in Hrest as [more Hmore]. rewrite entity_loop_app, Hmore.
      by eexists.
    + intros [out Hout].
      destruct (entity_parts str_of_float format_money e) as [added|err] eqn:He;
        [| discriminate].
      cbn beta iota in Hout. rewrite entity_loop_app in Hout.
      destruct (entity_loop str_of_float format_money rest []) as [more|err]
        eqn:Hmore; [| discriminate].
      constructor; [apply entity_parts_renders; by eexists |].
      apply IH. by eexists.
Qed.

(** Context assembly returns exactly when each of the first five graph
    entities can be rendered. *)
Lemma build_context_returns vector_context graph_context :
  Forall (fun e => entity_renders e = true) (take 5 graph_context)
  ↔ ∃ context,
      _build_context str_of_float format_money vector_context graph_context
      = Ok context.
Proof.
  unfold _build_context. rewrite build_parts_zones, entity_loop_renders.
  unfold graph_zone, mbind, outcome_bind. destruct graph_context as [|e gc].
  - split; [by eexists | by exists []].
  - destruct (entity_loop _ _ (take 5 (e :: gc)) []) as [rest|err].
    + split; by eexists.
    + split; [by intros [? ?] | by intros [? ?]].
Qed.

(** C7. The content of every vector evidence item is rendered into the
    context, right after the marker of its source, as the prefix of at
    most 1500 characters of that content: whenever the context is built
    the item is in it, never left out, and a document of 5000 characters,
    cut to 2000 by vector search, contributes its first 1500. The context
    is built whenever each of the first five graph entities can be
    rendered, so always when there is no graph evidence. *)
Theorem context_keeps_content_prefix vector_context graph_context k ctx :
  vector_context !! k = Some ctx →
  let content := default "" (ev_content ctx) in
  let shown := PyStr.take 1500 content in
  (∀ parts,
     build_parts str_of_float format_money vector_context graph_context
     = Ok parts →
     parts !! (2 * k + 2) = Some shown
     ∧ _build_context str_of_float format_money vector_context graph_context
       = Ok (PyStr.join nl (take (2 * k + 2) parts) +:+ nl
             +:+ PyStr.join nl (shown :: drop (2 * k + 3) parts)))
  ∧ (Forall (fun e => entity_renders e = true) (take 5 graph_context) →
     ∃ parts,
       build_parts str_of_float format_money vector_context graph_context
       = Ok parts)
  ∧ content = shown +:+ PyStr.drop 1500 content
  ∧ String.length shown = Nat.min 1500 (String.length content)
  ∧ (∀ doc meta dist,
       ctx = hit_to_evidence (doc, meta, dist) →
       shown = PyStr.take 1500 (default "" doc)
       ∧ (String.length (default "" doc) = 5000 → String.length shown = 1500)).
Proof.
  intros Hk content shown.
  split; [| split; [| split; [| split]]].
  - intros parts Hparts.
    assert (Hl : parts !! (2 * k + 2) = Some shown)
      by (by eapply build_parts_lookup).
    split; [done |].
    unfold _build_context, mbind, outcome_bind, mret, outcome_ret.
    rewrite Hparts. f_equal.
    rewrite <- (take_drop (2 * k + 2) parts) at 1.
    rewrite (drop_S _ _ _ Hl).
    replace (S (2 * k + 2)) with (2 * k + 3) by lia.
    apply join_app; [| done].
    apply lookup_lt_Some in Hl. intros Hnil.
    apply (f_equal length) in Hnil. rewrite length_take in Hnil.
    simpl in Hnil. lia.
  - intros Hrender.
    apply (build_context_returns vector_context) in Hrender as [context Hctx].
    unfold _build_context, mbind, outcome_bind in Hctx.
    destruct (build_parts _ _ vector_context graph_context) as [parts|e];
      [by eexists | done].
  - symmetry. apply str_take_drop.
  - apply str_length_take.
  - intros doc meta dist ->. subst shown content.
    change (default "" (ev_content (hit_to_evidence (doc, meta, dist))))
      with (content_of doc).
    rewrite content_of_take. split; [done |].
    intros H5000. rewrite str_length_take, H5000. done.
Qed.

End SynthesisProperties.

(** ** The graph store *)

Lemma node_matches_stamp label name source now n :
  Cypher.node_matches label name (Cypher.stamp_node source now n)
  = Cypher.node_matches label name n.
Proof.
  unfold Cypher.node_matches, Cypher.has_label, Cypher.prop_is,
    Cypher.stamp_node; simpl.
  by rewrite !lookup_insert_ne.
Qed.

Lemma existsb_filter_nil {A} (p : A → bool) (l : list A) :
  existsb p l = false → List.filter p l = [].
Proof.
  induction l as [|x l IH]; simpl; [done |].
  destruct (p x); simpl; [discriminate | auto].
Qed.

Lemma existsb_filter_pos {A} (p : A → bool) (l : list A) :
  existsb p l = true → 0 < length (List.filter p l).
Proof.
  induction l as [|x l IH]; simpl; [discriminate |].
  destruct (p x); simpl; [lia | auto].
Qed.

Lemma filter_fmap_stable {A} (p : A → bool) (f : A → A) (l : list A) :
  (∀ x, p (f x) = p x) →
  length (List.filter p (f <$> l)) = length (List.filter p l).
Proof.
  intros Hp. induction l as [|x l IH]; [done |].
  rewrite fmap_cons. cbn [List.filter]. rewrite Hp.
  destruct (p x); cbn [length]; by rewrite IH.
Qed.

Lemma existsb_fmap_stable {A} (p : A → bool) (f : A → A) (l : list A) :
  (∀ x, p (f x) = p x) → existsb p (f <$> l) = existsb p l.
Proof.
  intros Hp. induction l as [|x l IH]; [done |].
  rewrite fmap_cons. cbn [existsb]. by rewrite Hp, IH.
Qed.

Lemma restamp_matches label name source now n :
  Cypher.node_matches label name
    (if Cypher.node_matches label name n
     then Cypher.stamp_node source now n else n)
  = Cypher.node_matches label name n.
Proof.
  destruct (Cypher.node_matches label name n) eqn:Hm; [| done].
  by rewrite node_matches_stamp.
Qed.

Lemma new_node_matches label name :
  Cypher.node_matches label name
    {| n_labels := [label]; n_props := {[ "name" := VStr name ]} |} = true.
Proof.
  unfold Cypher.node_matches, Cypher.has_label, Cypher.prop_is; simpl.
  rewrite lookup_singleton_eq. simpl. by rewrite !String.eqb_refl.
Qed.

(** After the merge there is a node with this label and name: the ones
    that were there, or one new node when there was none. *)
Lemma count_nodes_merge label name source now g :
  count_nodes label name (Cypher.merge_node label name source now g)
  = Nat.max 1 (count_nodes label name g).
Proof.
  unfold count_nodes, Cypher.merge_node; simpl.
  rewrite filter_fmap_stable by (intros; apply restamp_matches).
  destruct (existsb _ (g_nodes g)) eqn:Hex.
  - apply existsb_filter_pos in Hex. lia.
  - apply existsb_filter_nil in Hex.
    rewrite List.filter_app, Hex. simpl. by rewrite new_node_matches.
Qed.

Lemma merge_node_matched label name source now g :
  existsb (Cypher.node_matches label name)
    (g_nodes (Cypher.merge_node label name source now g)) = true.
Proof.
  unfold Cypher.merge_node; simpl.
  rewrite existsb_fmap_stable by (intros; apply restamp_matches).
  destruct (existsb _ (g_nodes g)) eqn:Hex; [done |].
  rewrite existsb_app. simpl. by rewrite new_node_matches, orb_true_r.
Qed.

Lemma without_stamp_restamp source now now' n :
  without_stamp (Cypher.stamp_node source now' (Cypher.stamp_node source now n))
  = without_stamp (Cypher.stamp_node source now n).
Proof.
  unfold without_stamp, Cypher.stamp_node; simpl. f_equal.
  apply map_eq; intros i.
  destruct (decide (i = "updated_at")) as [->|Hu].
  { rewrite !lookup_delete_eq. done. }
  rewrite !lookup_delete_ne by done.
  rewrite !lookup_insert. repeat case_decide; congruence.
Qed.

(** Merging the same entity again changes nothing in the graph but the
    last-updated marker of the nodes it matches. *)
Lemma merge_node_again label name source now now' g :
  let g1 := Cypher.merge_node label name source now g in
  let g2 := Cypher.merge_node label name source now' g1 in
  without_stamp <$> g_nodes g2 = without_stamp <$> g_nodes g1
  ∧ g_edges g2 = g_edges g1.
Proof.
  intros g1 g2. split; [| done].
  pose proof (merge_node_matched label name source now g) as Hm. fold g1 in Hm.
  subst g2. unfold Cypher.merge_node at 1. rewrite Hm. cbn [g_nodes].
  subst g1. unfold Cypher.merge_node. cbn [g_nodes].
  rewrite <- !list_fmap_compose. apply list_fmap_ext. intros i n _; simpl.
  destruct (Cypher.node_matches label name n) eqn:Hn.
  - rewrite node_matches_stamp, Hn. apply without_stamp_restamp.
  - by rewrite Hn.
Qed.

(** ** Ingestion *)

Lemma fault_free_advance calls w : fault_free w → fault_free (advance calls w).
Proof.
  intros H k Hk. apply H. simpl in Hk. rewrite length_app in Hk. lia.
Qed.

Lemma fault_free_with_graph g w : fault_free w → fault_free (with_graph g w).
Proof. intros H k Hk. by apply H. Qed.

Lemma fault_free_now w : fault_free w → w_fault w (length (w_log w)) = None.
Proof. intros H. by apply H. Qed.

Lemma session_run_merge_node_ok label name source w :
  fault_free w → Cypher.name_ok label = true →
  session_run_merge_node label name source w
  = (Ok tt,
     with_graph
       (Cypher.merge_node label name source (w_clock w + 1) (w_graph w))
       (advance [CallMergeNode label name source] w)).
Proof.
  intros Hff Hok. unfold session_run_merge_node. run_monad.
  rewrite (call_ok (CallMergeNode label name source) w (fault_free_now _ Hff)), Hok.
  done.
Qed.

Lemma add_entity_ok source entity added w name :
  fault_free w →
  er_name entity = Some name → PyStr.truthy name = true →
  Cypher.name_ok (default "Entity" (er_type entity)) = true →
  add_entity source entity added w
  = (Ok (S added),
     with_graph
       (Cypher.merge_node (default "Entity" (er_type entity)) name source
          (w_clock w + 1) (w_graph w))
       (advance [CallMergeNode (default "Entity" (er_type entity)) name source] w)).
Proof.
  intros Hff Hn Hname Hok. unfold add_entity. rewrite Hn.
  change (default "" (Some name)) with name. rewrite Hname. cbn [negb]. apply try_ok.
  eapply bind_returns; [by apply session_run_merge_node_ok | done].
Qed.

(** Ingesting a batch of one well-formed entity: one merge, counted once. *)
Lemma ingest_one_entity self w source name label :
  driver self = true → fault_free w →
  PyStr.truthy name = true → Cypher.name_ok label = true →
  ∃ now w',
    add_entities_to_graph self (one_entity source name label) w
    = (Ok (IngestCounts 1 0), w')
    ∧ w_graph w'
      = Cypher.merge_node label name (default "unknown" source) now (w_graph w)
    ∧ fault_free w'.
Proof.
  intros Hd Hff Hname Hok.
  assert (Hff0 : fault_free (advance [CallSession] w))
    by (by apply fault_free_advance).
  eexists _, _. split; [| split].
  - unfold add_entities_to_graph, one_entity. rewrite Hd. cbn [negb].
    eapply bind_returns; [by apply call_ok, fault_free_now |].
    eapply bind_returns.
    { cbn [for_each]. eapply bind_returns.
      { unfold add_extraction. eapply bind_returns.
        { cbn [ex_entities]. simpl default. cbn [for_each].
          eapply bind_returns; [| reflexivity].
          by apply (add_entity_ok _ _ _ _ name). }
        reflexivity. }
      reflexivity. }
    reflexivity.
  - reflexivity.
  - by apply fault_free_with_graph, fault_free_advance.
Qed.

(** C8. Merging the same named entity a second time leaves the graph as
    it was but for the last-updated marker: the same nodes, the same
    number of nodes with that label and name (one, when there was none to
    start with), the same edges; and the second call reports one entity
    added just as the first did. *)
Theorem merge_again_counts_again self w source name label :
  driver self = true → fault_free w →
  PyStr.truthy name = true → Cypher.name_ok label = true →
  let batch := one_entity source name label in
  let first := add_entities_to_graph self batch w in
  let second := add_entities_to_graph self batch first.2 in
  first.1 = Ok (IngestCounts 1 0)
  ∧ second.1 = Ok (IngestCounts 1 0)
  ∧ without_stamp <$> g_nodes (w_graph second.2)
    = without_stamp <$> g_nodes (w_graph first.2)
  ∧ g_edges (w_graph second.2) = g_edges (w_graph first.2)
  ∧ count_nodes label name (w_graph second.2)
    = count_nodes label name (w_graph first.2)
  ∧ (count_nodes label name (w_graph w) = 0 →
     count_nodes label name (w_graph second.2) = 1).
Proof.
  intros Hd Hff Hname Hok batch first second. subst first second batch.
  destruct (ingest_one_entity self w source name label Hd Hff Hname Hok)
    as (now & w1 & -> & Hg1 & Hff1).
  cbn [fst snd].
  destruct (ingest_one_entity self w1 source name label Hd Hff1 Hname Hok)
    as (now' & w2 & -> & Hg2 & _).
  simpl. rewrite Hg2, Hg1.
  destruct (merge_node_again label name (default "unknown" source) now now'
              (w_graph w)) as [Hnodes Hedges].
  split; [done |]. split; [done |]. split; [done |]. split; [done |].
  rewrite !count_nodes_merge. split; [lia |]. intros ->. done.
Qed.

(** *** The relationship type *)

(** On every character below U+0100 the code's upper case, with the space
    turned into an underscore, is what the table says. *)
Lemma upper_char_normalized c :
  PyStr.replace_code 32 95 (PyStr.upper_char c)
  = (if (N_of_ascii c =? 32)%N then [95%N] else upper_of (N_of_ascii c)).
Proof. destruct c as [[] [] [] [] [] [] [] []]; vm_compute; reflexivity. Qed.

Lemma replace_code_app old new t u :
  PyStr.replace_code old new (t ++ u)
  = PyStr.replace_code old new t ++ PyStr.replace_code old new u.
Proof. unfold PyStr.replace_code. apply List.map_app. Qed.

(** The relationship type the code computes from a label is the one of the
    specification. *)
Lemma label_normalized label :
  PyStr.replace_code 32 95 (PyStr.upper label) = normalized label.
Proof.
  unfold normalized, PyStr.widen.
  induction label as [|c label IH]; [done |].
  cbn [PyStr.upper list_ascii_of_string List.map flat_map].
  by rewrite replace_code_app, upper_char_normalized, IH.
Qed.

Lemma default_type_normalized :
  PyStr.replace_code 32 95 (PyStr.upper "RELATED_TO") = PyStr.widen "RELATED_TO".
Proof. vm_compute. reflexivity. Qed.


(** *** One turn of each loop *)

Lemma add_relation_string rel added w :
  named_relation rel = true → string_label rel = true →
  add_relation rel added w
  = try_except
      (session_run_merge_edge (relation_type_spec rel)
         (default "" (rr_source rel)) (default "" (rr_target rel));;
       mret (S added))
      (fun _ => mret added) w.
Proof.
  unfold named_relation, string_label, add_relation, relation_type_spec.
  intros [Hs Ht]%andb_true_iff Hlabel. rewrite Hs, Ht. cbn [negb orb].
  destruct (rr_relation rel) as [[| | | |label| |]|]; try discriminate.
  - change (default (JStr "RELATED_TO") (Some (JStr label))) with (JStr label).
    cbn [str_upper]. unfold mbind at 1, M_bind at 1, mret at 1, M_ret at 1.
    by rewrite label_normalized.
  - change (default (JStr "RELATED_TO") None) with (JStr "RELATED_TO").
    cbn [str_upper]. unfold mbind at 1, M_bind at 1, mret at 1, M_ret at 1.
    by rewrite default_type_normalized.
Qed.


Lemma add_relation_skips rel added w :
  named_relation rel = false → add_relation rel added w = (Ok added, w).
Proof.
  unfold named_relation, add_relation. intros Hn.
  destruct (PyStr.truthy (default "" (rr_source rel))),
    (PyStr.truthy (default "" (rr_target rel))); try discriminate; done.
Qed.





Lemma forallb_true {A} (l : list A) : forallb (fun _ => true) l = true.
Proof. by induction l. Qed.

(** An upsert logs its call and changes no fault, whether it fails or not. *)
Lemma upsert_logged (c : Call) (k : M unit) w :
  (∀ w0, w_log (k w0).2 = w_log w0 ∧ w_fault (k w0).2 = w_fault w0) →
  w_log ((call c;; k) w).2 = w_log w ++ [c]
  ∧ w_fault ((call c;; k) w).2 = w_fault w.
Proof.
  intros Hk. unfold mbind, M_bind.
  destruct (call_log c w) as [Hl Hf].
  destruct (call c w) as [[[]|e] w1]; simpl in *; [| done].
  destruct (Hk w1) as [Hl1 Hf1].
  destruct (k w1) as [[[]|e] w2]; simpl in *; split; congruence.
Qed.


Lemma foreign_silent c w0 :
  w_log (foreign c w0).2 = w_log w0 ∧ w_fault (foreign c w0).2 = w_fault w0.
Proof. unfold foreign. by destruct (w_foreign w0 c (w_clock w0) (w_graph w0)). Qed.

Lemma merge_node_step_silent label name source w0 :
  let k : M unit :=
    if Cypher.name_ok label
    then w ← reads id;
         set_graph (Cypher.merge_node label name source (w_clock w) (w_graph w))
    else foreign (CallMergeNode label name source) in
  w_log (k w0).2 = w_log w0 ∧ w_fault (k w0).2 = w_fault w0.
Proof. simpl. destruct (Cypher.name_ok label); [done | apply foreign_silent]. Qed.

Lemma merge_edge_step_silent reltype source target w0 :
  let k : M unit :=
    match Cypher.plain_name reltype with
    | Some t =>
        w ← reads id;
        set_graph (Cypher.merge_edge t source target (w_clock w) (w_graph w))
    | None => foreign (CallMergeEdge reltype source target)
    end in
  w_log (k w0).2 = w_log w0 ∧ w_fault (k w0).2 = w_fault w0.
Proof.
  simpl. destruct (Cypher.plain_name reltype); [done | apply foreign_silent].
Qed.







(** *** The edge upsert *)

Lemma edge_matches_stamp i reltype j now (c : bool) e :
  Cypher.edge_matches i reltype j (if c then Cypher.stamp_edge now e else e)
  = Cypher.edge_matches i reltype j e.
Proof. by destruct c. Qed.

Lemma merge_edge_between_keeps i j reltype now es p :
  existsb (Cypher.edge_matches i reltype j) es = true →
  existsb (Cypher.edge_matches i reltype j)
    (Cypher.merge_edge_between reltype now es p) = true.
Proof.
  intros H. unfold Cypher.merge_edge_between.
  rewrite existsb_fmap_stable by (intros; apply edge_matches_stamp).
  destruct (existsb (Cypher.edge_matches p.1 reltype p.2) es); [done |].
  rewrite existsb_app, H. done.
Qed.

Lemma merge_edge_between_adds reltype now es p :
  existsb (Cypher.edge_matches p.1 reltype p.2)
    (Cypher.merge_edge_between reltype now es p) = true.
Proof.
  unfold Cypher.merge_edge_between.
  rewrite existsb_fmap_stable by (intros; apply edge_matches_stamp).
  destruct (existsb (Cypher.edge_matches p.1 reltype p.2) es) eqn:Hex; [done |].
  rewrite existsb_app. simpl. unfold Cypher.edge_matches at 2. simpl.
  by rewrite !Nat.eqb_refl, String.eqb_refl, orb_true_r.
Qed.

Lemma fold_merge_keeps i j reltype now pairs es :
  existsb (Cypher.edge_matches i reltype j) es = true →
  existsb (Cypher.edge_matches i reltype j)
    (fold_left (Cypher.merge_edge_between reltype now) pairs es) = true.
Proof.
  revert es; induction pairs as [|p pairs IH]; intros es H; [done |].
  simpl. by apply IH, merge_edge_between_keeps.
Qed.

Lemma fold_merge_adds i j reltype now pairs es :
  (i, j) ∈ pairs →
  existsb (Cypher.edge_matches i reltype j)
    (fold_left (Cypher.merge_edge_between reltype now) pairs es) = true.
Proof.
  revert es; induction pairs as [|p pairs IH]; intros es Hin.
  - by apply elem_of_nil in Hin.
  - simpl. apply elem_of_cons in Hin as [<- | Hin]; [| by apply IH].
    apply fold_merge_keeps, (merge_edge_between_adds reltype now es (i, j)).
Qed.

(** After the edge merge every node named [source] is linked to every node
    named [target] by an edge of the given type. *)
Lemma merge_edge_connects reltype source target now g :
  connected reltype source target
    (Cypher.merge_edge reltype source target now g).
Proof.
  intros i j Hi Hj. unfold Cypher.merge_edge. cbn [g_edges].
  apply fold_merge_adds, list_elem_of_In, in_prod; by apply list_elem_of_In.
Qed.

Lemma session_run_merge_edge_ok reltype t source target w :
  fault_free w → Cypher.plain_name reltype = Some t →
  session_run_merge_edge reltype source target w
  = (Ok tt,
     with_graph
       (Cypher.merge_edge t source target (w_clock w + 1) (w_graph w))
       (advance [CallMergeEdge reltype source target] w)).
Proof.
  intros Hff Hok. unfold session_run_merge_edge. run_monad.
  rewrite (call_ok (CallMergeEdge reltype source target) w (fault_free_now _ Hff)), Hok.
  done.
Qed.

(** *** Counting *)

Lemma fault_free_foreign c w :
  fault_free w → fault_free (foreign c w).2.
Proof.
  intros Hff. unfold foreign.
  destruct (w_foreign w c (w_clock w) (w_graph w)); [| done].
  by apply fault_free_with_graph.
Qed.

(** One turn of the entity loop never raises, adds at most one to the
    count, and on a store that does not fail adds one when the label is a
    plain identifier. *)
Lemma add_entity_counted source entity added w :
  ∃ added' w',
    add_entity source entity added w = (Ok added', w')
    ∧ added ≤ added' ≤ added + (if named_entity entity then 1 else 0)
    ∧ (fault_free w →
       fault_free w'
       ∧ added + (if plain_entity entity then 1 else 0) ≤ added').
Proof.
  unfold add_entity, plain_entity, named_entity.
  destruct (PyStr.truthy (default "" (er_name entity))); cbn [negb andb].
  2:{ exists added, w. split; [done |]. split; [lia |]. intros Hff.
      split; [done | lia]. }
  destruct (upsert_logged
              (CallMergeNode (default "Entity" (er_type entity))
                 (default "" (er_name entity)) source)
              (if Cypher.name_ok (default "Entity" (er_type entity))
               then w ← reads id;
                    set_graph (Cypher.merge_node (default "Entity" (er_type entity))
                                 (default "" (er_name entity)) source
                                 (w_clock w) (w_graph w))
               else foreign (CallMergeNode (default "Entity" (er_type entity))
                               (default "" (er_name entity)) source)) w)
    as [Hlog Hfault]; [intros w0; apply merge_node_step_silent |].
  fold (session_run_merge_node (default "Entity" (er_type entity))
          (default "" (er_name entity)) source) in Hlog, Hfault.
  assert (Hff' : fault_free w →
                 fault_free (session_run_merge_node
                               (default "Entity" (er_type entity))
                               (default "" (er_name entity)) source w).2).
  { intros Hff k Hk. rewrite Hfault. apply Hff. rewrite Hlog, length_app in Hk.
    lia. }
  destruct (Cypher.name_ok (default "Entity" (er_type entity))) eqn:Hok.
  - unfold try_except, mbind at 1, M_bind at 1.
    destruct (session_run_merge_node _ _ _ w) as [[[]|e] w1] eqn:Hrun;
      cbn [fst snd] in *.
    + exists (S added), w1. split; [done |]. split; [lia |].
      intros Hff. split; [by apply Hff' | lia].
    + exists added, w1. split; [done |]. split; [lia |].
      intros Hff. exfalso.
      rewrite (session_run_merge_node_ok _ _ _ _ Hff Hok) in Hrun. discriminate.
  - unfold try_except, mbind at 1, M_bind at 1.
    destruct (session_run_merge_node _ _ _ w) as [[[]|e] w1] eqn:Hrun;
      cbn [fst snd] in *.
    + exists (S added), w1. split; [done |]. split; [lia |].
      intros Hff. split; [by apply Hff' | lia].
    + exists added, w1. split; [done |]. split; [lia |].
      intros Hff. split; [by apply Hff' | lia].
Qed.

Lemma plain_relation_name rel :
  plain_relation rel = true →
  named_relation rel = true ∧ string_label rel = true
  ∧ ∃ t, Cypher.plain_name (relation_type_spec rel) = Some t.
Proof.
  unfold plain_relation, is_plain.
  intros [[Hn Hs]%andb_true_iff Hp]%andb_true_iff.
  destruct (Cypher.plain_name (relation_type_spec rel)) as [t|]; [| done].
  split; [done |]. split; [done |]. by exists t.
Qed.

(** One turn of the relation loop, for a record whose label, if it reaches
    [upper], is a string. *)
Lemma add_relation_counted rel added w :
  relation_ok rel = true →
  ∃ added' w',
    add_relation rel added w = (Ok added', w')
    ∧ added ≤ added' ≤ added + (if named_relation rel then 1 else 0)
    ∧ (fault_free w →
       fault_free w'
       ∧ added + (if plain_relation rel then 1 else 0) ≤ added').
Proof.
  unfold relation_ok. intros Hok.
  destruct (named_relation rel) eqn:Hn; simpl in Hok.
  2:{ exists added, w. rewrite add_relation_skips by done.
      split; [done |]. split; [lia |]. intros Hff. split; [done |].
      unfold plain_relation. rewrite Hn. simpl. lia. }
  rewrite (add_relation_string rel added w Hn Hok).
  set (reltype := relation_type_spec rel).
  set (source := default "" (rr_source rel)).
  set (target := default "" (rr_target rel)).
  destruct (upsert_logged (CallMergeEdge reltype source target)
              (match Cypher.plain_name reltype with
               | Some t =>
                   w ← reads id;
                   set_graph (Cypher.merge_edge t source target
                                (w_clock w) (w_graph w))
               | None => foreign (CallMergeEdge reltype source target)
               end) w)
    as [Hlog Hfault]; [intros w0; apply merge_edge_step_silent |].
  fold (session_run_merge_edge reltype source target) in Hlog, Hfault.
  assert (Hff' : fault_free w →
                 fault_free (session_run_merge_edge reltype source target w).2).
  { intros Hff k Hk. rewrite Hfault. apply Hff. rewrite Hlog, length_app in Hk.
    lia. }
  unfold try_except, mbind at 1, M_bind at 1.
  destruct (session_run_merge_edge reltype source target w) as [[[]|e] w1]
    eqn:Hrun; cbn [fst snd] in *.
  - exists (S added), w1. split; [done |]. split; [lia |].
    intros Hff. split; [by apply Hff' |]. destruct (plain_relation rel); lia.
  - exists added, w1. split; [done |]. split; [lia |].
    intros Hff. split; [by apply Hff' |].
    destruct (plain_relation rel) eqn:Hp; [| lia]. exfalso.
    apply plain_relation_name in Hp as (_ & _ & t & Ht).
    rewrite (session_run_merge_edge_ok _ t _ _ _ Hff Ht) in Hrun. discriminate.
Qed.

(** A loop whose turns each add at most one to a count. *)
Lemma for_each_counted {A} (body : A → nat → M nat) (ok sure maybe : A → bool)
    xs added w :
  (∀ x n w, ok x = true →
     ∃ n' w', body x n w = (Ok n', w')
              ∧ n ≤ n' ≤ n + (if maybe x then 1 else 0)
              ∧ (fault_free w →
                 fault_free w' ∧ n + (if sure x then 1 else 0) ≤ n')) →
  forallb ok xs = true →
  ∃ added' w',
    for_each body xs added w = (Ok added', w')
    ∧ added ≤ added' ≤ added + length (List.filter maybe xs)
    ∧ (fault_free w →
       fault_free w' ∧ added + length (List.filter sure xs) ≤ added').
Proof.
  intros Hbody. revert added w; induction xs as [|x xs IH]; intros added w Hok.
  - exists added, w. split; [done |]. simpl. split; [lia |].
    intros Hff. split; [done | lia].
  - simpl in Hok. apply andb_true_iff in Hok as [Hx Hxs].
    destruct (Hbody x added w Hx) as (n1 & w1 & Hrun1 & Hb1 & Hf1).
    destruct (IH n1 w1 Hxs) as (n2 & w2 & Hrun2 & Hb2 & Hf2).
    exists n2, w2. split; [| split].
    + cbn [for_each]. by eapply bind_returns.
    + cbn [List.filter]. destruct (maybe x); simpl in *; lia.
    + intros Hff. destruct (Hf1 Hff) as [Hff1 Hs1].
      destruct (Hf2 Hff1) as [Hff2 Hs2]. split; [done |].
      cbn [List.filter]. destruct (sure x); simpl in *; lia.
Qed.

Lemma add_extraction_counted result counts w :
  extraction_ok result = true →
  ∃ counts' w',
    add_extraction result counts w = (Ok counts', w')
    ∧ counts.1 ≤ counts'.1
      ≤ counts.1 + length (List.filter named_entity (default [] (ex_entities result)))
    ∧ counts.2 ≤ counts'.2
      ≤ counts.2 + length (List.filter named_relation
                             (default [] (ex_relations result)))
    ∧ (fault_free w →
       fault_free w'
       ∧ counts.1 + length (List.filter plain_entity
                              (default [] (ex_entities result))) ≤ counts'.1
       ∧ counts.2 + length (List.filter plain_relation
                              (default [] (ex_relations result))) ≤ counts'.2).
Proof.
  intros Hok.
  destruct (for_each_counted (add_entity (default "unknown" (ex_source result)))
              (fun _ => true) plain_entity named_entity
              (default [] (ex_entities result)) counts.1 w)
    as (e1 & w1 & He & Hbe & Hfe);
    [intros; apply add_entity_counted | apply forallb_true |].
  destruct (for_each_counted add_relation relation_ok plain_relation
              named_relation (default [] (ex_relations result)) counts.2 w1)
    as (r1 & w2 & Hr & Hbr & Hfr);
    [intros; by apply add_relation_counted | exact Hok |].
  exists (e1, r1), w2. split; [| split; [done | split; [done |]]].
  - unfold add_extraction. eapply bind_returns; [exact He |].
    eapply bind_returns; [exact Hr | reflexivity].
  - intros Hff. destruct (Hfe Hff) as [Hff1 Hse].
    destruct (Hfr Hff1) as [Hff2 Hsr]. done.
Qed.

Lemma for_each_extraction_counted extraction_results counts w :
  string_labels extraction_results = true →
  ∃ counts' w',
    for_each add_extraction extraction_results counts w = (Ok counts', w')
    ∧ counts'.1 ≤ counts.1 + named_entities extraction_results
    ∧ counts'.2 ≤ counts.2 + named_relations extraction_results
    ∧ (fault_free w →
       counts.1 + plain_entities extraction_results ≤ counts'.1
       ∧ counts.2 + plain_relations extraction_results ≤ counts'.2).
Proof.
  unfold string_labels.
  revert counts w; induction extraction_results as [|result rest IH];
    intros counts w Hok.
  - exists counts, w.
    unfold named_entities, named_relations, plain_entities, plain_relations.
    simpl. split; [done |]. split; [lia |]. split; [lia |]. intros _. lia.
  - simpl in Hok. apply andb_true_iff in Hok as [Hres Hrest].
    destruct (add_extraction_counted result counts w Hres)
      as (c1 & w1 & Hrun1 & He1 & Hr1 & Hf1).
    destruct (IH c1 w1 Hrest) as (c2 & w2 & Hrun2 & He2 & Hr2 & Hf2).
    exists c2, w2. split; [| split; [| split]].
    + cbn [for_each]. by eapply bind_returns.
    + unfold named_entities in *. cbn [flat_map]. rewrite length_app. lia.
    + unfold named_relations in *. cbn [flat_map]. rewrite length_app. lia.
    + intros Hff. destruct (Hf1 Hff) as (Hff1 & Hse & Hsr).
      destruct (Hf2 Hff1) as [Hse2 Hsr2].
      unfold plain_entities, plain_relations in *. cbn [flat_map].
      rewrite !length_app. lia.
Qed.

(** Ingesting a batch of one well-formed relation: one edge merge. *)
Lemma ingest_one_relation self w source target label reltype :
  driver self = true → fault_free w →
  PyStr.truthy source = true → PyStr.truthy target = true →
  Cypher.plain_name
    (match label with
     | None => PyStr.widen "RELATED_TO"
     | Some l => normalized l
     end) = Some reltype →
  ∃ now w',
    add_entities_to_graph self (one_relation source target label) w
    = (Ok (IngestCounts 0 1), w')
    ∧ w_graph w' = Cypher.merge_edge reltype source target now (w_graph w)
    ∧ fault_free w'.
Proof.
  intros Hd Hff Hs Ht Hok.
  assert (Hff0 : fault_free (advance [CallSession] w))
    by (by apply fault_free_advance).
  set (rel := {| rr_source := Some source; rr_target := Some target;
                 rr_relation := JStr <$> label |}).
  assert (Hspec : relation_type_spec rel
                  = match label with
                    | None => PyStr.widen "RELATED_TO"
                    | Some l => normalized l
                    end) by (by destruct label).
  assert (Hnamed : named_relation rel = true).
  { unfold named_relation. cbn [rel rr_source rr_target].
    change (default "" (Some source)) with source.
    change (default "" (Some target)) with target. by rewrite Hs, Ht. }
  assert (Hstr : string_label rel = true) by (by destruct label).
  eexists _, _. split; [| split].
  - unfold add_entities_to_graph, one_relation. rewrite Hd. cbn [negb].
    eapply bind_returns; [by apply call_ok, fault_free_now |].
    eapply bind_returns.
    { cbn [for_each]. eapply bind_returns.
      { unfold add_extraction. cbn [ex_entities ex_relations]. simpl default.
        cbn [for_each]. eapply bind_returns; [reflexivity |].
        eapply bind_returns.
        { eapply bind_returns; [| reflexivity].
          fold rel. rewrite (add_relation_string rel _ _ Hnamed Hstr).
          apply try_ok. eapply bind_returns; [| reflexivity].
          apply session_run_merge_edge_ok; [done |].
          rewrite Hspec. exact Hok. }
        reflexivity. }
      reflexivity. }
    reflexivity.
  - reflexivity.
  - by apply fault_free_with_graph, fault_free_advance.
Qed.


(** ** Worked instances *)

(** A blank context of three spaces is refused. *)
Lemma blank_context_refused_witness :
  (_generate_answer (fun f => f) Scenario.agent "What are Meta's main risks?"
     "   " Scenario.evidence
     (Scenario.world Scenario.graph Scenario.hits Scenario.no_fault)).1
  = Ok (REFUSAL, []).
Proof.
  apply (blank_context_refused (fun f => f) Scenario.agent
           "What are Meta's main risks?" "   " Scenario.evidence
           (Scenario.world Scenario.graph Scenario.hits Scenario.no_fault)).
  reflexivity.
Defined.

(** The generator answers: the one evidence item is cited. *)
Lemma citations_follow_evidence_witness :
  (_generate_answer (fun f => f) Scenario.agent "What are Meta's main risks?"
     "=== DOCUMENT CONTEXT ===" Scenario.evidence
     (Scenario.world Scenario.graph Scenario.hits Scenario.no_fault)).1
  = Ok (PyStr.strip "Meta faces regulatory risk [Source 1].",
        citations_spec (fun f => f) Scenario.evidence).
Proof.
  apply (citations_follow_evidence (fun f => f) Scenario.agent
           "What are Meta's main risks?" "=== DOCUMENT CONTEXT ==="
           Scenario.evidence
           (Scenario.world Scenario.graph Scenario.hits Scenario.no_fault)).
  - vm_compute. discriminate.
  - reflexivity.
Defined.

(** The generator fails: the evidence item has metadata, and yet the
    citation list is empty. *)
Lemma citations_lost_on_generator_failure :
  length (filter (fun ctx => metadata_of ctx ≠ ∅) Scenario.evidence) = 1
  ∧ (_generate_answer (fun f => f) Scenario.agent "What are Meta's main risks?"
       "=== DOCUMENT CONTEXT ===" Scenario.evidence
       (Scenario.world Scenario.graph Scenario.hits (Scenario.fault_at 0))).1
    = Ok ("Error generating answer: ServiceUnavailable", []).
Proof. split; vm_compute; reflexivity. Qed.

(** The context of the sample evidence, with no graph evidence, is built
    and its third part is the content of the item. *)
Lemma context_keeps_content_prefix_witness :
  ∃ parts,
    build_parts (fun _ => "") (fun _ => "") Scenario.evidence [] = Ok parts
    ∧ parts !! 2 = Some (PyStr.take 1500 "Risk factors of the company.").
Proof.
  destruct (context_keeps_content_prefix (fun _ => "") (fun _ => "")
              Scenario.evidence [] 0
              {| ev_content := Some "Risk factors of the company.";
                 ev_metadata := Some {[ "ticker" := "META" ]};
                 ev_relevance := Some (NFloat 0.875%float);
                 ev_source_type := Some "vector" |})
    as (Hparts & Hbuilt & _).
  - reflexivity.
  - destruct Hbuilt as [parts Hp]; [constructor |].
    exists parts. split; [exact Hp |].
    destruct (Hparts parts Hp) as [Hshown _]. exact Hshown.
Defined.

(** A question about Apple on a graph where it matches two companies,
    Apple Inc before Pineapple Foods: the one-hop query is for AAPL, the
    key of the first, and the one path returned is the relationship of
    Apple Inc; the relationship of Pineapple Foods is not fetched. *)
Lemma graph_search_single_anchor_witness :
  matched_entities Scenario.graph_two_matches "Apple risks"
  = [ mk_entity (n_props Scenario.apple); mk_entity (n_props Scenario.pineapple) ]
  ∧ (_graph_search Scenario.agent "Apple risks"
       (Scenario.world Scenario.graph_two_matches Scenario.hits
          Scenario.no_fault)).1
    = Ok ([ mk_entity (n_props Scenario.apple);
            mk_entity (n_props Scenario.pineapple) ],
          [ {| gp_source := VStr "AAPL";
               gp_relation := "OPERATES_IN";
               gp_target_type := Some "Sector";
               gp_target := Some (VStr "Technology") |} ])
  ∧ List.filter is_paths_call
      (new_calls
         (Scenario.world Scenario.graph_two_matches Scenario.hits
            Scenario.no_fault)
         (_graph_search Scenario.agent "Apple risks"
            (Scenario.world Scenario.graph_two_matches Scenario.hits
               Scenario.no_fault)).2)
    = [CallPaths (VStr "AAPL")].
Proof.
  split; [vm_compute; reflexivity |].
  destruct (graph_search_single_anchor Scenario.agent "Apple risks"
              (Scenario.world Scenario.graph_two_matches Scenario.hits
                 Scenario.no_fault))
    as (_ & _ & _ & Hrun).
  apply (Hrun eq_refl (fun k _ => eq_refl)
           (mk_entity (n_props Scenario.apple))
           [mk_entity (n_props Scenario.pineapple)] (VStr "AAPL"));
    vm_compute; reflexivity.
Defined.

(** The second probe fails after the first one matched Apple: both lists
    come back empty. *)
Lemma graph_search_swallows_errors_witness :
  matched_entities Scenario.graph "Apple risks" ≠ []
  ∧ (_graph_search Scenario.agent "Apple risks"
       (Scenario.world Scenario.graph Scenario.hits (Scenario.fault_at 2))).1
    = Ok ([], []).
Proof.
  split; [vm_compute; discriminate |].
  apply (graph_search_swallows_errors Scenario.agent "Apple risks"
           (Scenario.world Scenario.graph Scenario.hits (Scenario.fault_at 2))).
  exists 2. split; [vm_compute; lia | discriminate].
Defined.

(** The supplier, which has no ticker, is matched before Apple, which has
    one: nothing is expanded. *)
Lemma no_expansion_without_ticker_witness :
  (∃ entities,
     (_graph_search Scenario.agent "Apple risks"
        (Scenario.world Scenario.graph_supplier_first Scenario.hits
           Scenario.no_fault)).1
     = Ok (entities, []))
  ∧ List.filter is_paths_call
      (new_calls
         (Scenario.world Scenario.graph_supplier_first Scenario.hits
            Scenario.no_fault)
         (_graph_search Scenario.agent "Apple risks"
            (Scenario.world Scenario.graph_supplier_first Scenario.hits
               Scenario.no_fault)).2)
    = [].
Proof.
  apply (no_expansion_without_ticker Scenario.agent "Apple risks"
           (Scenario.world Scenario.graph_supplier_first Scenario.hits
              Scenario.no_fault)
           (mk_entity (n_props Scenario.apple_supplier))
           [mk_entity (n_props Scenario.apple)]).
  - vm_compute. reflexivity.
  - vm_compute. reflexivity.
Defined.

(** Acme is merged twice into the sample graph: one Organization node named
    Acme, and one entity counted by the second call. *)
Lemma merge_again_counts_again_witness :
  (add_entities_to_graph Scenario.agent Scenario.acme_batch
     (add_entities_to_graph Scenario.agent Scenario.acme_batch
        (Scenario.world Scenario.graph Scenario.hits Scenario.no_fault)).2).1
  = Ok (IngestCounts 1 0)
  ∧ count_nodes "Organization" "Acme"
      (w_graph
         (add_entities_to_graph Scenario.agent Scenario.acme_batch
            (add_entities_to_graph Scenario.agent Scenario.acme_batch
               (Scenario.world Scenario.graph Scenario.hits Scenario.no_fault)).2).2)
    = 1.
Proof.
  destruct (merge_again_counts_again Scenario.agent
              (Scenario.world Scenario.graph Scenario.hits Scenario.no_fault)
              (Some "report.pdf") "Acme" "Organization")
    as (_ & Hsecond & _ & _ & _ & Hone).
  - reflexivity.
  - intros k _. reflexivity.
  - reflexivity.
  - reflexivity.
  - split; [exact Hsecond | apply Hone; reflexivity].
Defined.


(** * Further properties of the agent *)

(** ** Vector search *)

Lemma vector_search_run query n_results w :
  _vector_search query n_results w
  = (Ok (match w_fault w (length (w_log w)) with
         | Some _ => []
         | None => found_evidence w query n_results
         end),
     advance [CallSearch query n_results] w).
Proof.
  unfold _vector_search, vector_store_search, found_evidence. run_monad.
  unfold call. destruct (w_fault w (length (w_log w))); [done |].
  cbv beta iota. cbn [w_search]. by rewrite fold_left_snoc_map.
Qed.

Lemma zip3_lookup {A B C} (xs : list A) (ys : list B) (zs : list C) i x y z :
  zip3 xs ys zs !! i = Some (x, y, z)
  ↔ xs !! i = Some x ∧ ys !! i = Some y ∧ zs !! i = Some z.
Proof.
  revert ys zs i; induction xs as [|a xs IH]; intros [|b ys] [|c zs] [|i];
    simpl; try (split; [done | intros (? & ? & ?); done]).
  - split; [intros [= -> -> ->]; done | intros ([= ->] & [= ->] & [= ->]); done].
  - apply IH.
Qed.

Lemma length_zip3 {A B C} (xs : list A) (ys : list B) (zs : list C) :
  length (zip3 xs ys zs)
  = Nat.min (length xs) (Nat.min (length ys) (length zs)).
Proof.
  revert ys zs; induction xs as [|a xs IH]; intros [|b ys] [|c zs]; simpl;
    try done.
  by rewrite IH.
Qed.

(** X1. When the store answers, vector search returns as many evidence
    items as the shortest of the three lists of the result, and the item
    at each position is built from the document, the metadata and the
    distance at that position. *)
Theorem vector_search_alignment query n_results w :
  w_fault w (length (w_log w)) = None →
  ∃ evidence,
    (_vector_search query n_results w).1 = Ok evidence
    ∧ length evidence
      = Nat.min (length (default [] (documents (w_search w query n_results))))
          (Nat.min (length (default [] (metadatas (w_search w query n_results))))
             (length (default [] (distances (w_search w query n_results)))))
    ∧ ∀ i ev,
        evidence !! i = Some ev
        ↔ ∃ doc meta dist,
            default [] (documents (w_search w query n_results)) !! i = Some doc
            ∧ default [] (metadatas (w_search w query n_results)) !! i = Some meta
            ∧ default [] (distances (w_search w query n_results)) !! i = Some dist
            ∧ ev = hit_to_evidence (doc, meta, dist).
Proof.
  intros Hok. rewrite vector_search_run, Hok. eexists. split; [done |].
  unfold found_evidence. split; [by rewrite length_fmap, length_zip3 |].
  intros i ev. rewrite list_lookup_fmap. split.
  - intros Hev. apply fmap_Some in Hev as ([[doc meta] dist] & Hz & ->).
    apply zip3_lookup in Hz as (? & ? & ?). by exists doc, meta, dist.
  - intros (doc & meta & dist & Hd & Hm & Hx & ->).
    apply fmap_Some. exists (doc, meta, dist). split; [| done].
    by apply zip3_lookup.
Qed.

Lemma content_of_bound doc :
  String.length (content_of doc) ≤ 2000
  ∧ content_of doc = PyStr.take 2000 (default "" doc).
Proof.
  destruct doc as [[|c d]|]; simpl default; unfold content_of;
    cbn [PyStr.truthy]; try (split; [simpl; lia | done]).
  split; [rewrite str_length_take; lia | done].
Qed.

(** X2. Vector search never raises and calls the store once. Whatever the
    store returns, every evidence item carries the first 2000 characters
    of its document at most (the empty text for a missing document), its
    metadata, a relevance and the source type "vector"; when the call to
    the store fails there is no item. *)
Theorem vector_search_items query n_results w :
  ∃ evidence,
    _vector_search query n_results w
    = (Ok evidence, advance [CallSearch query n_results] w)
    ∧ (w_fault w (length (w_log w)) ≠ None → evidence = [])
    ∧ ∀ ev, ev ∈ evidence →
        ∃ doc content meta relevance,
          doc ∈ default [] (documents (w_search w query n_results))
          ∧ ev_content ev = Some content
          ∧ content = PyStr.take 2000 (default "" doc)
          ∧ String.length content ≤ 2000
          ∧ ev_metadata ev = Some meta
          ∧ ev_relevance ev = Some relevance
          ∧ ev_source_type ev = Some "vector".
Proof.
  rewrite vector_search_run. eexists. split; [done |].
  destruct (w_fault w (length (w_log w))) as [msg|].
  - split; [done |]. intros ev Hev. by apply elem_of_nil in Hev.
  - split; [done |]. intros ev Hev. unfold found_evidence in Hev.
    apply list_elem_of_fmap in Hev as ([[doc meta] dist] & -> & Hz).
    apply list_elem_of_lookup in Hz as [i Hz].
    apply zip3_lookup in Hz as (Hd & _ & _).
    exists doc, (content_of doc), meta, (relevance_of dist).
    destruct (content_of_bound doc) as [Hlen Heq].
    repeat split; try done. by apply list_elem_of_lookup_2 in Hd.
Qed.

(** ** Graph search *)

Lemma length_probe keyword g : length (Cypher.probe keyword g) ≤ 3.
Proof. unfold Cypher.probe. rewrite length_take. lia. Qed.

Lemma length_flat_map_bound {A B} (f : A → list B) (k : nat) (l : list A) :
  (∀ x, length (f x) ≤ k) → length (flat_map f l) ≤ k * length l.
Proof.
  intros Hf. induction l as [|x l IH]; simpl; [lia |].
  rewrite length_app. specialize (Hf x). lia.
Qed.

Lemma length_matched_entities g question :
  length (matched_entities g question) ≤ 15.
Proof.
  unfold matched_entities.
  etrans; [apply (length_flat_map_bound _ 3) |].
  - intros kw. rewrite length_fmap. apply length_probe.
  - rewrite length_take. lia.
Qed.

Lemma matched_entities_company g question e :
  e ∈ matched_entities g question →
  en_type e = Some "Company" ∧ en_source_type e = Some "graph".
Proof.
  unfold matched_entities. intros He.
  apply list_elem_of_In, in_flat_map in He as (kw & _ & He).
  apply list_elem_of_In, list_elem_of_fmap in He as (props & -> & _). done.
Qed.

Lemma filter_probe_search_calls g question :
  List.filter is_probe_call (search_calls g question)
  = CallProbe <$> take 5 (_extract_keywords question).
Proof.
  unfold search_calls. simpl. rewrite List.filter_app.
  assert (Hp : ∀ kws, List.filter is_probe_call (CallProbe <$> kws)
                      = CallProbe <$> kws).
  { induction kws as [|kw kws IH]; [done |].
    rewrite fmap_cons. cbn [List.filter is_probe_call]. by rewrite IH. }
  rewrite Hp. unfold anchor_calls. destruct (anchor_key _); simpl;
    by rewrite app_nil_r.
Qed.

(** X3. Graph search is bounded and read-only: it probes at most five
    keywords, all among the first five of the question, returns at most
    fifteen entities, each of type "Company", and leaves the graph as it
    found it. *)
Theorem graph_search_bounds self query w :
  let r := _graph_search self query w in
  ∃ entities paths,
    r.1 = Ok (entities, paths)
    ∧ length entities ≤ 15
    ∧ (∀ e, e ∈ entities → en_type e = Some "Company")
    ∧ length (List.filter is_probe_call (new_calls w r.2)) ≤ 5
    ∧ (∀ keyword, CallProbe keyword ∈ new_calls w r.2 →
         keyword ∈ take 5 (_extract_keywords query))
    ∧ w_graph r.2 = w_graph w.
Proof.
  intros r. subst r. destruct (driver self) eqn:Hd.
  2:{ unfold _graph_search. rewrite Hd. simpl.
      unfold new_calls. rewrite drop_all. exists [], [].
      repeat split; simpl; try lia; intros ? H; by apply elem_of_nil in H. }
  destruct (graph_search_run self query w Hd) as (made & Hw & Hpre & Hcase).
  rewrite Hw, new_calls_advance.
  assert (Hprobes : length (List.filter is_probe_call made) ≤ 5).
  { etrans; [by apply filter_prefix_length |].
    rewrite filter_probe_search_calls, length_fmap, length_take. lia. }
  assert (Hkw : ∀ keyword, CallProbe keyword ∈ made →
                keyword ∈ take 5 (_extract_keywords query)).
  { intros kw Hin.
    assert (Hin' : CallProbe kw ∈ List.filter is_probe_call
                     (search_calls (w_graph w) query)).
    { apply list_elem_of_In, List.filter_In. split; [| done].
      destruct Hpre as [k ->]. apply list_elem_of_In, elem_of_app. by left. }
    rewrite filter_probe_search_calls in Hin'.
    apply list_elem_of_fmap in Hin' as (kw' & [= ->] & Hin'). done. }
  destruct Hcase as [(Hr & _) | [Hr _]]; rewrite Hr.
  - eexists _, _. split; [done |].
    split; [apply length_matched_entities |].
    split; [intros e He; by apply matched_entities_company in He as [? _] |].
    done.
  - exists [], []. split; [done |]. split; [simpl; lia |].
    split; [intros e He; by apply elem_of_nil in He | done].
Qed.

(** X4. A question with no keyword (only stopwords, short words,
    punctuation) makes graph search open a session and probe nothing: it
    returns no entity and no path. *)
Theorem graph_search_without_keywords self query w :
  _extract_keywords query = [] →
  let r := _graph_search self query w in
  r.1 = Ok ([], [])
  ∧ List.filter is_probe_call (new_calls w r.2) = []
  ∧ List.filter is_paths_call (new_calls w r.2) = [].
Proof.
  intros Hkw r. subst r. destruct (driver self) eqn:Hd.
  2:{ unfold _graph_search. rewrite Hd. simpl.
      unfold new_calls. by rewrite drop_all. }
  destruct (graph_search_run self query w Hd) as (made & Hw & Hpre & Hcase).
  rewrite Hw, new_calls_advance.
  assert (Hcalls : search_calls (w_graph w) query = [CallSession]).
  { unfold search_calls, matched_entities. by rewrite Hkw. }
  rewrite Hcalls in Hpre.
  assert (Hmade : made = [] ∨ made = [CallSession]).
  { destruct Hpre as [k Hk]. destruct made as [|c made]; [by left |].
    right. inversion Hk as [[Hc Hrest]]. by destruct made. }
  split.
  - destruct Hcase as [(Hr & _) | [Hr _]]; rewrite Hr; [| done].
    unfold matched_entities. by rewrite Hkw.
  - by destruct Hmade as [-> | ->].
Qed.

(** ** Context assembly and synthesis *)

Lemma all_chars_append p s t :
  PyStr.all_chars p (s +:+ t) = PyStr.all_chars p s && PyStr.all_chars p t.
Proof.
  induction s as [|c s IH]; [done |].
  rewrite append_cons. simpl. by rewrite IH, andb_assoc.
Qed.

Lemma length_append s t :
  String.length (s +:+ t) = String.length s + String.length t.
Proof.
  induction s as [|c s IH]; [done |]. rewrite append_cons. simpl. by rewrite IH.
Qed.

Lemma join_cons sep p ps :
  PyStr.join sep (p :: ps)
  = p +:+ match ps with [] => "" | _ :: _ => sep +:+ PyStr.join sep ps end.
Proof.
  destruct ps; simpl; [| done].
  induction p as [|c p IH]; [done |]. by rewrite append_cons, <- IH.
Qed.

Section PipelineProperties.

Variable round3 : float -> float.
Variable str_of_float : float -> string.
Variable format_money : pynum -> string.

Lemma join_headed_not_blank header rest :
  PyStr.all_chars PyStr.isspace header = false →
  PyStr.strip (PyStr.join nl (header :: rest)) ≠ "".
Proof.
  intros Hh Hblank. apply strip_blank_iff in Hblank.
  rewrite join_cons, all_chars_append, Hh in Hblank. done.
Qed.

Lemma startswith_append p s : PyStr.startswith p (p +:+ s) = true.
Proof.
  induction p as [|c p IH]; [by destruct s |].
  rewrite append_cons. simpl. by rewrite Ascii.eqb_refl, IH.
Qed.

Lemma startswith_join header rest :
  PyStr.startswith header (PyStr.join nl (header :: rest)) = true.
Proof. rewrite join_cons. apply startswith_append. Qed.

(** A context that is built is the two zones joined. *)
Lemma build_context_zones vector_context graph_context context :
  _build_context str_of_float format_money vector_context graph_context
  = Ok context →
  ∃ graph,
    graph_zone str_of_float format_money graph_context = Ok graph
    ∧ context = PyStr.join nl (vector_zone vector_context ++ graph)
    ∧ (graph_context = [] → graph = [])
    ∧ (graph_context ≠ [] → ∃ rest, graph = GRAPH_HEADER :: rest).
Proof.
  unfold _build_context, mbind, outcome_bind, mret, outcome_ret.
  rewrite (build_parts_zones str_of_float format_money).
  destruct (graph_zone _ _ graph_context) as [graph|e] eqn:Hg; [| done].
  intros [= <-]. exists graph. split; [done |]. split; [done |].
  unfold graph_zone in Hg. destruct graph_context as [|e gc].
  - inversion Hg. done.
  - destruct (entity_loop _ _ _ []) as [rest|err]; [| done]. inversion Hg.
    split; [done |]. intros _. by eexists.
Qed.

Lemma build_context_blank vector_context graph_context context :
  _build_context str_of_float format_money vector_context graph_context
  = Ok context →
  PyStr.strip context = "" ↔ vector_context = [] ∧ graph_context = [].
Proof.
  intros Hctx.
  destruct (build_context_zones _ _ _ Hctx) as (graph & _ & -> & Hnil & Hcons).
  unfold vector_zone. split.
  - intros Hblank.
    destruct vector_context as [|c vc].
    + destruct graph_context as [|e gc]; [done |]. exfalso.
      destruct Hcons as [rest ->]; [done |]. revert Hblank.
      by apply join_headed_not_blank.
    + exfalso. revert Hblank. cbn [app]. by apply join_headed_not_blank.
  - intros [-> ->]. by rewrite Hnil.
Qed.

Lemma find_none_Forall {A} (p : A → bool) (l : list A) :
  List.find (fun x => negb (p x)) l = None ↔ Forall (fun x => p x = true) l.
Proof.
  induction l as [|x l IH]; [split; [constructor | done] |].
  simpl. destruct (p x) eqn:Hp; simpl.
  - rewrite IH. split; [by constructor | by intros [_ ?]%Forall_cons].
  - split; [done |]. intros [Hx _]%Forall_cons. congruence.
Qed.

(** Context assembly raises exactly when one of the first five entities
    cannot be rendered. *)
Lemma build_context_raises vector_context graph_context :
  first_unrendered graph_context = None
  ↔ ∃ context,
      _build_context str_of_float format_money vector_context graph_context
      = Ok context.
Proof.
  unfold first_unrendered. rewrite find_none_Forall.
  apply (build_context_returns str_of_float format_money).
Qed.

(** X5. Context assembly returns exactly when each of the first five
    graph entities can be rendered. The context it returns is blank
    exactly when there is neither vector evidence nor graph evidence,
    and it is then the empty string; with vector evidence it opens with
    the header of the document zone, with graph evidence only it opens
    with the header of the graph zone, and neither header is blank. *)
Theorem context_blank_iff vector_context graph_context :
  (first_unrendered graph_context = None
   ↔ ∃ context,
       _build_context str_of_float format_money vector_context graph_context
       = Ok context)
  ∧ _build_context str_of_float format_money [] [] = Ok ""
  ∧ (∀ context,
       _build_context str_of_float format_money vector_context graph_context
       = Ok context →
       (PyStr.strip context = "" ↔ vector_context = [] ∧ graph_context = [])
       ∧ (context = "" ↔ vector_context = [] ∧ graph_context = [])
       ∧ (vector_context ≠ [] →
          PyStr.startswith "=== DOCUMENT CONTEXT ===" context = true)
       ∧ (vector_context = [] → graph_context ≠ [] →
          PyStr.startswith (nl +:+ nl +:+ "=== KNOWLEDGE GRAPH CONTEXT ===")
            context = true))
  ∧ PyStr.strip "=== DOCUMENT CONTEXT ===" ≠ ""
  ∧ PyStr.strip (nl +:+ nl +:+ "=== KNOWLEDGE GRAPH CONTEXT ===") ≠ "".
Proof.
  split; [apply build_context_raises |]. split; [done |].
  split; [| split; vm_compute; discriminate].
  intros context Hctx.
  pose proof (build_context_blank _ _ _ Hctx) as Hblank.
  split; [done |]. split; [| split].
  - split.
    + intros ->. by apply Hblank.
    + intros [-> ->]. by inversion Hctx.
  - intros Hvc.
    destruct (build_context_zones _ _ _ Hctx) as (graph & _ & -> & _).
    unfold vector_zone. destruct vector_context as [|c vc]; [done |].
    apply (startswith_join DOCUMENT_HEADER).
  - intros -> Hgc.
    destruct (build_context_zones _ _ _ Hctx) as (graph & _ & -> & _ & Hcons).
    destruct (Hcons Hgc) as [rest ->].
    apply (startswith_join GRAPH_HEADER).
Qed.

(** X6. Only the first five graph entities reach the context: the
    entities after the fifth change nothing. *)
Theorem context_entity_cap vector_context graph_context :
  _build_context str_of_float format_money vector_context graph_context
  = _build_context str_of_float format_money vector_context (take 5 graph_context).
Proof.
  unfold _build_context.
  rewrite !(build_parts_zones str_of_float format_money).
  unfold graph_zone. rewrite take_take. by destruct graph_context.
Qed.

Lemma generate_answer_run self question context vector_results w :
  (PyStr.strip context = ""
   ∧ _generate_answer round3 self question context vector_results w
     = (Ok (REFUSAL, []), w))
  ∨ (PyStr.strip context ≠ ""
     ∧ ∃ text citations,
         _generate_answer round3 self question context vector_results w
         = (Ok (text, citations),
            advance [CallGenerate (llm_model self) (make_prompt question context)] w)
         ∧ ((w_fault w (length (w_log w)) = None
             ∧ text = PyStr.strip (w_generate w (llm_model self)
                                     (make_prompt question context))
             ∧ citations = citations_spec round3 vector_results)
            ∨ (∃ msg, w_fault w (length (w_log w)) = Some msg
                      ∧ text = "Error generating answer: " +:+ msg
                      ∧ citations = []))).
Proof.
  unfold _generate_answer.
  destruct (PyStr.strip context) eqn:Hs; [by left |]. right.
  split; [done |]. cbn [PyStr.truthy negb].
  unfold try_except, ollama_generate, mbind, M_bind, call, reads.
  destruct (w_fault w (length (w_log w))) as [msg|] eqn:Hf; simpl.
  - eexists _, _. split; [done |]. right. by exists msg.
  - eexists _, _. split; [done |]. left. by rewrite cite_loop.
Qed.

(** X7. When the call to the generative model fails, the synthesizer does
    not raise: the failure comes back as the answer text, the message of
    the error after a fixed prefix, with no citation, after the one call
    made with the configured model and the prompt built from the question
    and the context. *)
Theorem generate_answer_failure self question context vector_results w msg :
  PyStr.strip context ≠ "" →
  w_fault w (length (w_log w)) = Some msg →
  _generate_answer round3 self question context vector_results w
  = (Ok ("Error generating answer: " +:+ msg, []),
     advance [CallGenerate (llm_model self) (make_prompt question context)] w).
Proof.
  intros Hctx Hf.
  destruct (generate_answer_run self question context vector_results w)
    as [[Hs _] | (_ & text & cites & -> & [(Hok & _) | (m & Hm & -> & ->)])];
    [done | congruence |].
  rewrite Hf in Hm. by inversion Hm.
Qed.

(** X8. The prompt holds at most 6000 characters of the context: its
    length is the 510 characters of the fixed instructions, plus the
    length of the question, plus the length of the context capped at
    6000. *)
Theorem prompt_length question context :
  String.length (make_prompt question context)
  = 510 + String.length question + Nat.min 6000 (String.length context).
Proof.
  assert (Hfixed : String.length (make_prompt "" "") = 510)
    by (vm_compute; reflexivity).
  revert Hfixed. unfold make_prompt. rewrite !length_append, !str_length_take.
  change (String.length "") with 0. rewrite Nat.min_0_r. lia.
Qed.

End PipelineProperties.

(** ** The top-level operation *)

Section AnswerProperties.

Variable round3 : float -> float.
Variable str_of_float : float -> string.
Variable format_money : pynum -> string.

(** What one call of [answer] amounts to: the vector search, then the
    graph search when it is asked for and possible, then context assembly,
    which can raise, then the synthesis. *)
Lemma answer_run self question n_results include_graph w :
  ∃ evidence entities paths graph_made,
    evidence = match w_fault w (length (w_log w)) with
               | Some _ => []
               | None => found_evidence w question n_results
               end
    ∧ (if include_graph && driver self
       then _graph_search self question else mret ([], []))
        (advance [CallSearch question n_results] w)
      = (Ok (entities, paths),
         advance ([CallSearch question n_results] ++ graph_made) w)
    ∧ ((include_graph && driver self = false
        ∧ graph_made = [] ∧ entities = [] ∧ paths = [])
       ∨ (include_graph && driver self = true
          ∧ graph_made `prefix_of` search_calls (w_graph w) question
          ∧ length entities ≤ 15 ∧ length paths ≤ 10
          ∧ (entities = []
             ∨ entities = matched_entities (w_graph w) question)))
    ∧ ((∃ e,
          _build_context str_of_float format_money evidence entities = Raise e
          ∧ answer round3 str_of_float format_money self question n_results
              include_graph w
            = (Raise e, advance ([CallSearch question n_results] ++ graph_made) w))
       ∨ (∃ context text citations model_made,
            _build_context str_of_float format_money evidence entities
            = Ok context
            ∧ answer round3 str_of_float format_money self question n_results
                include_graph w
              = (Ok {| ar_question := question;
                       ar_answer := text;
                       ar_citations := citations;
                       ar_graph_paths := paths;
                       ar_sources := {| vector_results := length evidence;
                                        graph_entities := length entities |} |},
                 advance ([CallSearch question n_results] ++ graph_made
                          ++ model_made) w)
            ∧ ((evidence = [] ∧ entities = []
                ∧ model_made = [] ∧ text = REFUSAL ∧ citations = [])
               ∨ ((evidence ≠ [] ∨ entities ≠ [])
                  ∧ model_made
                    = [CallGenerate (llm_model self) (make_prompt question context)]
                  ∧ (citations = [] ∨ citations = citations_spec round3 evidence))))).
Proof.
  set (evidence := match w_fault w (length (w_log w)) with
                   | Some _ => []
                   | None => found_evidence w question n_results
                   end).
  set (w1 := advance [CallSearch question n_results] w).
  assert (Hvs : _vector_search question n_results w = (Ok evidence, w1))
    by apply vector_search_run.
  assert (Hgraph : ∃ entities paths graph_made,
    (if include_graph && driver self
     then _graph_search self question else mret ([], [])) w1
    = (Ok (entities, paths), advance graph_made w1)
    ∧ ((include_graph && driver self = false
        ∧ graph_made = [] ∧ entities = [] ∧ paths = [])
       ∨ (include_graph && driver self = true
          ∧ graph_made `prefix_of` search_calls (w_graph w) question
          ∧ length entities ≤ 15 ∧ length paths ≤ 10
          ∧ (entities = []
             ∨ entities = matched_entities (w_graph w) question)))).
  { destruct (include_graph && driver self) eqn:Hflag.
    - apply andb_true_iff in Hflag as [_ Hd].
      destruct (graph_search_run self question w1 Hd) as (made & Hw & Hpre & Hcase).
      destruct (_graph_search self question w1) as [r w2] eqn:Hrun.
      simpl in Hw. subst w2.
      destruct Hcase as [(Hr & _) | [Hr _]]; simpl in Hr; subst r.
      + eexists _, _, made. split; [done |]. right.
        repeat split; [done | apply length_matched_entities
                      | apply length_anchor_paths | by right].
      + exists [], [], made. split; [done |]. right.
        repeat split; simpl; [done | lia | lia | by left].
    - exists [], [], []. split; [by rewrite advance_nil |]. by left. }
  destruct Hgraph as (entities & paths & graph_made & Hg & Hgcase).
  assert (Hw2 : advance graph_made w1
                = advance ([CallSearch question n_results] ++ graph_made) w)
    by apply advance_app.
  exists evidence, entities, paths, graph_made.
  split; [done |]. split; [by rewrite <- Hw2 |]. split; [exact Hgcase |].
  rewrite <- Hw2. set (w2 := advance graph_made w1) in *.
  destruct (_build_context str_of_float format_money evidence entities)
    as [context|e] eqn:Hctx.
  2:{ left. exists e. split; [done |].
      unfold answer. eapply bind_returns; [exact Hvs |].
      eapply bind_returns; [exact Hg |].
      apply bind_raise. unfold lift. cbn [fst]. by rewrite Hctx. }
  right.
  destruct (generate_answer_run round3 self question context evidence w2)
    as [[Hblank Hgen] | (Hnb & text & citations & Hgen & Hcites)].
  - apply (build_context_blank str_of_float format_money _ _ _ Hctx) in Hblank
      as [Hev Hen].
    exists context, REFUSAL, [], [].
    split; [done |]. split.
    + unfold answer. eapply bind_returns; [exact Hvs |].
      eapply bind_returns; [exact Hg |].
      eapply bind_returns; [unfold lift; cbn [fst]; by rewrite Hctx |].
      eapply bind_returns; [exact Hgen |].
      rewrite app_nil_r, <- Hw2. reflexivity.
    + left. done.
  - exists context, text, citations,
      [CallGenerate (llm_model self) (make_prompt question context)].
    split; [done |]. split.
    + unfold answer. eapply bind_returns; [exact Hvs |].
      eapply bind_returns; [exact Hg |].
      eapply bind_returns; [unfold lift; cbn [fst]; by rewrite Hctx |].
      eapply bind_returns; [exact Hgen |].
      rewrite app_assoc, <- advance_app, <- Hw2. reflexivity.
    + right. split.
      * destruct evidence as [|ev evs]; [| left; done].
        destruct entities as [|en ens]; [| right; done].
        exfalso. apply Hnb.
        by apply (build_context_blank str_of_float format_money _ _ _ Hctx).
      * split; [done |].
        destruct Hcites as [(_ & _ & ->) | (_ & _ & _ & ->)]; [by right | by left].
Qed.

End AnswerProperties.

Lemma search_calls_read g question :
  Forall (fun c => is_read_call c = true) (search_calls g question).
Proof.
  unfold search_calls. constructor; [done |]. apply Forall_app. split.
  - apply Forall_fmap, Forall_true. done.
  - unfold anchor_calls. destruct (anchor_key _); [| constructor].
    by repeat constructor.
Qed.

Lemma filter_none {A} (p q : A → bool) (l : list A) :
  Forall (fun x => q x = true) l → (∀ x, q x = true → p x = false) →
  List.filter p l = [].
Proof.
  intros Hl Hpq. induction Hl as [|x l Hx Hl IH]; [done |].
  simpl. by rewrite (Hpq x Hx).
Qed.

Lemma filter_all {A} (p q : A → bool) (l : list A) :
  Forall (fun x => q x = true) l → (∀ x, q x = true → p x = true) →
  List.filter p l = l.
Proof.
  intros Hl Hpq. induction Hl as [|x l Hx Hl IH]; [done |].
  simpl. by rewrite (Hpq x Hx), IH.
Qed.

Lemma prefix_Forall {A} (P : A → Prop) (l1 l2 : list A) :
  l1 `prefix_of` l2 → Forall P l2 → Forall P l1.
Proof. intros [k ->] H. by apply Forall_app in H as [? _]. Qed.

Section AnswerTheorems.

Variable round3 : float -> float.
Variable str_of_float : float -> string.
Variable format_money : pynum -> string.

(** The calls of [answer], part by part, whether it returns or raises. *)
Lemma answer_calls self question n_results include_graph w :
  let r := answer round3 str_of_float format_money self question n_results
             include_graph w in
  ∃ graph_made model_made,
    r.2 = advance ([CallSearch question n_results] ++ graph_made ++ model_made) w
    ∧ Forall (fun c => is_read_call c = true) graph_made
    ∧ (include_graph && driver self = false → graph_made = [])
    ∧ (model_made = []
       ∨ ∃ prompt, model_made = [CallGenerate (llm_model self) prompt])
    ∧ ((∃ result, r.1 = Ok result)
       ∨ (∃ e, r.1 = Raise e ∧ model_made = []
               ∧ include_graph && driver self = true
               ∧ first_unrendered (matched_entities (w_graph w) question)
                 ≠ None)).
Proof.
  intros r. subst r.
  destruct (answer_run round3 str_of_float format_money self question n_results
              include_graph w)
    as (evidence & entities & paths & gm & _ & _ & Hg & Hrun).
  assert (Hread : Forall (fun c => is_read_call c = true) gm).
  { destruct Hg as [(_ & -> & _) | (_ & Hpre & _)]; [constructor |].
    eapply prefix_Forall; [exact Hpre | apply search_calls_read]. }
  assert (Hoff : include_graph && driver self = false → gm = []).
  { intros Hflag. destruct Hg as [(_ & -> & _) | (Hflag' & _)];
      [done | congruence]. }
  destruct Hrun as [(e & Hctx & ->)
                   | (context & text & citations & mm & Hctx & -> & Hm)].
  - exists gm, []. rewrite app_nil_r. split; [done |].
    split; [done |]. split; [done |]. split; [by left |]. right.
    exists e. split; [done |]. split; [done |].
    assert (Hnone : first_unrendered entities ≠ None).
    { intros Hnone.
      apply (build_context_raises str_of_float format_money evidence) in Hnone
        as [context Hok]. congruence. }
    destruct Hg as [(_ & _ & -> & _) | (Hflag & _ & _ & _ & [-> | ->])];
      [done | done | done].
  - exists gm, mm. split; [done |]. split; [done |]. split; [done |]. split.
    + destruct Hm as [(_ & _ & -> & _) | (_ & -> & _)];
        [by left | right; by eexists].
    + left. by eexists.
Qed.

(** X9. Answering a question never writes: whether it returns or raises,
    the graph is left as it was and no node or edge upsert is issued; the
    first call is the vector search for the question, and the generative
    model is called at most once, as the last call and with the
    configured model. It raises only out of context assembly, when the
    graph was searched and one of the first five companies matched has a
    description that cannot be cut or an amount that cannot be formatted,
    and then without calling the model; when all of them can be rendered,
    and when the graph is left out, it returns. *)
Theorem answer_read_only self question n_results include_graph w :
  let r := answer round3 str_of_float format_money self question n_results
             include_graph w in
  w_graph r.2 = w_graph w
  ∧ List.filter is_write_call (new_calls w r.2) = []
  ∧ head (new_calls w r.2) = Some (CallSearch question n_results)
  ∧ length (List.filter is_generate_call (new_calls w r.2)) ≤ 1
  ∧ (∀ model prompt,
       CallGenerate model prompt ∈ new_calls w r.2 →
       model = llm_model self
       ∧ last (new_calls w r.2) = Some (CallGenerate model prompt))
  ∧ (∀ e, r.1 = Raise e →
       List.filter is_generate_call (new_calls w r.2) = []
       ∧ include_graph && driver self = true
       ∧ first_unrendered (matched_entities (w_graph w) question) ≠ None)
  ∧ (include_graph && driver self = false
     ∨ first_unrendered (matched_entities (w_graph w) question) = None →
     ∃ result, r.1 = Ok result).
Proof.
  intros r. subst r.
  destruct (answer_calls self question n_results include_graph w)
    as (gm & mm & Hw & Hread & _ & Hmm & Hres).
  rewrite Hw. cbn [fst snd]. rewrite new_calls_advance.
  split; [done |].
  assert (Hgw : List.filter is_write_call gm = [])
    by (eapply filter_none; [exact Hread | by intros []]).
  assert (Hgg : List.filter is_generate_call gm = [])
    by (eapply filter_none; [exact Hread | by intros []]).
  split.
  { cbn [app List.filter is_write_call]. rewrite List.filter_app, Hgw.
    destruct Hmm as [-> | [p ->]]; done. }
  split; [done |]. split.
  { cbn [app List.filter is_generate_call]. rewrite List.filter_app, Hgg.
    destruct Hmm as [-> | [p ->]]; simpl; lia. }
  split.
  { intros model prompt Hin.
    apply elem_of_cons in Hin as [? | Hin]; [done |].
    apply elem_of_app in Hin as [Hin | Hin].
    { exfalso. assert (Hf : CallGenerate model prompt
                             ∈ List.filter is_generate_call gm)
        by (by apply list_elem_of_In, List.filter_In; split;
            [apply list_elem_of_In |]).
      rewrite Hgg in Hf. by apply elem_of_nil in Hf. }
    destruct Hmm as [-> | [p ->]]; [by apply elem_of_nil in Hin |].
    apply list_elem_of_singleton in Hin as [= -> ->]. split; [done |].
    rewrite app_assoc. apply last_snoc. }
  split.
  - intros e He.
    destruct Hres as [[result Hok] | (e' & _ & -> & Hflag & Hbad)];
      [congruence |].
    cbn [app List.filter is_generate_call]. rewrite List.filter_app, Hgg.
    done.
  - intros Hfine.
    destruct Hres as [Hok | (e' & _ & _ & Hflag & Hbad)]; [done |].
    destruct Hfine as [Hoff | Hnone]; congruence.
Qed.

(** X10. When the caller opts out of the graph, or when there is no
    connection, answering makes no call to the graph store at all and
    reports no path and no graph entity. *)
Theorem answer_without_graph self question n_results include_graph w :
  include_graph = false ∨ driver self = false →
  let r := answer round3 str_of_float format_money self question n_results
             include_graph w in
  List.filter is_graph_call (new_calls w r.2) = []
  ∧ ∃ result,
      r.1 = Ok result
      ∧ ar_graph_paths result = []
      ∧ graph_entities (ar_sources result) = 0.
Proof.
  intros Hoff r. subst r.
  assert (Hflag : include_graph && driver self = false)
    by (destruct Hoff as [-> | ->]; [done | apply andb_false_r]).
  destruct (answer_run round3 str_of_float format_money self question n_results
              include_graph w)
    as (evidence & entities & paths & gm & _ & _ & Hg & Hrun).
  destruct Hg as [(_ & -> & -> & ->) | (Hflag' & _)]; [| congruence].
  destruct Hrun as [(e & Hctx & _)
                   | (context & text & citations & mm & _ & -> & Hm)].
  { exfalso.
    destruct (proj1 (build_context_raises str_of_float format_money evidence []))
      as [context Hok]; [done | congruence]. }
  cbn [fst snd]. rewrite new_calls_advance. split.
  - destruct Hm as [(_ & _ & -> & _) | (_ & -> & _)]; done.
  - by eexists.
Qed.

Lemma length_citations_spec vector_results :
  length (citations_spec round3 vector_results) ≤ length vector_results.
Proof.
  unfold citations_spec. rewrite length_fmap. apply length_filter.
Qed.

(** X11. A result that is returned echoes the question, and its counts
    are those of the retrieval before any capping: the number of vector
    results is the number of evidence items vector search returned, at
    most the number of documents the store returned; when the graph is
    searched the number of graph entities is the number of entities graph
    search returned and the paths are its paths, and otherwise there is
    none; there are at most as many citations as vector results, at most
    fifteen graph entities and at most ten graph paths. *)
Theorem answer_counts self question n_results include_graph w result :
  (answer round3 str_of_float format_money self question n_results
     include_graph w).1 = Ok result →
  ar_question result = question
  ∧ (∃ evidence,
       (_vector_search question n_results w).1 = Ok evidence
       ∧ vector_results (ar_sources result) = length evidence)
  ∧ (∃ entities paths,
       ((if include_graph && driver self
         then _graph_search self question else mret ([], []))
          (_vector_search question n_results w).2).1
       = Ok (entities, paths)
       ∧ graph_entities (ar_sources result) = length entities
       ∧ ar_graph_paths result = paths)
  ∧ length (ar_citations result) ≤ vector_results (ar_sources result)
  ∧ vector_results (ar_sources result)
    ≤ length (default [] (documents (w_search w question n_results)))
  ∧ graph_entities (ar_sources result) ≤ 15
  ∧ length (ar_graph_paths result) ≤ 10.
Proof.
  destruct (answer_run round3 str_of_float format_money self question n_results
              include_graph w)
    as (evidence & entities & paths & gm & Hev & Hgrun & Hg & Hrun).
  destruct Hrun as [(e & _ & ->)
                   | (context & text & citations & mm & _ & -> & Hm)];
    [done |].
  intros [= <-]. cbn [ar_question ar_citations ar_sources
    vector_results graph_entities ar_graph_paths].
  split; [done |]. split; [| split; [| split; [| split; [| split]]]].
  - exists evidence. rewrite vector_search_run. cbn [fst]. by rewrite <- Hev.
  - exists entities, paths. rewrite vector_search_run. cbn [snd].
    rewrite Hgrun. done.
  - destruct Hm as [(_ & _ & _ & _ & ->) | (_ & _ & [-> | ->])]; simpl; try lia.
    apply length_citations_spec.
  - subst evidence. destruct (w_fault w (length (w_log w))); simpl; [lia |].
    unfold found_evidence. rewrite length_fmap, length_zip3. lia.
  - destruct Hg as [(_ & _ & -> & _) | (_ & _ & ? & _)]; simpl; lia.
  - destruct Hg as [(_ & _ & _ & ->) | (_ & _ & _ & ? & _)]; simpl; lia.
Qed.

(** X12. When answering returns, the generative model was left out
    exactly when both retrievals came back empty: the answer is then the
    fixed refusal, without citation; with one vector result or one graph
    entity the model was called once, with the configured model. When
    answering raises, out of context assembly, the model was not called
    although there was graph evidence. *)
Theorem answer_refusal_iff self question n_results include_graph w :
  let r := answer round3 str_of_float format_money self question n_results
             include_graph w in
  (∀ result, r.1 = Ok result →
     (List.filter is_generate_call (new_calls w r.2) = []
      ↔ vector_results (ar_sources result) = 0
        ∧ graph_entities (ar_sources result) = 0)
     ∧ (vector_results (ar_sources result) = 0
        ∧ graph_entities (ar_sources result) = 0
        → ar_answer result = REFUSAL ∧ ar_citations result = [])
     ∧ (vector_results (ar_sources result) ≠ 0
        ∨ graph_entities (ar_sources result) ≠ 0
        → ∃ prompt,
            List.filter is_generate_call (new_calls w r.2)
            = [CallGenerate (llm_model self) prompt]))
  ∧ length (List.filter is_generate_call (new_calls w r.2)) ≤ 1
  ∧ (∀ e, r.1 = Raise e →
       List.filter is_generate_call (new_calls w r.2) = []
       ∧ first_unrendered (matched_entities (w_graph w) question) ≠ None)
  ∧ (first_unrendered (matched_entities (w_graph w) question) = None →
     ∃ result, r.1 = Ok result).
Proof.
  intros r. subst r.
  destruct (answer_run round3 str_of_float format_money self question n_results
              include_graph w)
    as (evidence & entities & paths & gm & _ & _ & Hg & Hrun).
  assert (Hgg : List.filter is_generate_call gm = []).
  { destruct Hg as [(_ & -> & _) | (_ & Hpre & _)]; [done |].
    apply (filter_none _ is_read_call); [| by intros []].
    eapply prefix_Forall; [exact Hpre | apply search_calls_read]. }
  destruct Hrun as [(e & Hctx & ->)
                   | (context & text & citations & mm & Hctx & -> & Hm)];
    cbn [fst snd]; rewrite new_calls_advance;
    cbn [app List.filter is_generate_call]; rewrite ?List.filter_app, Hgg.
  - split; [done |]. split; [simpl; lia |].
    assert (Hbad : first_unrendered entities ≠ None).
    { intros Hnone.
      apply (build_context_raises str_of_float format_money evidence) in Hnone
        as [context Hok]. congruence. }
    assert (Hm : entities = matched_entities (w_graph w) question).
    { destruct Hg as [(_ & _ & -> & _) | (_ & _ & _ & _ & [-> | ->])]; done. }
    rewrite <- Hm. split; [done |]. intros Hnone. done.
  - split.
    + intros result [= <-].
      cbn [ar_sources vector_results graph_entities ar_answer ar_citations].
      destruct Hm as [(-> & -> & -> & -> & ->) | (Hsome & -> & _)].
      * repeat split; simpl; try done. intros [? | ?]; done.
      * split; [| split].
        -- split; [done |]. intros [Hv He].
           apply length_zero_iff_nil in Hv. apply length_zero_iff_nil in He.
           destruct Hsome; done.
        -- intros [Hv He].
           apply length_zero_iff_nil in Hv. apply length_zero_iff_nil in He.
           destruct Hsome; done.
        -- intros _. by eexists.
    + split; [| split; [done | intros _; by eexists]].
      destruct Hm as [(_ & _ & -> & _) | (_ & -> & _)]; simpl; lia.
Qed.

End AnswerTheorems.

(** ** Ingestion, whatever fails *)

Lemma filter_same {A} (p q : A → bool) (l : list A) :
  (∀ x, x ∈ l → p x = q x) → List.filter p l = List.filter q l.
Proof.
  intros H. apply List.filter_ext_in. intros x Hx. by apply H, list_elem_of_In.
Qed.

Lemma forallb_elem {A} (p : A → bool) (l : list A) x :
  forallb p l = true → x ∈ l → p x = true.
Proof.
  intros Hall Hx. by apply (proj1 (forallb_forall p l) Hall), list_elem_of_In.
Qed.

(** In a batch where every record that reaches an upsert does so with a
    plain identifier, the records with a plain identifier are the records
    with a name. *)
Lemma plain_batch_counts extraction_results :
  plain_batch extraction_results = true →
  plain_entities extraction_results = named_entities extraction_results
  ∧ plain_relations extraction_results = named_relations extraction_results.
Proof.
  unfold plain_batch, plain_entities, named_entities, plain_relations,
    named_relations.
  induction extraction_results as [|result rest IH]; [done |].
  cbn [forallb flat_map]. intros [Hres Hrest]%andb_true_iff.
  destruct (IH Hrest) as [He Hr]. rewrite !length_app, He, Hr.
  unfold plain_extraction in Hres. apply andb_true_iff in Hres as [Hents Hrels].
  split; f_equal; f_equal; apply filter_same; intros x Hx.
  - pose proof (forallb_elem _ _ x Hents Hx) as Hp. cbv beta in Hp.
    unfold plain_entity in *. by destruct (named_entity x).
  - pose proof (forallb_elem _ _ x Hrels Hx) as Hp. cbv beta in Hp.
    unfold plain_relation in *. by destruct (named_relation x).
Qed.

Lemma plain_batch_string_labels extraction_results :
  plain_batch extraction_results = true →
  string_labels extraction_results = true.
Proof.
  unfold plain_batch, string_labels. intros Hall.
  apply forallb_forall. intros result Hres.
  pose proof (proj1 (forallb_forall _ _) Hall result Hres) as Hp.
  unfold plain_extraction in Hp. apply andb_true_iff in Hp as [_ Hrels].
  unfold extraction_ok. apply forallb_forall. intros rel Hrel.
  pose proof (proj1 (forallb_forall _ _) Hrels rel Hrel) as Hr. cbv beta in Hr.
  unfold relation_ok, plain_relation in *.
  destruct (named_relation rel); [| done].
  by destruct (string_label rel).
Qed.

(** X13. On a store that does not fail, for a batch whose relation labels
    are strings, ingestion returns counts that lie between the number of
    records whose label, or relationship type, is a plain identifier and
    the number of records with a name, or with both end points: a record
    with a plain identifier is counted whatever the store made of the
    records before it, and whether or not it creates anything. When every
    label and relationship type is a plain identifier, the counts are the
    numbers of records with a name and with both end points. *)
Theorem ingest_counts self extraction_results w :
  driver self = true → fault_free w →
  string_labels extraction_results = true →
  ∃ entities_added relations_added,
    (add_entities_to_graph self extraction_results w).1
    = Ok (IngestCounts entities_added relations_added)
    ∧ plain_entities extraction_results ≤ entities_added
      ≤ named_entities extraction_results
    ∧ plain_relations extraction_results ≤ relations_added
      ≤ named_relations extraction_results
    ∧ (plain_batch extraction_results = true →
       entities_added = named_entities extraction_results
       ∧ relations_added = named_relations extraction_results).
Proof.
  intros Hd Hff Hlabels. unfold add_entities_to_graph. rewrite Hd. cbn [negb].
  destruct (for_each_extraction_counted extraction_results (0, 0)
              (advance [CallSession] w) Hlabels)
    as (counts & w' & Hrun & He & Hr & Hsure).
  destruct Hsure as [Hse Hsr]; [by apply fault_free_advance |].
  exists counts.1, counts.2. cbn [fst snd] in *. split; [| split; [| split]].
  - erewrite bind_ok by (by apply call_ok, fault_free_now).
    erewrite bind_ok by exact Hrun. done.
  - lia.
  - lia.
  - intros Hplain. destruct (plain_batch_counts _ Hplain) as [Hpe Hpr]. lia.
Qed.





Lemma extends_refl g : extends g g.
Proof. by split. Qed.

Lemma extends_trans g1 g2 g3 : extends g1 g2 → extends g2 g3 → extends g1 g3.
Proof. intros [? ?] [? ?]. split; by etrans. Qed.

Lemma node_key_restamp label name source now n :
  node_key (if Cypher.node_matches label name n
            then Cypher.stamp_node source now n else n)
  = node_key n.
Proof.
  destruct (Cypher.node_matches label name n); [| done].
  unfold node_key, Cypher.stamp_node. simpl. by rewrite !lookup_insert_ne.
Qed.

Lemma edge_key_restamp (c : bool) now e :
  edge_key (if c then Cypher.stamp_edge now e else e) = edge_key e.
Proof. by destruct c. Qed.

Lemma fmap_key_stable {A K} (key : A → K) (f : A → A) (l : list A) :
  (∀ x, key (f x) = key x) → key <$> (f <$> l) = key <$> l.
Proof.
  intros Hk. rewrite <- list_fmap_compose. apply list_fmap_ext.
  intros i x _. apply Hk.
Qed.

Lemma extends_merge_node label name source now g :
  extends g (Cypher.merge_node label name source now g).
Proof.
  unfold extends, Cypher.merge_node. cbn [g_nodes g_edges]. split; [| done].
  rewrite fmap_key_stable by (intros; apply node_key_restamp).
  destruct (existsb _ (g_nodes g)); [done |].
  rewrite fmap_app. by apply prefix_app_r.
Qed.

Lemma merge_edge_between_keys reltype now es p :
  (edge_key <$> es)
  `prefix_of` (edge_key <$> Cypher.merge_edge_between reltype now es p).
Proof.
  unfold Cypher.merge_edge_between.
  rewrite fmap_key_stable by (intros; apply edge_key_restamp).
  destruct (existsb _ es); [done |].
  rewrite fmap_app. by apply prefix_app_r.
Qed.

Lemma extends_merge_edge reltype source target now g :
  extends g (Cypher.merge_edge reltype source target now g).
Proof.
  unfold extends, Cypher.merge_edge. cbn [g_nodes g_edges]. split; [done |].
  generalize (list_prod
                (Cypher.positions (Cypher.prop_is "name" (VStr source)) g)
                (Cypher.positions (Cypher.prop_is "name" (VStr target)) g)).
  generalize (g_edges g). intros es pairs.
  revert es; induction pairs as [|p pairs IH]; intros es; [done |].
  simpl. etrans; [apply merge_edge_between_keys | apply IH].
Qed.

Lemma grows_ret {A} (a : A) : grows (mret a).
Proof. intros w. apply extends_refl. Qed.

Lemma grows_call c : grows (call c).
Proof.
  intros w. unfold call. destruct (w_fault w (length (w_log w)));
    apply extends_refl.
Qed.

Lemma grows_bind {A B} (m : M A) (f : A → M B) :
  grows m → (∀ a, grows (f a)) → grows (m ≫= f).
Proof.
  intros Hm Hf w. unfold mbind, M_bind. specialize (Hm w).
  destruct (m w) as [[a|e] w1]; simpl in *; [| done].
  eapply extends_trans; [exact Hm | apply Hf].
Qed.

Lemma grows_try {A} (m : M A) (h : exn → M A) :
  grows m → (∀ e, grows (h e)) → grows (try_except m h).
Proof.
  intros Hm Hh w. unfold try_except. specialize (Hm w).
  destruct (m w) as [[a|e] w1]; simpl in *; [done |].
  eapply extends_trans; [exact Hm | apply Hh].
Qed.

Lemma grows_for_each {A S} (body : A → S → M S) (ok : A → bool) xs s :
  (∀ x s, ok x = true → grows (body x s)) →
  forallb ok xs = true →
  grows (for_each body xs s).
Proof.
  intros Hbody. revert s; induction xs as [|x xs IH]; intros s Hall.
  - apply grows_ret.
  - simpl in Hall. apply andb_true_iff in Hall as [Hx Hxs].
    simpl. apply grows_bind; [by apply Hbody | intros; by apply IH].
Qed.

Lemma grows_merge_node label name source :
  Cypher.name_ok label = true →
  grows (session_run_merge_node label name source).
Proof.
  intros Hok. unfold session_run_merge_node.
  apply grows_bind; [apply grows_call |].
  intros _ w. rewrite Hok. apply extends_merge_node.
Qed.

Lemma grows_merge_edge reltype t source target :
  Cypher.plain_name reltype = Some t →
  grows (session_run_merge_edge reltype source target).
Proof.
  intros Hok. unfold session_run_merge_edge.
  apply grows_bind; [apply grows_call |].
  intros _ w. rewrite Hok. apply extends_merge_edge.
Qed.

Lemma grows_add_entity source entity added :
  negb (named_entity entity) || plain_entity entity = true →
  grows (add_entity source entity added).
Proof.
  unfold add_entity, plain_entity, named_entity. intros Hp.
  destruct (PyStr.truthy (default "" (er_name entity))); cbn [negb];
    [| apply grows_ret].
  simpl in Hp. apply grows_try; [| intros; apply grows_ret].
  apply grows_bind; [by apply grows_merge_node | intros; apply grows_ret].
Qed.

Lemma grows_add_relation rel added :
  negb (named_relation rel) || plain_relation rel = true →
  grows (add_relation rel added).
Proof.
  intros Hp w. destruct (named_relation rel) eqn:Hn; simpl in Hp.
  - apply plain_relation_name in Hp as (_ & Hstr & t & Ht).
    rewrite (add_relation_string rel added w Hn Hstr).
    revert w. apply grows_try; [| intros; apply grows_ret].
    apply grows_bind; [by apply (grows_merge_edge _ t) | intros; apply grows_ret].
  - rewrite add_relation_skips by done. apply extends_refl.
Qed.

(** X15. In a batch where every label and every relationship type that
    reaches an upsert is a plain identifier, ingestion only ever adds to
    the graph, whatever fails on the way: after the call every node that
    was there is at the same position with its labels and its name,
    every edge that was there is at the same position with its end
    points and its type. *)
Theorem ingest_only_grows self extraction_results w :
  plain_batch extraction_results = true →
  extends (w_graph w)
    (w_graph (add_entities_to_graph self extraction_results w).2).
Proof.
  intros Hplain. revert w.
  change (grows (add_entities_to_graph self extraction_results)).
  unfold add_entities_to_graph.
  destruct (negb (driver self)); [apply grows_ret |].
  apply grows_bind; [apply grows_call |]. intros _.
  apply grows_bind; [| intros; apply grows_ret].
  apply (grows_for_each _ plain_extraction); [| exact Hplain].
  intros result counts [Hents Hrels]%andb_true_iff. unfold add_extraction.
  apply grows_bind.
  - apply (grows_for_each _ _ _ _ (fun x s => grows_add_entity _ x s) Hents).
  - intros added_entities. apply grows_bind; [| intros; apply grows_ret].
    apply (grows_for_each _ _ _ _ (fun x s => grows_add_relation x s) Hrels).
Qed.

Lemma list_prod_nil_r {A B} (l : list A) : list_prod l (@nil B) = [].
Proof. induction l as [|x l IH]; [done |]. simpl. by rewrite IH. Qed.

Lemma merge_edge_no_pair reltype source target now g :
  Cypher.positions (Cypher.prop_is "name" (VStr source)) g = []
  ∨ Cypher.positions (Cypher.prop_is "name" (VStr target)) g = [] →
  Cypher.merge_edge reltype source target now g = g.
Proof.
  intros Hnone. unfold Cypher.merge_edge.
  assert (Hp : list_prod
                 (Cypher.positions (Cypher.prop_is "name" (VStr source)) g)
                 (Cypher.positions (Cypher.prop_is "name" (VStr target)) g) = [])
    by (destruct Hnone as [-> | ->]; [done | apply list_prod_nil_r]).
  rewrite Hp. by destruct g.
Qed.

(** X16. A relation whose source or target names no node of the graph is
    counted as added although nothing is: on a store that does not fail,
    for a record without label or with a label that gives a plain
    identifier, the call returns one relation added and the graph is what
    it was. *)
Theorem relation_without_nodes_counted self w source target label reltype :
  driver self = true → fault_free w →
  PyStr.truthy source = true → PyStr.truthy target = true →
  Cypher.plain_name
    (match label with
     | None => PyStr.widen "RELATED_TO"
     | Some l => normalized l
     end) = Some reltype →
  Cypher.positions (Cypher.prop_is "name" (VStr source)) (w_graph w) = []
  ∨ Cypher.positions (Cypher.prop_is "name" (VStr target)) (w_graph w) = [] →
  let r := add_entities_to_graph self (one_relation source target label) w in
  r.1 = Ok (IngestCounts 0 1) ∧ w_graph r.2 = w_graph w.
Proof.
  intros Hd Hff Hs Ht Hplain Hnone r. subst r.
  destruct (ingest_one_relation self w source target label reltype
              Hd Hff Hs Ht Hplain) as (now & w1 & -> & Hg & _).
  split; [done |]. cbn [snd]. rewrite Hg. by apply merge_edge_no_pair.
Qed.

Lemma fold_merge_existing reltype now pairs es :
  (∀ p, p ∈ pairs → existsb (Cypher.edge_matches p.1 reltype p.2) es = true) →
  edge_key <$> fold_left (Cypher.merge_edge_between reltype now) pairs es
  = edge_key <$> es.
Proof.
  revert es; induction pairs as [|p pairs IH]; intros es Hall; [done |].
  simpl. rewrite IH.
  - unfold Cypher.merge_edge_between.
    rewrite fmap_key_stable by (intros; apply edge_key_restamp).
    by rewrite (Hall p) by left.
  - intros q Hq. apply merge_edge_between_keeps, Hall. by right.
Qed.

(** Merging the same edge again adds no edge. *)
Lemma merge_edge_again reltype source target now now' g :
  let g1 := Cypher.merge_edge reltype source target now g in
  let g2 := Cypher.merge_edge reltype source target now' g1 in
  g_nodes g2 = g_nodes g1
  ∧ edge_key <$> g_edges g2 = edge_key <$> g_edges g1.
Proof.
  intros g1 g2. split; [done |].
  subst g2. unfold Cypher.merge_edge at 1. cbn [g_edges].
  apply fold_merge_existing. intros [i j] Hp.
  apply list_elem_of_In, in_prod_iff in Hp as [Hi Hj].
  apply (merge_edge_connects reltype source target now g);
    by apply list_elem_of_In.
Qed.

(** X17. Ingesting the same relation a second time adds no edge: on a
    store that does not fail, for a label that gives a plain identifier,
    the nodes and the end points and types of the edges are the same
    after the second call as after the first, every node named as source
    is linked to every node named as target, and each call reports one
    relation added. *)
Theorem relation_merge_again self w source target label reltype :
  driver self = true → fault_free w →
  PyStr.truthy source = true → PyStr.truthy target = true →
  Cypher.plain_name
    (match label with
     | None => PyStr.widen "RELATED_TO"
     | Some l => PyStr.replace_code 32 95 (PyStr.upper l)
     end) = Some reltype →
  let batch := one_relation source target label in
  let first := add_entities_to_graph self batch w in
  let second := add_entities_to_graph self batch first.2 in
  first.1 = Ok (IngestCounts 0 1)
  ∧ second.1 = Ok (IngestCounts 0 1)
  ∧ g_nodes (w_graph second.2) = g_nodes (w_graph first.2)
  ∧ edge_key <$> g_edges (w_graph second.2)
    = edge_key <$> g_edges (w_graph first.2)
  ∧ connected reltype source target (w_graph second.2).
Proof.
  intros Hd Hff Hs Ht Hplain batch first second.
  subst first second batch.
  assert (Hspec : Cypher.plain_name
                    (match label with
                     | None => PyStr.widen "RELATED_TO"
                     | Some l => normalized l
                     end) = Some reltype).
  { destruct label as [l|]; [| done]. by rewrite <- label_normalized. }
  destruct (ingest_one_relation self w source target label reltype
              Hd Hff Hs Ht Hspec) as (now & w1 & Hr1 & Hg1 & Hff1).
  rewrite Hr1 in *. cbn [fst snd] in *.
  destruct (ingest_one_relation self w1 source target label reltype
              Hd Hff1 Hs Ht Hspec) as (now' & w2 & -> & Hg2 & _).
  cbn [fst snd]. rewrite Hg2, Hg1.
  destruct (merge_edge_again reltype source target now now' (w_graph w))
    as [Hnodes Hedges].
  split; [done |]. split; [done |]. split; [done |]. split; [done |].
  apply merge_edge_connects.
Qed.

Lemma length_merge_node label name source now g :
  length (g_nodes (Cypher.merge_node label name source now g))
  = length (g_nodes g)
    + (if existsb (Cypher.node_matches label name) (g_nodes g) then 0 else 1).
Proof.
  unfold Cypher.merge_node. cbn [g_nodes]. rewrite length_fmap.
  destruct (existsb _ (g_nodes g)); [lia |]. by rewrite length_app.
Qed.

Lemma count_nodes_merge_other label name other name' source now g :
  (other, name') ≠ (label, name) →
  count_nodes other name' (Cypher.merge_node label name source now g)
  = count_nodes other name' g.
Proof.
  intros Hne. unfold count_nodes, Cypher.merge_node. cbn [g_nodes].
  rewrite filter_fmap_stable.
  2:{ intros n. destruct (Cypher.node_matches label name n); [| done].
      apply node_matches_stamp. }
  destruct (existsb _ (g_nodes g)); [done |].
  rewrite List.filter_app, length_app.
  assert (Hnew : Cypher.node_matches other name'
                   {| n_labels := [label]; n_props := {[ "name" := VStr name ]} |}
                 = false).
  { unfold Cypher.node_matches, Cypher.has_label, Cypher.prop_is. simpl.
    rewrite lookup_singleton_eq. simpl. rewrite orb_false_r.
    destruct (String.eqb_spec other label) as [-> |]; [| done].
    destruct (String.eqb_spec name name') as [-> |]; [| done].
    done. }
  simpl. rewrite Hnew. simpl. lia.
Qed.

(** X18. An entity is upserted under its label and its name together: on
    a store that does not fail, ingesting it adds one node when no node
    has that label and that name, and none otherwise; it never changes
    how many nodes there are for another label or another name, so the
    same name under another label gets a node of its own; and it leaves
    the edges alone. *)
Theorem entity_merge_keyed_by_label self w source name label :
  driver self = true → fault_free w →
  PyStr.truthy name = true → Cypher.name_ok label = true →
  let r := add_entities_to_graph self (one_entity source name label) w in
  length (g_nodes (w_graph r.2))
  = length (g_nodes (w_graph w))
    + (if existsb (Cypher.node_matches label name) (g_nodes (w_graph w))
       then 0 else 1)
  ∧ (∀ other name',
       (other, name') ≠ (label, name) →
       count_nodes other name' (w_graph r.2)
       = count_nodes other name' (w_graph w))
  ∧ g_edges (w_graph r.2) = g_edges (w_graph w).
Proof.
  intros Hd Hff Hname Hok r. subst r.
  destruct (ingest_one_entity self w source name label Hd Hff Hname Hok)
    as (now & w1 & -> & Hg & _).
  cbn [snd]. rewrite Hg. split; [apply length_merge_node |].
  split; [| done]. intros other name' Hne. by apply count_nodes_merge_other.
Qed.

(** ** Keywords *)

Lemma extract_keywords_tokens question :
  _extract_keywords question = List.filter is_keyword (tokens question).
Proof.
  unfold _extract_keywords, tokens.
  by rewrite !replace_char_delete, delete_chars_twice.
Qed.

Lemma split_from_chars p cur s w :
  PyStr.all_chars p cur = true → PyStr.all_chars p s = true →
  w ∈ PyStr.split_from cur s → PyStr.all_chars p w = true.
Proof.
  revert cur; induction s as [|c s IH]; intros cur Hcur Hs Hin; simpl in *.
  - destruct cur as [|a cur']; [by apply elem_of_nil in Hin |].
    apply list_elem_of_singleton in Hin as ->.
    unfold PyStr.rev. by rewrite all_chars_rev_onto, Hcur.
  - apply andb_true_iff in Hs as [Hc Hs].
    destruct (PyStr.isspace c).
    + destruct cur as [|a cur']; [by apply (IH "") |].
      apply elem_of_cons in Hin as [-> | Hin]; [| by apply (IH "")].
      unfold PyStr.rev. by rewrite all_chars_rev_onto, Hcur.
    + apply (IH (String c cur)); [| done | done]. simpl. by rewrite Hc, Hcur.
Qed.

Lemma delete_chars_plain s :
  PyStr.all_chars plain_char (delete_chars ["?"%char; ","%char] s) = true.
Proof.
  induction s as [|a s IH]; [done |]. cbn [delete_chars].
  destruct (existsb (Ascii.eqb a) ["?"%char; ","%char]) eqn:Ha; [done |].
  cbn [PyStr.all_chars]. unfold plain_char at 1. by rewrite Ha.
Qed.

Lemma delete_chars_keeps p cs s :
  PyStr.all_chars p s = true → PyStr.all_chars p (delete_chars cs s) = true.
Proof.
  induction s as [|a s IH]; [done |]. cbn [delete_chars PyStr.all_chars].
  intros [Ha Hs]%andb_true_iff.
  destruct (existsb (Ascii.eqb a) cs); [by apply IH |].
  cbn [PyStr.all_chars]. by rewrite Ha, IH.
Qed.

Lemma lower_char_idempotent c :
  PyStr.lower_char (PyStr.lower_char c) = PyStr.lower_char c.
Proof.
  destruct c as [[] [] [] [] [] [] [] []]; vm_compute; reflexivity.
Qed.

Lemma lower_lower_fixed s : PyStr.all_chars lower_fixed (PyStr.lower s) = true.
Proof.
  induction s as [|c s IH]; [done |]. simpl. rewrite IH.
  unfold lower_fixed. by rewrite lower_char_idempotent, Ascii.eqb_refl.
Qed.

Lemma lower_fixed_id s :
  PyStr.all_chars lower_fixed s = true → PyStr.lower s = s.
Proof.
  induction s as [|c s IH]; [done |]. simpl.
  intros [Hc Hs]%andb_true_iff. apply Ascii.eqb_eq in Hc.
  by rewrite Hc, IH.
Qed.

(** The shape of a keyword. *)
Lemma keyword_shape question w :
  w ∈ _extract_keywords question →
  is_keyword w = true
  ∧ PyStr.all_chars not_space w = true
  ∧ PyStr.all_chars plain_char w = true
  ∧ PyStr.all_chars lower_fixed w = true.
Proof.
  rewrite extract_keywords_tokens. intros Hin.
  apply list_elem_of_In, List.filter_In in Hin as [Hin Hkw].
  apply list_elem_of_In in Hin. unfold tokens, PyStr.split in Hin.
  split; [exact Hkw |]. split; [| split].
  - by destruct (split_from_tokens "" _ w eq_refl Hin) as [_ ?].
  - exact (split_from_chars plain_char "" _ w eq_refl
             (delete_chars_plain (PyStr.lower question)) Hin).
  - refine (split_from_chars lower_fixed "" _ w eq_refl _ Hin).
    apply delete_chars_keeps, lower_lower_fixed.
Qed.

(** X19. Every keyword is in normal form: it holds no whitespace, no
    question mark and no comma, it is its own lower case, it is longer
    than two characters and it is not a stopword. *)
Theorem keywords_normal question w :
  w ∈ _extract_keywords question →
  PyStr.all_chars not_space w = true
  ∧ PyStr.all_chars plain_char w = true
  ∧ PyStr.lower w = w
  ∧ 2 < String.length w
  ∧ w ∉ stopwords.
Proof.
  intros Hin. apply keyword_shape in Hin as (Hkw & Hsp & Hpl & Hlo).
  apply is_keyword_spec in Hkw as [Hstop Hlen].
  repeat split; try done. by apply lower_fixed_id.
Qed.

Lemma rev_onto_append s acc t :
  PyStr.rev_onto s acc +:+ t = PyStr.rev_onto s (acc +:+ t).
Proof.
  revert acc; induction s as [|c s IH]; intros acc; [done |].
  simpl. by rewrite IH, append_cons.
Qed.

Lemma rev_onto_rev_onto s acc acc' :
  PyStr.rev_onto (PyStr.rev_onto s acc) acc'
  = PyStr.rev_onto acc (s +:+ acc').
Proof.
  revert acc acc'; induction s as [|c s IH]; intros acc acc'; [done |].
  simpl. rewrite IH. simpl. by rewrite append_cons.
Qed.

Lemma rev_rev_onto k cur :
  PyStr.rev (PyStr.rev_onto k cur) = PyStr.rev cur +:+ k.
Proof.
  unfold PyStr.rev. rewrite rev_onto_rev_onto, rev_onto_append.
  f_equal. rewrite append_empty_l.
  induction k as [|c k IH]; [done |]. by rewrite append_cons, IH.
Qed.

Lemma split_from_word cur k rest :
  PyStr.all_chars not_space k = true →
  PyStr.split_from cur (k +:+ rest)
  = PyStr.split_from (PyStr.rev_onto k cur) rest.
Proof.
  revert cur; induction k as [|c k IH]; intros cur Hk; [done |].
  rewrite append_cons. simpl in *. apply andb_true_iff in Hk as [Hc Hk].
  unfold not_space in Hc. apply negb_true_iff in Hc. rewrite Hc. by apply IH.
Qed.

Lemma split_from_end cur :
  cur ≠ "" → PyStr.split_from cur "" = [PyStr.rev cur].
Proof. by destruct cur. Qed.

Lemma split_from_space cur rest :
  cur ≠ "" →
  PyStr.split_from cur (String " " rest)
  = PyStr.rev cur :: PyStr.split_from "" rest.
Proof. by destruct cur. Qed.

Lemma split_join (ks : list string) :
  Forall (fun k => k ≠ "" ∧ PyStr.all_chars not_space k = true) ks →
  PyStr.split (PyStr.join " " ks) = ks.
Proof.
  unfold PyStr.split. induction 1 as [|k ks [Hne Hk] Hks IH]; [done |].
  rewrite join_cons.
  assert (Hrev : PyStr.rev_onto k "" ≠ "").
  { intros Hr. apply (f_equal String.length) in Hr.
    rewrite length_rev_onto in Hr. simpl in Hr.
    destruct k; [done | simpl in Hr; lia]. }
  assert (Hback : PyStr.rev (PyStr.rev_onto k "") = k)
    by (by rewrite rev_rev_onto).
  rewrite split_from_word by done.
  destruct ks as [|k' ks].
  - by rewrite split_from_end, Hback.
  - rewrite append_cons, append_empty_l, split_from_space, Hback by done.
    f_equal. exact IH.
Qed.

Lemma all_chars_join p (ks : list string) :
  p " "%char = true →
  Forall (fun k => PyStr.all_chars p k = true) ks →
  PyStr.all_chars p (PyStr.join " " ks) = true.
Proof.
  intros Hsp. induction 1 as [|k ks Hk Hks IH]; [done |].
  rewrite join_cons, all_chars_append, Hk. cbn [andb].
  destruct ks as [|k' ks]; [done |].
  rewrite all_chars_append, IH. cbn [PyStr.all_chars]. by rewrite Hsp.
Qed.

Lemma delete_chars_id s :
  PyStr.all_chars plain_char s = true →
  delete_chars ["?"%char; ","%char] s = s.
Proof.
  induction s as [|a s IH]; [done |]. cbn [delete_chars PyStr.all_chars].
  intros [Ha Hs]%andb_true_iff. unfold plain_char in Ha.
  apply negb_true_iff in Ha. rewrite Ha. by rewrite IH.
Qed.

Lemma filter_filter_same {A} (p : A → bool) (l : list A) :
  List.filter p (List.filter p l) = List.filter p l.
Proof.
  induction l as [|x l IH]; [done |]. simpl.
  destruct (p x) eqn:Hp; simpl; by rewrite ?Hp, IH.
Qed.

(** X20. Keyword extraction is stable: joining the keywords of a question
    with spaces and extracting again gives the same keywords, in the same
    order. *)
Theorem extract_keywords_stable question :
  _extract_keywords (PyStr.join " " (_extract_keywords question))
  = _extract_keywords question.
Proof.
  assert (Hshape : Forall (fun w =>
            is_keyword w = true
            ∧ PyStr.all_chars not_space w = true
            ∧ PyStr.all_chars plain_char w = true
            ∧ PyStr.all_chars lower_fixed w = true)
            (_extract_keywords question)).
  { apply Forall_forall. intros w Hin. by apply (keyword_shape question). }
  rewrite (extract_keywords_tokens (PyStr.join " " (_extract_keywords question))).
  unfold tokens at 1.
  rewrite lower_fixed_id.
  2:{ apply all_chars_join; [done |].
      eapply Forall_impl; [exact Hshape | by intros w (_ & _ & _ & ?)]. }
  rewrite delete_chars_id.
  2:{ apply all_chars_join; [done |].
      eapply Forall_impl; [exact Hshape | by intros w (_ & _ & ? & _)]. }
  rewrite split_join.
  2:{ eapply Forall_impl; [exact Hshape |]. intros w (Hkw & Hsp & _ & _).
      split; [| done]. intros ->. done. }
  rewrite extract_keywords_tokens. apply filter_filter_same.
Qed.

(** ** The HTTP layer *)

(** Induction on a JSON value, with the hypothesis for every item of a
    list and every value of a dict. *)
Lemma json_nested_ind (P : json → Prop) :
  P JNull → (∀ b, P (JBool b)) → (∀ z, P (JInt z)) → (∀ f, P (JFloat f)) →
  (∀ s, P (JStr s)) →
  (∀ items, Forall P items → P (JList items)) →
  (∀ fields, Forall (fun kv => P kv.2) fields → P (JDict fields)) →
  ∀ data, P data.
Proof.
  intros Hnull Hbool Hint Hfloat Hstr Hlist Hdict.
  fix IH 1. intros [| b | z | f | s | items | fields].
  - exact Hnull.
  - apply Hbool.
  - apply Hint.
  - apply Hfloat.
  - apply Hstr.
  - apply Hlist. revert items. fix IHitems 1. intros [|item items].
    + constructor.
    + constructor; [apply IH | apply IHitems].
  - apply Hdict. revert fields. fix IHfields 1. intros [|[key value] fields].
    + constructor.
    + constructor; [apply IH | apply IHfields].
Qed.

Lemma clean_nan_finite data : finite_json (clean_nan data) = true.
Proof.
  induction data as [| b | z | f | s | items IH | fields IH]
    using json_nested_ind; try done.
  - simpl. by destruct (PrimFloat.is_nan f || PrimFloat.is_infinity f) eqn:Hf;
      simpl; rewrite ?Hf.
  - simpl. induction IH as [|item items Hitem _ IHitems]; [done |].
    simpl. by rewrite Hitem, IHitems.
  - simpl. induction IH as [|[key value] fields Hvalue _ IHfields]; [done |].
    simpl in *. by rewrite Hvalue, IHfields.
Qed.

Lemma clean_nan_fixed data : clean_nan data = data ↔ finite_json data = true.
Proof.
  induction data as [| b | z | f | s | items IH | fields IH]
    using json_nested_ind; try done.
  - simpl. destruct (PrimFloat.is_nan f || PrimFloat.is_infinity f); done.
  - simpl. split.
    + intros [= Heq]. induction IH as [|item items Hitem _ IHitems]; [done |].
      simpl in *. inversion Heq as [[Hi Hrest]].
      rewrite Hi, Hrest. apply andb_true_iff. split; [by apply Hitem | by apply IHitems].
    + intros Hfin. f_equal.
      induction IH as [|item items Hitem _ IHitems]; [done |].
      simpl in *. apply andb_true_iff in Hfin as [Hi Hrest].
      f_equal; [by apply Hitem | by apply IHitems].
  - simpl. split.
    + intros [= Heq].
      induction IH as [|[key value] fields Hvalue _ IHfields]; [done |].
      simpl in *. inversion Heq as [[Hv Hrest]].
      rewrite Hv, Hrest. apply andb_true_iff.
      split; [by apply Hvalue | by apply IHfields].
    + intros Hfin. f_equal.
      induction IH as [|[key value] fields Hvalue _ IHfields]; [done |].
      simpl in *. apply andb_true_iff in Hfin as [Hv Hrest].
      f_equal; [f_equal; by apply Hvalue | by apply IHfields].
Qed.

(** X21. What [clean_nan] returns holds no NaN and no infinity, a value
    without them is returned as it is and only such a value is, so that
    cleaning twice is cleaning once. *)
Theorem clean_nan_sound data :
  finite_json (clean_nan data) = true
  ∧ (clean_nan data = data ↔ finite_json data = true)
  ∧ clean_nan (clean_nan data) = clean_nan data.
Proof.
  split; [apply clean_nan_finite |]. split; [apply clean_nan_fixed |].
  apply clean_nan_fixed, clean_nan_finite.
Qed.

Section ApiProperties.

Variable round3 : float -> float.
Variable str_of_float : float -> string.
Variable format_money : pynum -> string.
Variable graphrag_agent : GraphRAGAgent.


End ApiProperties.

(** ** Reading the reply of the extraction model *)

Lemma rev_onto_app s t acc :
  PyStr.rev_onto (s +:+ t) acc = PyStr.rev_onto t (PyStr.rev_onto s acc).
Proof.
  revert acc. induction s as [|c s IH]; intros acc; [done |].
  rewrite append_cons. simpl. apply IH.
Qed.

Lemma rev_app s t : PyStr.rev (s +:+ t) = PyStr.rev t +:+ PyStr.rev s.
Proof.
  unfold PyStr.rev. rewrite rev_onto_app, rev_onto_append.
  by rewrite append_empty_l.
Qed.

Lemma rev_cons c s : PyStr.rev (String c s) = PyStr.rev s +:+ String c "".
Proof.
  unfold PyStr.rev. simpl. rewrite rev_onto_append. by rewrite append_empty_l.
Qed.

Lemma rev_rev s : PyStr.rev (PyStr.rev s) = s.
Proof. unfold PyStr.rev at 2. by rewrite rev_rev_onto. Qed.

Lemma lacks_rev c s : lacks c (PyStr.rev s) = lacks c s.
Proof.
  unfold lacks, PyStr.rev. rewrite all_chars_rev_onto. simpl.
  apply andb_true_r.
Qed.

Lemma from_first_spec c s t :
  from_first c s = Some t
  ↔ ∃ pre rest,
      s = pre +:+ String c rest ∧ t = String c rest ∧ lacks c pre = true.
Proof.
  split.
  - revert t. induction s as [|a s IH]; intros t Hs; [done |].
    simpl in Hs. destruct (Ascii.eqb a c) eqn:Ha.
    + apply Ascii.eqb_eq in Ha as ->. injection Hs as <-.
      by exists "", s.
    + destruct (IH t Hs) as (pre & rest & -> & -> & Hpre).
      exists (String a pre), rest. split; [done |]. split; [done |].
      unfold lacks in *. simpl. by rewrite Ha.
  - intros (pre & rest & -> & -> & Hpre).
    induction pre as [|a pre IH].
    + rewrite append_empty_l. simpl. by rewrite Ascii.eqb_refl.
    + unfold lacks in Hpre. simpl in Hpre.
      apply andb_true_iff in Hpre as [Ha Hpre].
      rewrite append_cons. simpl.
      apply negb_true_iff in Ha. rewrite Ha. by apply IH.
Qed.

Lemma upto_last_spec c s t :
  upto_last c s = Some t
  ↔ ∃ body post,
      s = body +:+ String c post ∧ t = body +:+ String c ""
      ∧ lacks c post = true.
Proof.
  unfold upto_last. split.
  - intros Hs. apply fmap_Some in Hs as (u & Hu & ->).
    apply from_first_spec in Hu as (pre & rest & Hrev & -> & Hpre).
    exists (PyStr.rev rest), (PyStr.rev pre).
    split; [| split; [apply rev_cons | by rewrite lacks_rev]].
    rewrite <- (rev_rev s), Hrev, rev_app, rev_cons, append_assoc.
    by rewrite append_cons, append_empty_l.
  - intros (body & post & -> & -> & Hpost).
    apply fmap_Some. exists (String c (PyStr.rev body)). split.
    + apply from_first_spec. exists (PyStr.rev post), (PyStr.rev body).
      split; [| split; [done | by rewrite lacks_rev]].
      rewrite rev_app, rev_cons, append_assoc.
      by rewrite append_cons, append_empty_l.
    + by rewrite rev_cons, rev_rev.
Qed.

Lemma brace_block_inv text block :
  brace_block text = Some block →
  ∃ pre body post,
    text = pre +:+ "{" +:+ body +:+ "}" +:+ post
    ∧ block = "{" +:+ body +:+ "}"
    ∧ lacks "{" pre = true ∧ lacks "}" post = true.
Proof.
  unfold brace_block. intros Hb.
  apply bind_Some in Hb as (suffix & Hfirst & Hlast).
  apply from_first_spec in Hfirst as (pre & rest & -> & -> & Hpre).
  apply upto_last_spec in Hlast as (body & post & Hrest & -> & Hpost).
  destruct body as [|a body].
  { rewrite append_empty_l in Hrest. discriminate Hrest. }
  rewrite append_cons in Hrest. injection Hrest as <- ->.
  by exists pre, body, post.
Qed.

Lemma brace_block_found pre body post :
  lacks "{" pre = true → lacks "}" post = true →
  brace_block (pre +:+ "{" +:+ body +:+ "}" +:+ post)
  = Some ("{" +:+ body +:+ "}").
Proof.
  intros Hpre Hpost. unfold brace_block. apply bind_Some.
  exists ("{" +:+ body +:+ "}" +:+ post). split.
  - apply from_first_spec. by exists pre, (body +:+ "}" +:+ post).
  - apply upto_last_spec. by exists ("{" +:+ body), post.
Qed.

(** X23. The block taken from a reply runs from its first opening brace to
    the last closing brace after it, and there is such a block exactly when
    a closing brace follows an opening one. *)
Theorem brace_block_spec text block :
  brace_block text = Some block
  ↔ ∃ pre body post,
      text = pre +:+ "{" +:+ body +:+ "}" +:+ post
      ∧ block = "{" +:+ body +:+ "}"
      ∧ lacks "{" pre = true ∧ lacks "}" post = true.
Proof.
  split; [apply brace_block_inv |].
  intros (pre & body & post & -> & -> & Hpre & Hpost).
  by apply brace_block_found.
Qed.

Section ParseProperties.

Variable json_loads : string -> option json.

(** X24. A reply that does not parse as it is, but whose text from the first
    opening brace to the last closing brace does, is read as that block;
    text before and after it is ignored. *)
Theorem parse_ignores_prose pre body post value :
  lacks "{" pre = true →
  lacks "}" post = true →
  json_loads (pre +:+ "{" +:+ body +:+ "}" +:+ post) = None →
  json_loads ("{" +:+ body +:+ "}") = Some value →
  _parse_json_response json_loads (pre +:+ "{" +:+ body +:+ "}" +:+ post)
  = value.
Proof.
  intros Hpre Hpost Hall Hblock. unfold _parse_json_response.
  by rewrite Hall, (brace_block_found pre body post Hpre Hpost), Hblock.
Qed.

(** X25. A reply that does not parse and has no opening brace, or no closing
    brace, is read as the empty extraction, without a second attempt to
    parse. *)
Theorem parse_falls_back text :
  json_loads text = None →
  lacks "{" text = true ∨ lacks "}" text = true →
  brace_block text = None
  ∧ _parse_json_response json_loads text = EMPTY_EXTRACTION.
Proof.
  intros Htext Hlacks.
  assert (Hb : brace_block text = None).
  { destruct (brace_block text) as [block|] eqn:Hb; [| done].
    apply brace_block_inv in Hb
      as (pre & body & post & -> & -> & Hpre & Hpost).
    exfalso. unfold lacks in Hlacks.
    rewrite !all_chars_append in Hlacks. simpl in Hlacks.
    rewrite !andb_false_r in Hlacks. simpl in Hlacks.
    rewrite ?andb_false_r in Hlacks. by destruct Hlacks. }
  split; [done |]. unfold _parse_json_response. by rewrite Htext, Hb.
Qed.

End ParseProperties.

(** ** Worked instances of the further properties *)

(** Two hits come back from the store: two evidence items. *)
Lemma vector_search_alignment_witness :
  ∃ evidence,
    (_vector_search "Meta risks" 5
       (Scenario.world Scenario.graph Scenario.hits Scenario.no_fault)).1
    = Ok evidence
    ∧ length evidence = 2.
Proof.
  destruct (vector_search_alignment "Meta risks" 5
              (Scenario.world Scenario.graph Scenario.hits Scenario.no_fault))
    as (evidence & Hrun & Hlen & _).
  - reflexivity.
  - exists evidence. split; [exact Hrun | exact Hlen].
Defined.

(** A question made of short words has no keyword: the graph is not
    queried. *)
Lemma graph_search_without_keywords_witness :
  (_graph_search Scenario.agent "is it up"
     (Scenario.world Scenario.graph Scenario.hits Scenario.no_fault)).1
  = Ok ([], []).
Proof.
  destruct (graph_search_without_keywords Scenario.agent "is it up"
              (Scenario.world Scenario.graph Scenario.hits Scenario.no_fault))
    as (Hrun & _).
  - reflexivity.
  - exact Hrun.
Defined.

(** The generator is down: its message is the answer. *)
Lemma generate_answer_failure_witness :
  _generate_answer (fun f => f) Scenario.agent "What are Meta's main risks?"
    "=== DOCUMENT CONTEXT ===" Scenario.evidence
    (Scenario.world Scenario.graph Scenario.hits (Scenario.fault_at 0))
  = (Ok ("Error generating answer: " +:+ "ServiceUnavailable", []),
     advance
       [CallGenerate (llm_model Scenario.agent)
          (make_prompt "What are Meta's main risks?"
             "=== DOCUMENT CONTEXT ===")]
       (Scenario.world Scenario.graph Scenario.hits (Scenario.fault_at 0))).
Proof.
  apply (generate_answer_failure (fun f => f) Scenario.agent
           "What are Meta's main risks?" "=== DOCUMENT CONTEXT ==="
           Scenario.evidence
           (Scenario.world Scenario.graph Scenario.hits (Scenario.fault_at 0))
           "ServiceUnavailable").
  - vm_compute. discriminate.
  - reflexivity.
Defined.

(** A question about Apple asked without the graph. *)
Lemma answer_without_graph_witness :
  List.filter is_graph_call
    (new_calls (Scenario.world Scenario.graph Scenario.hits Scenario.no_fault)
       (answer (fun f => f) (fun _ => "") (fun _ => "") Scenario.agent
          "Apple risks" 5 false
          (Scenario.world Scenario.graph Scenario.hits Scenario.no_fault)).2)
  = [].
Proof.
  destruct (answer_without_graph (fun f => f) (fun _ => "") (fun _ => "")
              Scenario.agent "Apple risks" 5 false
              (Scenario.world Scenario.graph Scenario.hits Scenario.no_fault))
    as (Hcalls & _).
  - left. reflexivity.
  - exact Hcalls.
Defined.

(** A question about Apple asked without the graph: the result echoes
    the question and counts at most the two documents of the store. *)
Lemma answer_counts_witness :
  ∃ result,
    (answer (fun f => f) (fun _ => "") (fun _ => "") Scenario.agent
       "Apple risks" 5 false
       (Scenario.world Scenario.graph Scenario.hits Scenario.no_fault)).1
    = Ok result
    ∧ ar_question result = "Apple risks"
    ∧ vector_results (ar_sources result) ≤ 2.
Proof.
  assert (Hrun : ∃ result,
            (answer (fun f => f) (fun _ => "") (fun _ => "") Scenario.agent
               "Apple risks" 5 false
               (Scenario.world Scenario.graph Scenario.hits Scenario.no_fault)).1
            = Ok result)
    by (eexists; vm_compute; reflexivity).
  destruct Hrun as [result Hrun]. exists result. split; [exact Hrun |].
  destruct (answer_counts (fun f => f) (fun _ => "") (fun _ => "")
              Scenario.agent "Apple risks" 5 false
              (Scenario.world Scenario.graph Scenario.hits Scenario.no_fault)
              result Hrun)
    as (Hquestion & _ & _ & _ & Hdocs & _).
  split; [exact Hquestion | exact Hdocs].
Defined.

(** A question about Apple on a graph where the company matched has a
    number for description: answering raises [TypeError] and the model is
    not called. *)
Lemma answer_read_only_witness :
  (answer (fun f => f) (fun _ => "") (fun _ => "") Scenario.agent
     "Apple risks" 5 true
     (Scenario.world Scenario.graph_numbered Scenario.hits Scenario.no_fault)).1
  = Raise (Exn "'int' object is not subscriptable")
  ∧ List.filter is_generate_call
      (new_calls
         (Scenario.world Scenario.graph_numbered Scenario.hits Scenario.no_fault)
         (answer (fun f => f) (fun _ => "") (fun _ => "") Scenario.agent
            "Apple risks" 5 true
            (Scenario.world Scenario.graph_numbered Scenario.hits
               Scenario.no_fault)).2)
    = [].
Proof.
  assert (Hrun : (answer (fun f => f) (fun _ => "") (fun _ => "") Scenario.agent
                    "Apple risks" 5 true
                    (Scenario.world Scenario.graph_numbered Scenario.hits
                       Scenario.no_fault)).1
                 = Raise (Exn "'int' object is not subscriptable"))
    by (vm_compute; reflexivity).
  split; [exact Hrun |].
  destruct (answer_read_only (fun f => f) (fun _ => "") (fun _ => "")
              Scenario.agent "Apple risks" 5 true
              (Scenario.world Scenario.graph_numbered Scenario.hits
                 Scenario.no_fault))
    as (_ & _ & _ & _ & _ & Hraise & _).
  destruct (Hraise _ Hrun) as [Hnone _]. exact Hnone.
Defined.


(** A batch with a label in two words, which the sample store rejects:
    Acme and the relation are counted, and at most both entities. *)
Lemma ingest_counts_witness :
  ∃ entities_added relations_added,
    (add_entities_to_graph Scenario.agent Scenario.mixed_batch
       (Scenario.world Scenario.graph Scenario.hits Scenario.no_fault)).1
    = Ok (IngestCounts entities_added relations_added)
    ∧ 1 ≤ entities_added ≤ 2
    ∧ 1 ≤ relations_added ≤ 1.
Proof.
  destruct (ingest_counts Scenario.agent Scenario.mixed_batch
              (Scenario.world Scenario.graph Scenario.hits Scenario.no_fault))
    as (e & r & Hrun & He & Hr & _).
  - reflexivity.
  - intros k _. reflexivity.
  - reflexivity.
  - exists e, r. split; [exact Hrun |]. split; [exact He | exact Hr].
Defined.


(** The batch that holds Acme only adds to the sample graph. *)
Lemma ingest_only_grows_witness :
  extends Scenario.graph
    (w_graph
       (add_entities_to_graph Scenario.agent Scenario.acme_batch
          (Scenario.world Scenario.graph Scenario.hits Scenario.no_fault)).2).
Proof.
  apply (ingest_only_grows Scenario.agent Scenario.acme_batch
           (Scenario.world Scenario.graph Scenario.hits Scenario.no_fault)).
  reflexivity.
Defined.

(** Nokia is not in the sample graph: the relation labelled "supplies to"
    is counted and the graph is the same. *)
Lemma relation_without_nodes_counted_witness :
  (add_entities_to_graph Scenario.agent
     (one_relation "Nokia" "Technology" (Some "supplies to"))
     (Scenario.world Scenario.graph Scenario.hits Scenario.no_fault)).1
  = Ok (IngestCounts 0 1)
  ∧ w_graph
      (add_entities_to_graph Scenario.agent
         (one_relation "Nokia" "Technology" (Some "supplies to"))
         (Scenario.world Scenario.graph Scenario.hits Scenario.no_fault)).2
    = Scenario.graph.
Proof.
  apply (relation_without_nodes_counted Scenario.agent
           (Scenario.world Scenario.graph Scenario.hits Scenario.no_fault)
           "Nokia" "Technology" (Some "supplies to") "SUPPLIES_TO").
  - reflexivity.
  - intros k _. reflexivity.
  - reflexivity.
  - reflexivity.
  - reflexivity.
  - left. reflexivity.
Defined.

(** The same relation between Apple and its sector, sent twice. *)
Lemma relation_merge_again_witness :
  (add_entities_to_graph Scenario.agent
     (one_relation "Apple Inc" "Technology" (Some "supplies to"))
     (add_entities_to_graph Scenario.agent
        (one_relation "Apple Inc" "Technology" (Some "supplies to"))
        (Scenario.world Scenario.graph Scenario.hits Scenario.no_fault)).2).1
  = Ok (IngestCounts 0 1).
Proof.
  destruct (relation_merge_again Scenario.agent
              (Scenario.world Scenario.graph Scenario.hits Scenario.no_fault)
              "Apple Inc" "Technology" (Some "supplies to") "SUPPLIES_TO")
    as (_ & Hsecond & _).
  - reflexivity.
  - intros k _. reflexivity.
  - reflexivity.
  - reflexivity.
  - reflexivity.
  - exact Hsecond.
Defined.

(** Acme is new to the sample graph: one node more, the edges as before. *)
Lemma entity_merge_keyed_by_label_witness :
  length
    (g_nodes
       (w_graph
          (add_entities_to_graph Scenario.agent
             (one_entity (Some "report.pdf") "Acme" "Organization")
             (Scenario.world Scenario.graph Scenario.hits Scenario.no_fault)).2))
  = 3.
Proof.
  destruct (entity_merge_keyed_by_label Scenario.agent
              (Scenario.world Scenario.graph Scenario.hits Scenario.no_fault)
              (Some "report.pdf") "Acme" "Organization")
    as (Hnodes & _).
  - reflexivity.
  - intros k _. reflexivity.
  - reflexivity.
  - reflexivity.
  - exact Hnodes.
Defined.

(** A keyword of a question about Apple. *)
Lemma keywords_normal_witness :
  PyStr.lower "apple" = "apple" ∧ 2 < String.length "apple".
Proof.
  destruct (keywords_normal "Apple risks" "apple") as (_ & _ & Hlow & Hlen & _).
  - vm_compute. constructor.
  - split; [exact Hlow | exact Hlen].
Defined.

(** A reply with a sentence around the object, read by a parser that
    knows the empty object only. *)
Lemma parse_ignores_prose_witness :
  _parse_json_response
    (fun s => if String.eqb s "{}" then Some (JDict []) else None)
    "Here is the JSON: {} Done."
  = JDict [].
Proof.
  apply (parse_ignores_prose
           (fun s => if String.eqb s "{}" then Some (JDict []) else None)
           "Here is the JSON: " "" " Done." (JDict [])).
  - reflexivity.
  - reflexivity.
  - reflexivity.
  - reflexivity.
Defined.

(** A reply without braces. *)
Lemma parse_falls_back_witness :
  _parse_json_response
    (fun s => if String.eqb s "{}" then Some (JDict []) else None)
    "I cannot answer."
  = EMPTY_EXTRACTION.
Proof.
  destruct (parse_falls_back
              (fun s => if String.eqb s "{}" then Some (JDict []) else None)
              "I cannot answer.")
    as (_ & Hread).
  - reflexivity.
  - left. reflexivity.
  - exact Hread.
Defined.
